(** * scholar-digest: a shallow embedding of [harvest.py] and [edit.py]

    [harvest.py] aggregates Google Scholar alert mails into one record per
    paper; [edit.py] shows or deletes ['---']-separated blocks of the text
    file the aggregator printed.  Python values are modelled as follows:

    - [str] is [string]; a text file is the string the text layer presents
      (newline translation already done);
    - the [dict] of papers is an association list in insertion order, the
      [set]s of names are [gset string];
    - [edit.py] runs in a state-and-exception monad over a small file
      system (directory, inodes, buffered writer, [sys.stdout]) with an
      oracle that says where the environment raises. *)

From Stdlib Require Import Ascii String.
From stdpp Require Import base option list strings gmap sets.

(** ** Python strings *)

Definition nl : ascii := "010"%char.
Definition tab : ascii := "009"%char.
Definition NL : string := String nl "".
Definition TAB : string := String tab "".

(** [needle in hay] on [str]. *)
Fixpoint str_in (needle hay : string) : bool :=
  String.prefix needle hay ||
  match hay with
  | EmptyString => false
  | String _ hay' => str_in needle hay'
  end.

(** [s.endswith(suffix)]; used in statements only. *)
Fixpoint endswith (s suffix : string) : bool :=
  bool_decide (s = suffix) ||
  match s with
  | EmptyString => false
  | String _ s' => endswith s' suffix
  end.

(** Iterating a text file: the lines, each with its terminating newline
    (the last one possibly without). *)
Fixpoint readlines (s : string) : list string :=
  match s with
  | EmptyString => []
  | String c s' =>
      if bool_decide (c = nl) then NL :: readlines s'
      else match readlines s' with
           | [] => [String c ""]
           | l :: ls => String c l :: ls
           end
  end.

(** [line.rstrip('\n')]: every trailing newline goes. *)
Fixpoint rstrip_nl (s : string) : string :=
  match s with
  | EmptyString => ""
  | String c s' =>
      let r := rstrip_nl s' in
      if bool_decide (r = "") && bool_decide (c = nl) then "" else String c r
  end.

(** ASCII white space, as [str.isspace] has it on code points below 128. *)
Definition isspace (c : ascii) : bool :=
  let n := nat_of_ascii c in
  bool_decide (n = 32) || (bool_decide (9 ≤ n) && bool_decide (n ≤ 13))
  || (bool_decide (28 ≤ n) && bool_decide (n ≤ 31)).

Fixpoint lstrip (s : string) : string :=
  match s with
  | EmptyString => ""
  | String c s' => if isspace c then lstrip s' else s
  end.

Fixpoint rstrip (s : string) : string :=
  match s with
  | EmptyString => ""
  | String c s' =>
      let r := rstrip s' in
      if bool_decide (r = "") && isspace c then "" else String c r
  end.

(** [s.strip()] *)
Definition strip (s : string) : string := lstrip (rstrip s).

(** [str.lower] on the ASCII letters; the instance used in examples. *)
Definition ascii_lower_char (c : ascii) : ascii :=
  let n := nat_of_ascii c in
  if bool_decide (65 ≤ n) && bool_decide (n ≤ 90) then ascii_of_nat (n + 32) else c.

Fixpoint ascii_lower (s : string) : string :=
  match s with
  | EmptyString => ""
  | String c s' => String (ascii_lower_char c) (ascii_lower s')
  end.

(** ** Exceptions *)

Inductive exn :=
  | OSError
  | UnicodeDecodeError
  | ValueError
  | TypeError
  | re_error
  | KeyboardInterrupt
  | SystemExit (code : nat).

(** [isinstance(e, Exception)]: [KeyboardInterrupt] and [SystemExit] derive
    from [BaseException] only. *)
Definition is_Exception (e : exn) : bool :=
  match e with
  | KeyboardInterrupt | SystemExit _ => false
  | _ => true
  end.

Inductive result (A : Type) :=
  | Ret (a : A)
  | Raise (e : exn).
Arguments Ret {A} a.
Arguments Raise {A} e.

(** ** A Python [dict] with [str] keys, in insertion order *)

Module PyDict.
Section dict.
Context {V : Type}.

Definition t := list (string * V).

(** [d.get(k)] *)
Fixpoint get (k : string) (d : list (string * V)) : option V :=
  match d with
  | [] => None
  | (k', v) :: d' => if bool_decide (k' = k) then Some v else get k d'
  end.

(** [k in d] *)
Definition contains (k : string) (d : list (string * V)) : bool :=
  match get k d with Some _ => true | None => false end.

(** [d[k] = v]: an existing key keeps its position, a new one goes last. *)
Fixpoint setitem (k : string) (v : V) (d : list (string * V)) : list (string * V) :=
  match d with
  | [] => [(k, v)]
  | (k', v') :: d' =>
      if bool_decide (k' = k) then (k', v) :: d' else (k', v') :: setitem k v d'
  end.

(** [f(d[k])] for an [f] that mutates the object stored under [k]. *)
Fixpoint alter (f : V → V) (k : string) (d : list (string * V)) : list (string * V) :=
  match d with
  | [] => []
  | (k', v) :: d' =>
      if bool_decide (k' = k) then (k', f v) :: d' else (k', v) :: alter f k d'
  end.

Definition keys (d : list (string * V)) : list string := d.*1.
End dict.
End PyDict.
Arguments PyDict.keys {V} d : simpl never.

(** ** The services [harvest.py] takes from its libraries and environment *)

Class Platform := {
  (** [parse_qs(urlparse(href).query)]: the first value of the [url]
      parameter of the query, when the query has one *)
  query_url : string → option string;
  (** [str.lower] *)
  lower : string → string;
  (** [open(name)] read to its end; [None] when the file cannot be opened *)
  read_file : string → option string;
}.

Module Harvest.

(** Matching the pattern [^(.* )LIT$] of [re.compile] against [s] with
    [match], where the group is a greedy dot-star: the result is [group(1)].
    The dot matches any character but a newline, the star is greedy, and
    the dollar matches at the end of the string and also just before a
    newline that ends it. *)
Definition at_end (lit s : string) : bool :=
  bool_decide (s = lit) || bool_decide (s = lit +:+ NL).

Fixpoint rx_match (lit s : string) : option string :=
  match s with
  | EmptyString => if at_end lit s then Some "" else None
  | String c s' =>
      match (if bool_decide (c = nl) then None else rx_match lit s') with
      | Some g => Some (String c g)
      | None => if at_end lit s then Some "" else None
      end
  end.

Definition author_rx : string → option string := rx_match " - new articles".
Definition citing_rx : string → option string := rx_match " - new citations".
Definition related_rx : string → option string := rx_match " - new related research".

Module Paper.
Record t := mk {
  url : string;
  desc : string;
  author : gset string;
  citing : gset string;
  related : gset string;
}.

(** [Paper.__init__] *)
Definition init (url desc : string) : t := mk url desc ∅ ∅ ∅.

Definition add_author (g : string) (self : t) : t :=
  mk (url self) (desc self) ({[g]} ∪ author self) (citing self) (related self).
Definition add_citing (g : string) (self : t) : t :=
  mk (url self) (desc self) (author self) ({[g]} ∪ citing self) (related self).
Definition add_related (g : string) (self : t) : t :=
  mk (url self) (desc self) (author self) (citing self) ({[g]} ∪ related self).

(** [Paper.note_subject]: the author branch returns; the citing and the
    related branch are tried one after the other. *)
Definition note_subject (subject : string) (self : t) : t :=
  match author_rx subject with
  | Some g => add_author g self
  | None =>
      let self := match citing_rx subject with
                  | Some g => add_citing g self
                  | None => self
                  end in
      match related_rx subject with
      | Some g => add_related g self
      | None => self
      end
  end.

(** [Paper.dump]: the lines printed.  A Python [set] is iterated in an
    unspecified order; the model takes the order of [elements]. *)
Definition dump (self : t) : list string :=
  ["---"; TAB +:+ desc self; TAB +:+ url self]
  ++ (if bool_decide (size (author self) ≠ 0)
      then [TAB +:+ "author: " +:+ String.concat ", " (elements (author self))] else [])
  ++ (if bool_decide (size (citing self) ≠ 0)
      then [TAB +:+ "citing: " +:+ String.concat ", " (elements (citing self))] else [])
  ++ (if bool_decide (size (related self) ≠ 0)
      then [TAB +:+ "related: " +:+ String.concat ", " (elements (related self))] else []).
End Paper.

Module ScholarScraper.
Record t := mk {
  papers : list (string * Paper.t);
  pending_subject : option string;
  pending_url : option string;
}.

(** [ScholarScraper.__init__] *)
Definition init : t := mk [] None None.

(** [dict(attrs).get(k)]: of two attributes with one name the later one
    stays.  An attribute without a value has the value [None]. *)
Fixpoint attr_get (k : string) (attrs : list (string * option string))
    : option (option string) :=
  match attrs with
  | [] => None
  | (k', v) :: attrs' =>
      match attr_get k attrs' with
      | Some v' => Some v'
      | None => if bool_decide (k' = k) then Some v else None
      end
  end.

Definition handle_starttag `{Platform} (tag : string)
    (attrs : list (string * option string)) (self : t) : t :=
  if bool_decide (tag = "a")
     && bool_decide (attr_get "class" attrs = Some (Some "gse_alrt_title")) then
    let scholar_url := default (Some "") (attr_get "href" attrs) in
    (* [urlparse(None)] has an empty query *)
    match scholar_url ≫= query_url with
    | Some u => mk (papers self) (pending_subject self) (Some u)
    | None => self
    end
  else self.

Definition handle_endtag (tag : string) (self : t) : t :=
  match pending_url self with
  | Some _ => mk (papers self) (pending_subject self) None
  | None => self
  end.

Definition handle_data (data : string) (self : t) : t :=
  match pending_url self with
  | Some u =>
      let papers1 :=
        if PyDict.contains u (papers self) then papers self
        else PyDict.setitem u (Paper.init u data) (papers self) in
      match pending_subject self with
      | Some subject =>
          mk (PyDict.alter (Paper.note_subject subject) u papers1)
             (pending_subject self) (pending_url self)
      | None => mk papers1 (pending_subject self) (pending_url self)
      end
  | None => self
  end.

(** [set_subject] decodes the UTF-8 bytes [main] has just encoded: the
    model passes the string. *)
Definition set_subject (subject : string) (self : t) : t :=
  mk (papers self) (Some subject) (pending_url self).

(** The two list comprehensions of [dump]. *)
Definition load_blacklist (text : string) : list string :=
  strip <$> filter (λ line, strip line ≠ "") (readlines text).

(** [ScholarScraper.dump]: the lines printed, or the error of a blacklist
    file that cannot be opened. *)
Definition dump `{Platform} (self : t) : result (list string) :=
  match read_file "nonfree-blacklist.txt" with
  | None => Raise OSError
  | Some nonfree_text =>
      let nonfree_blacklist := load_blacklist nonfree_text in
      match read_file "topic-blacklist.txt" with
      | None => Raise OSError
      | Some topic_text =>
          let topic_blacklist := load_blacklist topic_text in
          Ret (flat_map
                 (λ '(url, paper),
                    if negb (existsb (λ b, str_in b url) nonfree_blacklist) then
                      let ld := lower (Paper.desc paper) in
                      if negb (existsb (λ t, str_in t ld) topic_blacklist)
                      then Paper.dump paper else []
                    else [])
                 (papers self))
      end
  end.
End ScholarScraper.

(** What [HTMLParser.feed] and [main] deliver to the scraper, one call
    after the other. *)
Inductive event :=
  | SetSubject (subject : string)
  | StartTag (tag : string) (attrs : list (string * option string))
  | EndTag (tag : string)
  | Data (data : string).

Definition step `{Platform} (self : ScholarScraper.t) (ev : event) : ScholarScraper.t :=
  match ev with
  | SetSubject subject => ScholarScraper.set_subject subject self
  | StartTag tag attrs => ScholarScraper.handle_starttag tag attrs self
  | EndTag tag => ScholarScraper.handle_endtag tag self
  | Data data => ScholarScraper.handle_data data self
  end.

Definition run_from `{Platform} (self : ScholarScraper.t) (evs : list event)
    : ScholarScraper.t :=
  fold_left step evs self.

Definition run `{Platform} (evs : list event) : ScholarScraper.t :=
  run_from ScholarScraper.init evs.

End Harvest.

(** ** Definitions for the statements about [harvest.py] *)

Fixpoint newline_free (s : string) : bool :=
  match s with
  | EmptyString => true
  | String c s' => negb (bool_decide (c = nl)) && newline_free s'
  end.

Import Harvest.

(** The last character decides whether a final newline is there. *)
Definition last_char (s : string) : option ascii := last (list_ascii_of_string s).

(** The last three characters of a string, last first. *)
Definition rev_tail (s : string) : list ascii := take 3 (reverse (list_ascii_of_string s)).

(** [watch_subject g suffix subject]: the subject is the name [g], free of
    newlines, then the suffix, then at most one final newline. *)
Definition watch_subject (g suffix subject : string) : Prop :=
  newline_free g = true ∧ (subject = g +:+ suffix ∨ subject = g +:+ suffix +:+ NL).

(** ** Observations: what the scraper is told about a paper

    An observation is one call of [handle_data] while a URL is pending: the
    subject of the message, the URL and the text. *)

Record observation := Obs {
  o_subject : option string;
  o_url : string;
  o_text : string;
}.

Fixpoint observed `{Platform} (self : ScholarScraper.t) (evs : list event)
    : list observation :=
  match evs with
  | [] => []
  | ev :: evs' =>
      match ev, ScholarScraper.pending_url self with
      | Data data, Some u => [Obs (ScholarScraper.pending_subject self) u data]
      | _, _ => []
      end ++ observed (step self ev) evs'
  end.

(** The first text observed for a URL. *)
Fixpoint first_text (u : string) (obs : list observation) : option string :=
  match obs with
  | [] => None
  | o :: obs' => if bool_decide (o_url o = u) then Some (o_text o) else first_text u obs'
  end.

Inductive category := AuthorWatch | CitationWatch | RelatedWatch.

Definition names_of (c : category) (p : Paper.t) : gset string :=
  match c with
  | AuthorWatch => Paper.author p
  | CitationWatch => Paper.citing p
  | RelatedWatch => Paper.related p
  end.

(** The effect of one observation on the dictionary, through [handle_data]. *)
Definition note (d : list (string * Paper.t)) (o : observation) : list (string * Paper.t) :=
  ScholarScraper.papers
    (ScholarScraper.handle_data (o_text o)
       (ScholarScraper.mk d (o_subject o) (Some (o_url o)))).

(** The names one subject contributes to a category. *)
Definition contrib (c : category) (o : observation) : gset string :=
  match o_subject o with
  | Some s => names_of c (Paper.note_subject s (Paper.init "" ""))
  | None => ∅
  end.

Fixpoint names (c : category) (u : string) (obs : list observation) : gset string :=
  match obs with
  | [] => ∅
  | o :: obs' => (if bool_decide (o_url o = u) then contrib c o else ∅) ∪ names c u obs'
  end.

Definition maybe_note (s : option string) (p : Paper.t) : Paper.t :=
  match s with Some s => Paper.note_subject s p | None => p end.

(** A platform for the examples: the query is the text after [?url=], the
    letters are ASCII, and the two blacklist files are short. *)
Definition demo_platform : Platform := {|
  query_url href :=
    if String.prefix "?url=" href
    then Some (String.substring 5 (String.length href) href) else None;
  lower := ascii_lower;
  read_file name :=
    if bool_decide (name = "nonfree-blacklist.txt")
    then Some ("springer" +:+ NL +:+ NL +:+ "  elsevier " +:+ NL)
    else if bool_decide (name = "topic-blacklist.txt")
    then Some ("blockchain" +:+ NL)
    else None
|}.

Definition alert (href text : string) : list event :=
  [StartTag "a" [("class", Some "gse_alrt_title"); ("href", Some href)];
   Data text; EndTag "a"].

Definition demo_mail_1 : list event :=
  SetSubject "Ada - new articles" :: alert "?url=http://x.org/p1" "Paper One".

Definition demo_mail_2 : list event :=
  SetSubject "Bob - new citations"
  :: alert "?url=http://springer.com/p2" "Paper Two"
  ++ alert "?url=http://x.org/p1" "Paper One, again".

Definition demo_mail_3 : list event :=
  SetSubject "Cy - new related research"
  :: alert "?url=http://y.org/p3" "Blockchain for Cats".

(** A record is excluded when a blacklist entry occurs in its URL or in its
    lower-cased description. *)
Definition excluded `{Platform} (nonfree_blacklist topic_blacklist : list string)
    (p : Paper.t) : Prop :=
  Exists (λ b, str_in b (Paper.url p) = true) nonfree_blacklist
  ∨ Exists (λ t, str_in t (lower (Paper.desc p)) = true) topic_blacklist.

#[global] Instance excluded_dec `{Platform} nonfree topic p :
  Decision (excluded nonfree topic p).
Proof. unfold excluded. apply _. Defined.

Definition demo_run : list event := demo_mail_1 ++ demo_mail_2 ++ demo_mail_3.

(** ** The environment of [edit.py] *)

Class EditEnv := {
  (** [re.compile(p, re.IGNORECASE)]: the [search] of the compiled pattern
      as a test on a line, or [None] where [re.error] is raised *)
  re_compile : string → option (string → bool);
  (** the text a writer holds back before it reaches the file *)
  bufsize : nat;
}.

Module Edit.

Definition SEP : string := "---".

(** *** The file system and the process state *)

Record world := World {
  w_dir : gmap string nat;         (* directory: path to inode *)
  w_ino : gmap nat string;         (* inode to the text on disk *)
  w_pending : gmap nat string;     (* open writers: inode to buffered text *)
  w_stdout : string;               (* what [sys.stdout] has received *)
  w_fault : option (nat * exn);    (* the exception the environment raises,
                                      and how many fault points come first *)
  w_trace : list (gmap string string);  (* the directory as seen after each
                                           system call, oldest first *)
}.

(** What an observer sees: path to text. *)
Definition view (w : world) : gmap string string :=
  omap (λ i, w_ino w !! i) (w_dir w).

Definition M (A : Type) : Type := world → result A * world.

Definition ret {A} (a : A) : M A := λ w, (Ret a, w).

Definition bind {A B} (m : M A) (f : A → M B) : M B :=
  λ w, match m w with
       | (Ret a, w') => f a w'
       | (Raise e, w') => (Raise e, w')
       end.

#[global] Instance M_ret : MRet M := @ret.
#[global] Instance M_bind : MBind M := λ A B f m, bind m f.

Definition raise {A} (e : exn) : M A := λ w, (Raise e, w).

(** [try: m  except cls: h] *)
Definition try_except {A} (m : M A) (cls : exn → bool) (h : exn → M A) : M A :=
  λ w, match m w with
       | (Raise e, w') => if cls e then h e w' else (Raise e, w')
       | r => r
       end.

(** [try: m  finally: fin] *)
Definition try_finally {A} (m : M A) (fin : M unit) : M A :=
  λ w, match m w with
       | (r, w') =>
           match fin w' with
           | (Ret _, w'') => (r, w'')
           | (Raise e, w'') => (Raise e, w'')
           end
       end.

Definition is_OSError (e : exn) : bool :=
  match e with OSError => true | _ => false end.

Fixpoint for_each {A} (l : list A) (body : A → M unit) : M unit :=
  match l with
  | [] => mret tt
  | x :: l' => body x;; for_each l' body
  end.

(** The environment raises once in a run, if at all: [w_fault] holds the
    exception and the number of fault points that pass before it.  At a
    [fault_point] any exception may arrive. *)
Definition fault_point : M unit :=
  λ w, match w_fault w with
       | None => (Ret tt, w)
       | Some (0, e) =>
           (Raise e, World (w_dir w) (w_ino w) (w_pending w) (w_stdout w) None (w_trace w))
       | Some (S n, e) =>
           (Ret tt, World (w_dir w) (w_ino w) (w_pending w) (w_stdout w)
                      (Some (n, e)) (w_trace w))
       end.

(** Where a system call may fail, which it does with [OSError]: the oracle
    counts down when that is the exception it holds.  An exception of
    another kind arrives at a [fault_point]; those are in the two loops and
    at every [write] to a file. *)
Definition sys_fault_point : M unit :=
  λ w, match w_fault w with
       | Some (_, OSError) => fault_point w
       | _ => (Ret tt, w)
       end.

Definition set_fs (dir : gmap string nat) (ino : gmap nat string)
    (pending : gmap nat string) (w : world) : world :=
  let w' := World dir ino pending (w_stdout w) (w_fault w) (w_trace w) in
  World dir ino pending (w_stdout w) (w_fault w) (w_trace w ++ [view w']).

(** [os.unlink(path)]; it fails on a missing path, and so does
    [os.rename]. *)
Definition os_unlink (path : string) : M unit :=
  λ w, match w_dir w !! path with
       | None => (Raise OSError, w)
       | Some _ => (Ret tt, set_fs (delete path (w_dir w)) (w_ino w) (w_pending w) w)
       end.

(** [os.rename(src, dst)] *)
Definition os_rename (src dst : string) : M unit :=
  λ w, match w_dir w !! src with
       | None => (Raise OSError, w)
       | Some i =>
           (Ret tt, set_fs (<[dst := i]> (delete src (w_dir w))) (w_ino w) (w_pending w) w)
       end.

(** [io.open(path, 'r')]: the handle is the inode.  It fails on a missing
    path, and it may fail on a path that is there. *)
Definition open_r (path : string) : M nat :=
  λ w, match w_dir w !! path with
       | None => (Raise OSError, w)
       | Some i => (sys_fault_point;; mret i) w
       end.

(** An existing file is truncated, a missing one is created on a fresh
    inode. *)
Definition create (path : string) : M nat :=
  λ w, let i := match w_dir w !! path with
                | Some i => i
                | None => fresh (dom (w_ino w) ∪ map_img (w_dir w))
                end in
       (Ret i, set_fs (<[path := i]> (w_dir w)) (<[i := ""]> (w_ino w))
                 (<[i := ""]> (w_pending w)) w).

(** [os.open(path, O_CREAT | O_WRONLY | O_TRUNC, perm)] wrapped by
    [io.open(fd, 'w')]; when it fails nothing has been created. *)
Definition open_w (path : string) : M nat :=
  sys_fault_point;; create path.

(** The text [p] goes to the end of the inode and out of the buffer. *)
Definition write_out (i : nat) (p : string) : M unit :=
  λ w, (Ret tt, set_fs (w_dir w) (<[i := default "" (w_ino w !! i) +:+ p]> (w_ino w))
                  (<[i := ""]> (w_pending w)) w).

(** The buffered text of a writer reaches its inode, or the write fails and
    the text stays in the buffer. *)
Definition flush (i : nat) : M unit :=
  λ w, match w_pending w !! i with
       | None => (Raise ValueError, w)
       | Some p => (sys_fault_point;; write_out i p) w
       end.

Inductive fh := Stdout | File (i : nat).

(** Text for [sys.stdout]. *)
Definition emit (s : string) : M unit :=
  λ w, (Ret tt, World (w_dir w) (w_ino w) (w_pending w) (w_stdout w +:+ s)
                  (w_fault w) (w_trace w)).

(** Text for a writer: buffered, and flushed once the buffer is over its
    size.  A closed writer raises [ValueError]. *)
Definition buffer `{EditEnv} (i : nat) (s : string) : M unit :=
  λ w, match w_pending w !! i with
       | None => (Raise ValueError, w)
       | Some p =>
           let w' := World (w_dir w) (w_ino w) (<[i := p +:+ s]> (w_pending w))
                       (w_stdout w) (w_fault w) (w_trace w) in
           if bool_decide (bufsize < String.length (p +:+ s)) then flush i w'
           else (Ret tt, w')
       end.

(** [outfh.write(s)]: what [write] itself raises (the text cannot be
    encoded, an interrupt arrives) comes before the text is buffered; the
    error of the system call comes with the flush. *)
Definition write `{EditEnv} (outfh : fh) (s : string) : M unit :=
  match outfh with
  | Stdout => emit s
  | File i => fault_point;; buffer i s
  end.

(** [writable.close()]: the buffered text is flushed; the writer is closed
    also when the flush fails, and the error of the flush goes on. *)
Definition close_w (i : nat) : M unit :=
  λ w, match w_pending w !! i with
       | None => (Ret tt, w)
       | Some _ =>
           match flush i w with
           | (r, w') =>
               (r, World (w_dir w') (w_ino w') (delete i (w_pending w'))
                     (w_stdout w') (w_fault w') (w_trace w'))
           end
       end.

(** The lines a reader will deliver: the text of an inode is the text as
    the reader presents it, with the ends of lines translated. *)
Definition read_lines (i : nat) : M (list string) :=
  λ w, (Ret (readlines (default "" (w_ino w !! i))), w).

(** *** [inplace]

    The call in [drop_blocks] takes every default: mode ['r'], so the
    [ValueError] of the mode check cannot arise, and the backup extension
    [os.extsep + 'bak'].  Permission bits are not modelled; [os.fstat]
    succeeds on the open backup.  After the rename, the opening of the
    backup, the creation of the new file and the flush in
    [writable.close()] may fail with [OSError]; they stand outside the
    [try] statement, whose handler covers the body alone. *)
Definition inplace {A} (filename : string) (body : nat → nat → M A) : M A :=
  let backupfilename := filename +:+ ".bak" in
  try_except (os_unlink backupfilename) is_OSError (λ _, mret tt);;
  os_rename filename backupfilename;;
  readable ← open_r backupfilename;
  writable ← open_w filename;
  try_finally
    (try_except (body readable writable) is_Exception
       (λ e,
          (* move backup back *)
          try_except (os_unlink filename) is_OSError (λ _, mret tt);;
          os_rename backupfilename filename;;
          raise e))
    ((* readable.close() *)
     close_w writable;;
     try_except (os_unlink backupfilename) is_OSError (λ _, mret tt)).

(** *** The block editor *)

Definition flush_block `{EditEnv} (outfh : fh) (keep : bool) (lines : list string) : M unit :=
  if keep then
    write outfh SEP;;
    write outfh NL;;
    for_each lines (λ k, write outfh k;; write outfh NL)
  else mret tt.

Fixpoint drop_loop `{EditEnv} (pat : string → bool) (outfh : fh) (input : list string)
    (lines : list string) (keep : bool) : M (list string * bool) :=
  fault_point;;
  match input with
  | [] => mret (lines, keep)
  | line :: input' =>
      let line := rstrip_nl line in
      if String.prefix SEP line then
        flush_block outfh keep lines;;
        drop_loop pat outfh input' [] true
      else
        let lines := lines ++ [line] in
        let keep := if pat line then false else keep in
        drop_loop pat outfh input' lines keep
  end.

Definition drop_blocks `{EditEnv} (fname : string) (pat : string → bool) : M unit :=
  inplace fname (λ infh outfh,
    input ← read_lines infh;
    '(lines, keep) ← drop_loop pat (File outfh) input [] true;
    if bool_decide (0 < length lines) then flush_block (File outfh) keep lines
    else mret tt).

Fixpoint show_loop `{EditEnv} (pat : string → bool) (input : list string)
    (lines : list string) (keep : bool) : M (list string * bool) :=
  fault_point;;
  match input with
  | [] => mret (lines, keep)
  | line :: input' =>
      let line := rstrip_nl line in
      if String.prefix SEP line then
        flush_block Stdout keep lines;;
        show_loop pat input' [] false
      else
        let lines := lines ++ [line] in
        let keep := if pat line then true else keep in
        show_loop pat input' lines keep
  end.

(** [fileinput.input(fname)] opens the file when the loop starts.  [fname]
    is the name of a file here: the name ['-'], for which [fileinput] reads
    the standard input and opens nothing, is outside the model. *)
Definition show_blocks `{EditEnv} (fname : string) (pat : string → bool) : M unit :=
  infh ← open_r fname;
  input ← read_lines infh;
  '(lines, keep) ← show_loop pat input [] false;
  if bool_decide (0 < length lines) then flush_block Stdout keep lines
  else mret tt.

(** *** [main] *)

(** The namespace [parse_args] returns. *)
Module Args.
Record t := mk {
  show : option string;
  delete : option string;
  file : option (list string);
}.
End Args.

(** Truth value of an optional string: [None] and [''] are false. *)
Definition truthy (o : option string) : bool :=
  match o with
  | Some s => negb (bool_decide (s = ""))
  | None => false
  end.

Definition print `{EditEnv} (s : string) : M unit := write Stdout s;; write Stdout NL.

Definition exit {A} (code : nat) : M A := raise (SystemExit code).

Definition compile `{EditEnv} (p : option string) : M (string → bool) :=
  match re_compile (default "" p) with
  | Some pat => mret pat
  | None => raise re_error
  end.

(** [for f in files]: iterating [None] raises [TypeError]. *)
Definition for_files (files : option (list string)) (body : string → M unit) : M unit :=
  match files with
  | None => raise TypeError
  | Some fs => for_each fs body
  end.

Definition main `{EditEnv} (args : Args.t) : M unit :=
  (if truthy (Args.show args) && truthy (Args.delete args) then
     print "can only pass one of --show or --delete";; exit 1
   else mret tt);;
  (if negb (truthy (Args.show args)) && negb (truthy (Args.delete args)) then
     print "must pass one of --show or --delete";; exit 1
   else mret tt);;
  (if truthy (Args.show args) then
     pat ← compile (Args.show args);
     for_files (Args.file args) (λ f, show_blocks f pat)
   else mret tt);;
  (if truthy (Args.delete args) then
     pat ← compile (Args.delete args);
     for_files (Args.file args) (λ f, drop_blocks f pat)
   else mret tt).

End Edit.

(** An environment for the examples: a pattern is a literal, searched
    without regard to ASCII case, and an opening parenthesis in it is the
    error of an unbalanced group. *)
Definition demo_env (bufsize : nat) : EditEnv := {|
  re_compile p :=
    if str_in "(" p then None
    else Some (λ line, str_in (ascii_lower p) (ascii_lower line));
  bufsize := bufsize
|}.

Definition demo_world (path text : string) (fault : option (nat * exn)) : Edit.world :=
  Edit.World {[path := 0]} {[0 := text]} ∅ "" fault [].

Definition two_blocks : string :=
  "---" +:+ NL +:+ "A" +:+ NL +:+ "urlA" +:+ NL +:+ "---" +:+ NL +:+ "B" +:+ NL +:+ "urlB" +:+ NL.

Import Edit.

(** ** Definitions for the statements about [edit.py] *)

(** ** The block format, as the specification has it *)

(** The lines of a text, each without its trailing newline. *)
Definition chomped (text : string) : list string := rstrip_nl <$> readlines text.

(** The runs of lines between boundary lines; the boundary lines are
    dropped.  There is always a last run, possibly empty. *)
Fixpoint groups (is_boundary : string → bool) (ls : list string) : list (list string) :=
  match ls with
  | [] => [[]]
  | l :: ls' =>
      if is_boundary l then [] :: groups is_boundary ls'
      else match groups is_boundary ls' with
           | g :: gs => (l :: g) :: gs
           | [] => [[l]]
           end
  end.

(** The blocks: the runs that have a line. *)
Definition segment (is_boundary : string → bool) (ls : list string) : list (list string) :=
  filter (λ g, g ≠ []) (groups is_boundary ls).

(** The runs that a boundary line or a line at the end of the input closes:
    all of them, but for an empty run at the end of the input. *)
Fixpoint drop_trailing_empty (gs : list (list string)) : list (list string) :=
  match gs with
  | [] => []
  | g :: gs' =>
      match gs' with
      | [] => if bool_decide (g = []) then [] else [g]
      | _ :: _ => g :: drop_trailing_empty gs'
      end
  end.

Definition flushed (is_boundary : string → bool) (ls : list string) : list (list string) :=
  drop_trailing_empty (groups is_boundary ls).

Definition join_lines (ls : list string) : string :=
  foldr (λ k acc, k +:+ NL +:+ acc) "" ls.

(** A block on the wire: the separator line, then the lines. *)
Definition block_text (b : list string) : string := Edit.SEP +:+ NL +:+ join_lines b.

Definition serialize (bs : list (list string)) : string :=
  foldr (λ b acc, block_text b +:+ acc) "" bs.

(** A block matches when one of its lines does. *)
Definition has_match (pat : string → bool) (b : list string) : Prop :=
  Exists (λ l, pat l = true) b.

#[global] Instance has_match_dec pat b : Decision (has_match pat b).
Proof. unfold has_match. apply _. Defined.

(** The blocks of a block file. *)
Definition blocks (text : string) : list (list string) :=
  segment (String.prefix Edit.SEP) (chomped text).

(** ** What the two loops write, as functions of the input *)

Definition block_out (keep : bool) (lines : list string) : string :=
  if keep then block_text lines else "".

Fixpoint show_scan (pat : string → bool) (input lines : list string) (keep : bool)
    : string * (list string * bool) :=
  match input with
  | [] => ("", (lines, keep))
  | line :: input' =>
      let line := rstrip_nl line in
      if String.prefix Edit.SEP line then
        let r := show_scan pat input' [] false in
        (block_out keep lines +:+ r.1, r.2)
      else show_scan pat input' (lines ++ [line]) (if pat line then true else keep)
  end.

Fixpoint drop_scan (pat : string → bool) (input lines : list string) (keep : bool)
    : string * (list string * bool) :=
  match input with
  | [] => ("", (lines, keep))
  | line :: input' =>
      let line := rstrip_nl line in
      if String.prefix Edit.SEP line then
        let r := drop_scan pat input' [] true in
        (block_out keep lines +:+ r.1, r.2)
      else drop_scan pat input' (lines ++ [line]) (if pat line then false else keep)
  end.

Definition last_flush (r : string * (list string * bool)) : string :=
  r.1 +:+ (if bool_decide (0 < length r.2.1) then block_out r.2.2 r.2.1 else "").

Definition show_text (pat : string → bool) (text : string) : string :=
  last_flush (show_scan pat (readlines text) [] false).

Definition drop_text (pat : string → bool) (text : string) : string :=
  last_flush (drop_scan pat (readlines text) [] true).

(** *** [show_blocks] without faults *)

Definition add_stdout (s : string) (w : world) : world :=
  World (w_dir w) (w_ino w) (w_pending w) (w_stdout w +:+ s) (w_fault w) (w_trace w).

(** *** Writing to a file without faults *)

(** The text a writer has been given: what is on disk and what is buffered. *)
Definition stream (i : nat) (w : world) : option string :=
  match w_ino w !! i, w_pending w !! i with
  | Some d, Some p => Some (d +:+ p)
  | _, _ => None
  end.

(** [appended i s w w']: the only change from [w] to [w'], the trace apart,
    is the text [s] at the end of the stream of the writer [i]. *)
Definition appended (i : nat) (s : string) (w w' : world) : Prop :=
  w_dir w' = w_dir w ∧ w_stdout w' = w_stdout w ∧ w_fault w' = w_fault w
  ∧ (∀ j, j ≠ i → w_ino w' !! j = w_ino w !! j)
  ∧ ∃ t, stream i w = Some t ∧ stream i w' = Some (t +:+ s).

Definition writes {A} (i : nat) (m : M A) (a : A) (s : string) : Prop :=
  ∀ w, w_fault w = None → is_Some (stream i w) →
       ∃ w', m w = (Ret a, w') ∧ appended i s w w'.

(** *** The system calls *)

(** The state without the trace. *)
Definition core (w : world) :=
  (w_dir w, w_ino w, w_pending w, w_stdout w, w_fault w).

(** The exception the oracle holds. *)
Definition fault_exn (w : world) : option exn := snd <$> w_fault w.

(** [ticked w w']: the oracle apart, [w'] is [w]. *)
Definition ticked (w w' : world) : Prop :=
  w_dir w' = w_dir w ∧ w_ino w' = w_ino w ∧ w_pending w' = w_pending w
  ∧ w_stdout w' = w_stdout w ∧ w_trace w' = w_trace w.

Definition try_unlink (path : string) : M unit :=
  try_except (os_unlink path) is_OSError (λ _, mret tt).

(** *** [inplace] in two parts *)

(** Up to the [try] statement: the backup is made and the two files are
    opened. *)
Definition enter (filename : string) : M (nat * nat) :=
  let backupfilename := filename +:+ ".bak" in
  try_except (os_unlink backupfilename) is_OSError (λ _, mret tt);;
  os_rename filename backupfilename;;
  readable ← open_r backupfilename;
  writable ← open_w filename;
  mret (readable, writable).

Definition rollback {A} (filename : string) (e : exn) : M A :=
  try_except (os_unlink filename) is_OSError (λ _, mret tt);;
  os_rename (filename +:+ ".bak") filename;;
  raise e.

Definition cleanup (filename : string) (writable : nat) : M unit :=
  close_w writable;;
  try_except (os_unlink (filename +:+ ".bak")) is_OSError (λ _, mret tt).

(** The [try] statement. *)
Definition guarded {A} (filename : string) (body : nat → nat → M A)
    (readable writable : nat) : M A :=
  try_finally
    (try_except (body readable writable) is_Exception (rollback filename))
    (cleanup filename writable).

(** *** What the body of [drop_blocks] does, with or without a fault *)

Definition touched (i : nat) (w w' : world) : Prop :=
  w_dir w' = w_dir w ∧ w_stdout w' = w_stdout w
  ∧ (∀ j, j ≠ i → w_ino w' !! j = w_ino w !! j).

(** [s] is an initial part of [t]. *)
Definition initial (s t : string) : Prop := ∃ rest, t = s +:+ rest.

(** The view of the file system with directory [dir] and inodes [ino] in
    which the file of [i] holds [d]. *)
Definition snap (dir : gmap string nat) (ino : gmap nat string) (i : nat) (d : string)
    : gmap string string :=
  omap (λ j, <[i := d]> ino !! j) dir.

(** [confined_at i m a s w t]: run from [w], where the writer [i] is open
    and has been given [t], [m] changes the file of [i] at most; when it
    returns, it returns [a] and has given the writer [s]; when it raises, it
    raises what the oracle held and has given the writer an initial part of
    [s]; and in every view of the file system that it leaves in the trace
    the file of [i] holds an initial part of [t] followed by [s], and
    nothing else differs from [w]. *)
Definition confined_at {A} (i : nat) (m : M A) (a : A) (s : string)
    (w : world) (t : string) : Prop :=
  touched i w (m w).2
  ∧ (∃ s', stream i (m w).2 = Some (t +:+ s')
           ∧ match (m w).1 with
             | Ret a' => a' = a ∧ s' = s ∧ fault_exn (m w).2 = fault_exn w
             | Raise e => initial s' s ∧ fault_exn w = Some e ∧ w_fault (m w).2 = None
             end)
  ∧ ∃ tr, w_trace (m w).2 = w_trace w ++ tr
          ∧ Forall (λ v, ∃ d, initial d (t +:+ s) ∧ v = snap (w_dir w) (w_ino w) i d) tr.

Definition confined {A} (i : nat) (m : M A) (a : A) (s : string) : Prop :=
  ∀ w t, stream i w = Some t → confined_at i m a s w t.

(** The body of the [with] statement in [drop_blocks]. *)
Definition drop_body `{EditEnv} (pat : string → bool) (infh outfh : nat) : M unit :=
  input ← read_lines infh;
  '(lines, keep) ← drop_loop pat (File outfh) input [] true;
  if bool_decide (0 < length lines) then flush_block (File outfh) keep lines
  else mret tt.

(** ** Concrete runs *)

Definition one_block : string := "---" +:+ NL +:+ "A" +:+ NL.

(** A pattern that matches no line of the examples. *)
Definition no_match (line : string) : bool := str_in "zzz" line.

(** A file of two blocks, and an [OSError] to come at the sixth fault
    point: the reading of the second line. *)
Definition failing_world : world := demo_world "f" two_blocks (Some (5, OSError)).

Definition failing_run : result unit * world :=
  @drop_blocks (demo_env 100) "f" no_match failing_world.

Definition dashed_text : string :=
  "A" +:+ NL +:+ "--- x" +:+ NL +:+ "B" +:+ NL.

(** The blocks as the specification cuts them: at the lines equal to the
    separator token. *)
Definition spec_blocks (text : string) : list (list string) :=
  segment (λ l, bool_decide (l = SEP)) (chomped text).

(** ** Definitions for the further properties *)

(** ** More about [harvest.py] *)

(** A start tag that opens a capture: an anchor of the class of alert titles
    whose link has a [url] parameter. *)
Definition title_anchor `{Platform} (ev : event) : bool :=
  match ev with
  | StartTag tag attrs =>
      bool_decide (tag = "a")
      && bool_decide (ScholarScraper.attr_get "class" attrs = Some (Some "gse_alrt_title"))
      && bool_decide (is_Some (default (Some "") (ScholarScraper.attr_get "href" attrs)
                               ≫= query_url))
  | _ => false
  end.

(** *** The printed records as a block file *)

Definition cr : ascii := "013"%char.

(** What a reader of a text file opened with [newline=None] gets, as
    [edit.py] opens its files: a carriage return, with the newline that
    follows it if there is one, has become a newline. *)
Fixpoint universal_newlines (s : string) : string :=
  match s with
  | EmptyString => EmptyString
  | String c s' =>
      if bool_decide (c = cr) then
        String nl (match s' with
                   | EmptyString => EmptyString
                   | String c' s'' =>
                       if bool_decide (c' = nl) then universal_newlines s''
                       else universal_newlines s'
                   end)
      else String c (universal_newlines s')
  end.

Fixpoint cr_free (s : string) : bool :=
  match s with
  | EmptyString => true
  | String c s' => negb (bool_decide (c = cr)) && cr_free s'
  end.

(** No character of [s] ends a line for such a reader. *)
Definition line_free (s : string) : bool := newline_free s && cr_free s.

(** ** More about [edit.py] *)

(** [same_files w w']: the file system of [w'] is that of [w], trace and
    open writers included. *)
Definition same_files (w w' : world) : Prop :=
  w_dir w' = w_dir w ∧ w_ino w' = w_ino w ∧ w_pending w' = w_pending w
  ∧ w_trace w' = w_trace w.

Definition readonly {A} (m : M A) : Prop := ∀ w, same_files w (m w).2.

(** What [--show] prints for a list of files. *)
Definition shown_files (pat : string → bool) (w : world) (fs : list string) : string :=
  foldr (λ f acc, show_text pat (default "" (view w !! f)) +:+ acc) "" fs.

(** *** Instances *)

Definition stale_world : world :=
  World {["f" := 0; "f.bak" := 1; "g" := 2]}
        {[0 := two_blocks; 1 := "old backup"; 2 := "other"]} ∅ "" None [].

(** * Proofs: [harvest.py] *)

(** ** Facts about strings *)

Lemma str_app_cons (c : ascii) (a b : string) : String c a +:+ b = String c (a +:+ b).
Proof. reflexivity. Qed.

Lemma str_app_nil_l (s : string) : "" +:+ s = s.
Proof. reflexivity. Qed.

Lemma str_app_nil_r (s : string) : s +:+ "" = s.
Proof. induction s as [|c s IH]; [done|]. by rewrite str_app_cons, IH. Qed.

Lemma str_app_assoc (a b c : string) : a +:+ b +:+ c = (a +:+ b) +:+ c.
Proof. induction a as [|x a IH]; [done|]. by rewrite !str_app_cons, IH. Qed.

Lemma list_ascii_app (a b : string) :
  list_ascii_of_string (a +:+ b) = list_ascii_of_string a ++ list_ascii_of_string b.
Proof. induction a as [|x a IH]; [done|]. rewrite str_app_cons. cbn. by rewrite IH. Qed.

Lemma list_ascii_inj (a b : string) :
  list_ascii_of_string a = list_ascii_of_string b → a = b.
Proof.
  intros E. rewrite <- (string_of_list_ascii_of_string a),
    <- (string_of_list_ascii_of_string b). by rewrite E.
Qed.

Lemma str_app_inv_tail (a b t : string) : a +:+ t = b +:+ t → a = b.
Proof.
  intros E. apply list_ascii_inj. apply (f_equal list_ascii_of_string) in E.
  rewrite !list_ascii_app in E. by apply (inj (λ l, l ++ _)) in E.
Qed.

Lemma rx_match_sound (lit s g : string) :
  rx_match lit s = Some g →
  newline_free g = true ∧ (s = g +:+ lit ∨ s = g +:+ lit +:+ NL).
Proof.
  revert g. induction s as [|c s IH]; intros g; cbn.
  - unfold at_end. repeat case_bool_decide; cbn; intros; simplify_eq; eauto.
  - case_bool_decide as Hc.
    + unfold at_end. repeat case_bool_decide; cbn; intros; simplify_eq; eauto.
    + destruct (rx_match lit s) as [g'|] eqn:E.
      * intros [= <-]. destruct (IH g' eq_refl) as [Hg Hs]. cbn.
        rewrite bool_decide_false by done. split; [done|].
        rewrite !str_app_cons. destruct Hs as [-> | ->]; eauto.
      * unfold at_end. repeat case_bool_decide; cbn; intros; simplify_eq; eauto.
Qed.

Lemma last_char_app (a b : string) :
  b ≠ "" → last_char (a +:+ b) = last_char b.
Proof.
  unfold last_char. rewrite list_ascii_app. intros Hb.
  destruct b as [|c b]; [done|]. cbn [list_ascii_of_string].
  generalize (list_ascii_of_string b). intros l.
  rewrite last_app. by destruct (last (c :: l)) eqn:E; [|apply last_None in E].
Qed.

Lemma newline_free_last (s : string) :
  newline_free s = true → last_char s ≠ Some nl.
Proof.
  unfold last_char. induction s as [|c s IH]; [done|]. cbn [newline_free list_ascii_of_string].
  intros [Hc Hs]%andb_true_iff. apply negb_true_iff, bool_decide_eq_false in Hc.
  destruct s as [|c' s]; [cbn; congruence|]. cbn [list_ascii_of_string] in *.
  rewrite last_cons_cons. auto.
Qed.

Lemma str_length_app (a b : string) :
  String.length (a +:+ b) = String.length a + String.length b.
Proof. induction a as [|x a IH]; [done|]. rewrite str_app_cons. cbn. by rewrite IH. Qed.

Lemma shape_unique (lit g1 g2 t1 t2 : string) :
  newline_free lit = true → lit ≠ "" →
  (t1 = "" ∨ t1 = NL) → (t2 = "" ∨ t2 = NL) →
  g1 +:+ lit +:+ t1 = g2 +:+ lit +:+ t2 → g1 = g2 ∧ t1 = t2.
Proof.
  intros Hlit Hne H1 H2 E.
  assert (t1 = t2) as ->.
  { apply (f_equal last_char) in E.
    destruct H1 as [-> | ->], H2 as [-> | ->]; try done.
    - rewrite str_app_nil_r, (str_app_assoc g2), !last_char_app in E by done.
      by apply newline_free_last in Hlit.
    - rewrite str_app_nil_r, (str_app_assoc g1), !last_char_app in E by done.
      by apply newline_free_last in Hlit. }
  split; [|done]. rewrite !str_app_assoc in E.
  by apply str_app_inv_tail, str_app_inv_tail in E.
Qed.

Lemma rx_match_complete (lit s g : string) :
  newline_free lit = true → lit ≠ "" → newline_free g = true →
  (s = g +:+ lit ∨ s = g +:+ lit +:+ NL) → rx_match lit s = Some g.
Proof.
  intros Hlit Hne. revert s. induction g as [|c g IH]; intros s Hg Hs.
  - assert (at_end lit s = true) as Hend.
    { unfold at_end. destruct Hs as [-> | ->]; rewrite ?str_app_nil_l; repeat case_bool_decide; done. }
    destruct s as [|c s]; cbn; rewrite Hend; [done|].
    case_bool_decide; [done|].
    destruct (rx_match lit s) as [g'|] eqn:E; [|done].
    apply rx_match_sound in E as [Hg' E]. exfalso.
    assert (∃ t1 t2, (t1 = "" ∨ t1 = NL) ∧ (t2 = "" ∨ t2 = NL)
       ∧ "" +:+ lit +:+ t1 = String c g' +:+ lit +:+ t2) as (t1 & t2 & H1 & H2 & E').
    { destruct Hs as [Hs|Hs], E as [-> | ->].
      - exists "", "". rewrite !str_app_nil_r, str_app_cons. eauto.
      - exists "", NL. rewrite !str_app_nil_r, str_app_cons. eauto.
      - exists NL, "". rewrite !str_app_nil_r, str_app_cons. eauto.
      - exists NL, NL. rewrite str_app_cons. eauto. }
    by apply shape_unique in E' as [? _].
  - cbn in Hg. apply andb_true_iff in Hg as [Hc Hg].
    apply negb_true_iff in Hc.
    assert (s = String c (g +:+ lit) ∨ s = String c (g +:+ lit +:+ NL)) as Hs' by done.
    destruct s as [|c' s]; [by destruct Hs'|].
    assert (c' = c ∧ (s = g +:+ lit ∨ s = g +:+ lit +:+ NL)) as [-> Hs''].
    { destruct Hs' as [[= -> ->]|[= -> ->]]; eauto. }
    cbn. rewrite Hc. by rewrite (IH s Hg Hs'').
Qed.

Lemma author_citing_exclusive (s g1 g2 : string) :
  author_rx s = Some g1 → citing_rx s = Some g2 → False.
Proof.
  intros [_ H1]%rx_match_sound [_ H2]%rx_match_sound.
  destruct H1 as [-> | ->], H2 as [E|E];
    apply (f_equal rev_tail) in E; unfold rev_tail in E;
    rewrite ?str_app_nil_r in E; rewrite !list_ascii_app, !reverse_app in E;
    vm_compute in E; discriminate E.
Qed.

Lemma author_related_exclusive (s g1 g2 : string) :
  author_rx s = Some g1 → related_rx s = Some g2 → False.
Proof.
  intros [_ H1]%rx_match_sound [_ H2]%rx_match_sound.
  destruct H1 as [-> | ->], H2 as [E|E];
    apply (f_equal rev_tail) in E; unfold rev_tail in E;
    rewrite ?str_app_nil_r in E; rewrite !list_ascii_app, !reverse_app in E;
    vm_compute in E; discriminate E.
Qed.

Lemma citing_related_exclusive (s g1 g2 : string) :
  citing_rx s = Some g1 → related_rx s = Some g2 → False.
Proof.
  intros [_ H1]%rx_match_sound [_ H2]%rx_match_sound.
  destruct H1 as [-> | ->], H2 as [E|E];
    apply (f_equal rev_tail) in E; unfold rev_tail in E;
    rewrite ?str_app_nil_r in E; rewrite !list_ascii_app, !reverse_app in E;
    vm_compute in E; discriminate E.
Qed.

Lemma author_rx_complete (g s : string) :
  newline_free g = true →
  (s = g +:+ " - new articles" ∨ s = g +:+ " - new articles" +:+ NL) →
  author_rx s = Some g.
Proof. intros. by apply rx_match_complete. Qed.

Lemma citing_rx_complete (g s : string) :
  newline_free g = true →
  (s = g +:+ " - new citations" ∨ s = g +:+ " - new citations" +:+ NL) →
  citing_rx s = Some g.
Proof. intros. by apply rx_match_complete. Qed.

Lemma related_rx_complete (g s : string) :
  newline_free g = true →
  (s = g +:+ " - new related research" ∨ s = g +:+ " - new related research" +:+ NL) →
  related_rx s = Some g.
Proof. intros. by apply rx_match_complete. Qed.

(** What one call of [note_subject] does, by the pattern that matches. *)
Lemma note_subject_cases (subject : string) (self : Paper.t) :
  (∃ g, author_rx subject = Some g ∧ citing_rx subject = None ∧ related_rx subject = None
        ∧ Paper.note_subject subject self = Paper.add_author g self)
  ∨ (∃ g, author_rx subject = None ∧ citing_rx subject = Some g ∧ related_rx subject = None
        ∧ Paper.note_subject subject self = Paper.add_citing g self)
  ∨ (∃ g, author_rx subject = None ∧ citing_rx subject = None ∧ related_rx subject = Some g
        ∧ Paper.note_subject subject self = Paper.add_related g self)
  ∨ (author_rx subject = None ∧ citing_rx subject = None ∧ related_rx subject = None
        ∧ Paper.note_subject subject self = self).
Proof.
  unfold Paper.note_subject.
  destruct (author_rx subject) as [ga|] eqn:Ea,
           (citing_rx subject) as [gc|] eqn:Ec,
           (related_rx subject) as [gr|] eqn:Er;
    try (exfalso; by eauto using author_citing_exclusive,
           author_related_exclusive, citing_related_exclusive).
  - left. eauto.
  - right; left. eauto.
  - right; right; left. eauto.
  - right; right; right. eauto.
Qed.

(** C9 (as amended). A subject made of a name without newlines, then
    [' - new articles'], then at most one final newline, adds the name to the
    author set; the same holds for [' - new citations'] and the citing set
    and for [' - new related research'] and the related set; a subject of
    none of these three shapes changes nothing; and every call leaves the
    paper as it was or adds one name to one of the three sets. *)
Theorem C9_note_subject_one_category (subject : string) (self : Paper.t) :
  (∀ g, watch_subject g " - new articles" subject →
        Paper.note_subject subject self = Paper.add_author g self)
  ∧ (∀ g, watch_subject g " - new citations" subject →
        Paper.note_subject subject self = Paper.add_citing g self)
  ∧ (∀ g, watch_subject g " - new related research" subject →
        Paper.note_subject subject self = Paper.add_related g self)
  ∧ ((∀ g, ¬ watch_subject g " - new articles" subject) →
     (∀ g, ¬ watch_subject g " - new citations" subject) →
     (∀ g, ¬ watch_subject g " - new related research" subject) →
        Paper.note_subject subject self = self)
  ∧ (Paper.note_subject subject self = self
     ∨ (∃ g, Paper.note_subject subject self = Paper.add_author g self)
     ∨ (∃ g, Paper.note_subject subject self = Paper.add_citing g self)
     ∨ (∃ g, Paper.note_subject subject self = Paper.add_related g self)).
Proof.
  split_and!.
  - intros g [Hg Hs]. pose proof (author_rx_complete g subject Hg Hs) as E.
    destruct (note_subject_cases subject self) as [(?&?&?&?&?)|[(?&?&?&?&?)|[(?&?&?&?&?)|(?&?&?&?)]]];
      congruence.
  - intros g [Hg Hs]. pose proof (citing_rx_complete g subject Hg Hs) as E.
    destruct (note_subject_cases subject self) as [(?&?&?&?&?)|[(?&?&?&?&?)|[(?&?&?&?&?)|(?&?&?&?)]]];
      congruence.
  - intros g [Hg Hs]. pose proof (related_rx_complete g subject Hg Hs) as E.
    destruct (note_subject_cases subject self) as [(?&?&?&?&?)|[(?&?&?&?&?)|[(?&?&?&?&?)|(?&?&?&?)]]];
      congruence.
  - intros Ha Hc Hr.
    destruct (note_subject_cases subject self) as [(g&E&?&?&?)|[(g&?&E&?&?)|[(g&?&?&E&?)|(?&?&?&?)]]];
      [exfalso..|done]; apply rx_match_sound in E.
    + by apply (Ha g).
    + by apply (Hc g).
    + by apply (Hr g).
  - destruct (note_subject_cases subject self) as [(?&?&?&?&?)|[(?&?&?&?&?)|[(?&?&?&?&?)|(?&?&?&?)]]];
      eauto 6.
Qed.

Lemma C9_note_subject_one_category_witness :
  watch_subject "Ada" " - new citations" "Ada - new citations"
  ∧ Paper.note_subject "Ada - new citations" (Paper.init "u" "d")
    = Paper.add_citing "Ada" (Paper.init "u" "d").
Proof.
  assert (watch_subject "Ada" " - new citations" "Ada - new citations") as W.
  { split; [reflexivity|left; reflexivity]. }
  split; [exact W|].
  exact (proj1 (proj2 (C9_note_subject_one_category
                         "Ada - new citations" (Paper.init "u" "d"))) "Ada" W).
Defined.

(** A subject that ends with [' - new articles'] and has a newline in front
    of it: the pattern does not match and no name is added. *)
Lemma C9_counterexample_newline_in_name :
  let subject := "a" +:+ NL +:+ "b - new articles" in
  endswith subject " - new articles" = true
  ∧ Paper.note_subject subject (Paper.init "u" "d") = Paper.init "u" "d".
Proof. split; vm_compute; reflexivity. Qed.

(** ** Facts about [PyDict] *)

Section dict_facts.

Context {V : Type}.
Implicit Types (d : list (string * V)) (k : string) (v : V).

Lemma get_None_keys k d : PyDict.get k d = None ↔ k ∉ PyDict.keys d.
Proof.
  unfold PyDict.keys. induction d as [|[k' v'] d IH]; cbn.
  - split; [intros _; apply not_elem_of_nil|done].
  - rewrite not_elem_of_cons. case_bool_decide as E.
    + split; [done|]. intros [N _]. by destruct N.
    + rewrite IH. split; [by split|by intros [_ ?]].
Qed.

Lemma get_Some_keys k d v : PyDict.get k d = Some v → k ∈ PyDict.keys d.
Proof.
  intros E. destruct (decide (k ∈ PyDict.keys d)) as [|N]; [done|].
  apply get_None_keys in N. congruence.
Qed.

Lemma contains_get k d : PyDict.contains k d = true ↔ is_Some (PyDict.get k d).
Proof.
  unfold PyDict.contains. destruct (PyDict.get k d) as [v|].
  - split; [by exists v|done].
  - split; [done|]. by intros [v ?].
Qed.

Lemma get_setitem_eq k v d : PyDict.get k (PyDict.setitem k v d) = Some v.
Proof.
  induction d as [|[k' v'] d IH]; cbn.
  - by rewrite bool_decide_true.
  - case_bool_decide as E; cbn.
    + by rewrite bool_decide_true.
    + by rewrite bool_decide_false.
Qed.

Lemma get_setitem_ne k k' v d :
  k ≠ k' → PyDict.get k' (PyDict.setitem k v d) = PyDict.get k' d.
Proof.
  intros N. induction d as [|[k'' v'] d IH]; cbn.
  - by rewrite bool_decide_false.
  - case_bool_decide as E; cbn.
    + subst. by rewrite !bool_decide_false.
    + by rewrite IH.
Qed.

Lemma get_alter_eq (f : V → V) k d :
  PyDict.get k (PyDict.alter f k d) = f <$> PyDict.get k d.
Proof.
  induction d as [|[k' v'] d IH]; cbn; [done|].
  case_bool_decide as E; cbn.
  - by rewrite bool_decide_true.
  - by rewrite bool_decide_false.
Qed.

Lemma get_alter_ne (f : V → V) k k' d :
  k ≠ k' → PyDict.get k' (PyDict.alter f k d) = PyDict.get k' d.
Proof.
  intros N. induction d as [|[k'' v'] d IH]; cbn; [done|].
  case_bool_decide as E; cbn.
  - subst. by rewrite !bool_decide_false.
  - by rewrite IH.
Qed.

Lemma keys_alter (f : V → V) k d : PyDict.keys (PyDict.alter f k d) = PyDict.keys d.
Proof.
  unfold PyDict.keys. induction d as [|[k' v'] d IH]; cbn; [done|].
  case_bool_decide; cbn; by rewrite ?IH.
Qed.

Lemma keys_setitem_new k v d :
  PyDict.get k d = None → PyDict.keys (PyDict.setitem k v d) = PyDict.keys d ++ [k].
Proof.
  unfold PyDict.keys. induction d as [|[k' v'] d IH]; cbn; [done|].
  case_bool_decide; [done|]. intros E. cbn. by rewrite IH.
Qed.

Lemma get_elem_of k v d :
  NoDup (PyDict.keys d) → (k, v) ∈ d ↔ PyDict.get k d = Some v.
Proof.
  unfold PyDict.keys. induction d as [|[k' v'] d IH]; cbn.
  - intros _. split; [by intros ?%elem_of_nil|done].
  - intros [Hk Hd]%NoDup_cons. rewrite elem_of_cons, IH by done.
    case_bool_decide as E.
    + subst. split; [|intros [= ->]; by left].
      intros [[= ->]|G]; [done|]. apply get_Some_keys in G. by destruct Hk.
    + split; [|by right]. intros [[= ? ?]|G]; [by destruct E|done].
Qed.

End dict_facts.

Section scraper_facts.

Context `{Platform}.

Lemma run_from_papers (self : ScholarScraper.t) (evs : list event) :
  ScholarScraper.papers (run_from self evs)
  = fold_left note (observed self evs) (ScholarScraper.papers self).
Proof.
  unfold run_from. revert self. induction evs as [|ev evs IH]; intros self; [done|].
  cbn [fold_left observed]. rewrite IH, fold_left_app. f_equal.
  destruct ev as [s|tag attrs|tag|data]; cbn.
  - done.
  - unfold ScholarScraper.handle_starttag.
    destruct (_ && _); [|by destruct (ScholarScraper.pending_url self)].
    destruct (_ ≫= _); by destruct (ScholarScraper.pending_url self).
  - unfold ScholarScraper.handle_endtag. by destruct (ScholarScraper.pending_url self).
  - destruct self as [d s [u|]]; done.
Qed.

Lemma note_subject_url s p : Paper.url (Paper.note_subject s p) = Paper.url p.
Proof.
  unfold Paper.note_subject.
  by destruct (author_rx s), (citing_rx s), (related_rx s).
Qed.

Lemma note_subject_desc s p : Paper.desc (Paper.note_subject s p) = Paper.desc p.
Proof.
  unfold Paper.note_subject.
  by destruct (author_rx s), (citing_rx s), (related_rx s).
Qed.

Lemma note_subject_names c s p :
  names_of c (Paper.note_subject s p)
  = names_of c p ∪ names_of c (Paper.note_subject s (Paper.init "" "")).
Proof.
  unfold Paper.note_subject.
  destruct c, (author_rx s), (citing_rx s), (related_rx s); cbn; set_solver.
Qed.

Lemma get_note u d o :
  PyDict.get u (note d o)
  = if bool_decide (o_url o = u)
    then Some (maybe_note (o_subject o)
                 (default (Paper.init u (o_text o)) (PyDict.get u d)))
    else PyDict.get u d.
Proof.
  unfold note, ScholarScraper.handle_data. cbn.
  destruct o as [s u' text]; cbn. case_bool_decide as E.
  - subst u'. unfold PyDict.contains.
    destruct (PyDict.get u d) as [p|] eqn:G; destruct s as [s|]; cbn;
      rewrite ?get_alter_eq, ?get_setitem_eq, ?G; done.
  - destruct (PyDict.contains u' d), s as [s|]; cbn;
      rewrite ?get_alter_ne, ?get_setitem_ne by done; done.
Qed.

Lemma keys_note d o :
  PyDict.keys (note d o)
  = if PyDict.contains (o_url o) d then PyDict.keys d else PyDict.keys d ++ [o_url o].
Proof.
  unfold note, ScholarScraper.handle_data.
  cbn [ScholarScraper.pending_url ScholarScraper.pending_subject ScholarScraper.papers].
  destruct (PyDict.contains (o_url o) d) eqn:C, (o_subject o);
    cbn [ScholarScraper.papers]; rewrite ?keys_alter; try done.
  - apply keys_setitem_new. unfold PyDict.contains in C. by destruct (PyDict.get _ d).
  - apply keys_setitem_new. unfold PyDict.contains in C. by destruct (PyDict.get _ d).
Qed.

(** One record per URL. *)
Lemma fold_note_NoDup obs d :
  NoDup (PyDict.keys d) → NoDup (PyDict.keys (fold_left note obs d)).
Proof.
  revert d. induction obs as [|o obs IH]; intros d Hd; [done|]. cbn. apply IH.
  rewrite keys_note. destruct (PyDict.contains (o_url o) d) eqn:C; [done|].
  apply NoDup_app. split_and!; [done| |apply NoDup_singleton].
  intros k Hk ->%list_elem_of_singleton.
  apply (not_true_iff_false _) in C. apply C, contains_get.
  destruct (PyDict.get (o_url o) d) eqn:G; [by eexists|].
  by apply get_None_keys in G.
Qed.

Lemma fold_note_keys obs d u :
  u ∈ PyDict.keys (fold_left note obs d) ↔ u ∈ PyDict.keys d ∨ u ∈ o_url <$> obs.
Proof.
  revert d. induction obs as [|o obs IH]; intros d; cbn.
  - rewrite elem_of_nil. tauto.
  - rewrite IH, keys_note, elem_of_cons.
    destruct (PyDict.contains (o_url o) d) eqn:C.
    + apply contains_get in C as [p G]. apply get_Some_keys in G.
      split; [tauto|]. intros [?|[->|?]]; tauto.
    + rewrite elem_of_app, list_elem_of_singleton. tauto.
Qed.

Lemma fold_note_url obs d :
  (∀ u p, PyDict.get u d = Some p → Paper.url p = u) →
  ∀ u p, PyDict.get u (fold_left note obs d) = Some p → Paper.url p = u.
Proof.
  revert d. induction obs as [|o obs IH]; intros d Hd; [done|]. cbn. apply IH.
  intros u p. rewrite get_note. case_bool_decide as E; [|by apply Hd].
  intros [= <-]. destruct (o_subject o); cbn; rewrite ?note_subject_url.
  - destruct (PyDict.get u d) eqn:G; cbn; eauto.
  - destruct (PyDict.get u d) eqn:G; cbn; eauto.
Qed.

(** The description is the first text, and stays. *)
Lemma fold_note_desc obs d u :
  Paper.desc <$> PyDict.get u (fold_left note obs d)
  = match PyDict.get u d with
    | Some p => Some (Paper.desc p)
    | None => first_text u obs
    end.
Proof.
  revert d. induction obs as [|o obs IH]; intros d; cbn.
  - by destruct (PyDict.get u d).
  - rewrite IH, get_note. case_bool_decide as E; [|done].
    destruct (o_subject o), (PyDict.get u d); cbn; by rewrite ?note_subject_desc.
Qed.

(** The name sets are the union of what the observations contribute. *)
Lemma fold_note_names c obs d u :
  names_of c <$> PyDict.get u (fold_left note obs d)
  = match PyDict.get u d with
    | Some p => Some (names_of c p ∪ names c u obs)
    | None => if bool_decide (u ∈ o_url <$> obs) then Some (names c u obs) else None
    end.
Proof.
  revert d. induction obs as [|o obs IH]; intros d; cbn.
  - destruct (PyDict.get u d); cbn; [|done]. f_equal. set_solver.
  - rewrite IH, get_note. destruct (decide (o_url o = u)) as [E|E].
    + rewrite !(bool_decide_true (o_url o = u)) by done.
      assert (∀ p, names_of c (maybe_note (o_subject o) p) = names_of c p ∪ contrib c o) as N.
      { intros p. unfold maybe_note, contrib. destruct (o_subject o).
        - apply note_subject_names.
        - set_solver. }
      rewrite N. destruct (PyDict.get u d); cbn.
      * f_equal. set_solver.
      * rewrite bool_decide_true by (rewrite elem_of_cons; by left).
        f_equal. destruct c; cbn; set_solver.
    + rewrite !(bool_decide_false (o_url o = u)) by done.
      destruct (PyDict.get u d); cbn.
      * f_equal. set_solver.
      * rewrite (bool_decide_ext (u ∈ o_url o :: (o_url <$> obs)) (u ∈ o_url <$> obs)).
        { case_bool_decide; [|done]. f_equal. set_solver. }
        rewrite elem_of_cons. split; [|by right]. intros [->|?]; [by destruct E|done].
Qed.

Lemma names_Permutation c u obs1 obs2 :
  obs1 ≡ₚ obs2 → names c u obs1 = names c u obs2.
Proof. induction 1; cbn; [done|congruence|set_solver|congruence]. Qed.

End scraper_facts.

Section harvest_claims.

Context `{Platform}.

Lemma run_papers (evs : list event) :
  ScholarScraper.papers (run evs)
  = fold_left note (observed ScholarScraper.init evs) [].
Proof. apply run_from_papers. Qed.

Lemma run_app (evs evs' : list event) : run (evs ++ evs') = run_from (run evs) evs'.
Proof. unfold run, run_from. apply fold_left_app. Qed.

Lemma first_text_filter (u : string) (obs : list observation) :
  first_text u obs = o_text <$> head (filter (λ o, o_url o = u) obs).
Proof.
  induction obs as [|o obs IH]; [done|]. cbn [first_text]. rewrite filter_cons.
  destruct (decide (o_url o = u)) as [E|E].
  - by rewrite bool_decide_true.
  - by rewrite bool_decide_false.
Qed.

Lemma run_NoDup (evs : list event) : NoDup (PyDict.keys (ScholarScraper.papers (run evs))).
Proof. rewrite run_papers. apply fold_note_NoDup, NoDup_nil_2. Qed.

Lemma run_url (evs : list event) (u : string) (p : Paper.t) :
  (u, p) ∈ ScholarScraper.papers (run evs) → Paper.url p = u.
Proof.
  intros Hin. apply get_elem_of in Hin; [|apply run_NoDup].
  rewrite run_papers in Hin. revert Hin. by apply fold_note_url.
Qed.

(** C2. In every run the dictionary of papers has exactly one record for
    each URL for which a text was observed, the record carries that URL, its
    description is the first text observed for the URL (a function of the
    observations of that URL alone), and no later event changes it. *)
Theorem C2_one_record_first_description (evs : list event) :
  let st := run evs in
  let obs := observed ScholarScraper.init evs in
  NoDup (PyDict.keys (ScholarScraper.papers st))
  ∧ (∀ u, u ∈ PyDict.keys (ScholarScraper.papers st) ↔ u ∈ o_url <$> obs)
  ∧ (∀ u p, (u, p) ∈ ScholarScraper.papers st →
        Paper.url p = u
        ∧ Some (Paper.desc p) = o_text <$> head (filter (λ o, o_url o = u) obs))
  ∧ (∀ u, Paper.desc <$> PyDict.get u (ScholarScraper.papers st) = first_text u obs)
  ∧ (∀ evs' u p, PyDict.get u (ScholarScraper.papers st) = Some p →
        ∃ p', PyDict.get u (ScholarScraper.papers (run (evs ++ evs'))) = Some p'
              ∧ Paper.desc p' = Paper.desc p).
Proof.
  cbn zeta. split_and!.
  - apply run_NoDup.
  - intros u. rewrite run_papers, fold_note_keys.
    split; [intros [[]%elem_of_nil|?]; done|by right].
  - intros u p Hin. split; [by eapply run_url|].
    rewrite <- first_text_filter.
    apply get_elem_of in Hin; [|apply run_NoDup].
    rewrite run_papers in Hin.
    pose proof (fold_note_desc (observed ScholarScraper.init evs) [] u) as D.
    rewrite Hin in D. done.
  - intros u. rewrite run_papers. apply fold_note_desc.
  - intros evs' u p G. rewrite run_app, run_from_papers.
    pose proof (fold_note_desc (observed (run evs) evs')
                  (ScholarScraper.papers (run evs)) u) as D.
    rewrite G in D.
    destruct (PyDict.get u (fold_left note _ _)) as [p'|]; [|done].
    exists p'. split; [done|]. by injection D.
Qed.

(** C8. Two runs whose observations are the same multiset of (subject, URL,
    text) triples end with the same URLs and, for every URL, the same three
    name sets; the description of a record is the first text its own run
    observed for the URL. *)
Theorem C8_order_independent (evs1 evs2 : list event) :
  observed ScholarScraper.init evs1 ≡ₚ observed ScholarScraper.init evs2 →
  PyDict.keys (ScholarScraper.papers (run evs1))
    ≡ₚ PyDict.keys (ScholarScraper.papers (run evs2))
  ∧ ∀ u,
      (∀ c, names_of c <$> PyDict.get u (ScholarScraper.papers (run evs1))
            = names_of c <$> PyDict.get u (ScholarScraper.papers (run evs2)))
      ∧ Paper.url <$> PyDict.get u (ScholarScraper.papers (run evs1))
        = Paper.url <$> PyDict.get u (ScholarScraper.papers (run evs2))
      ∧ Paper.desc <$> PyDict.get u (ScholarScraper.papers (run evs1))
        = first_text u (observed ScholarScraper.init evs1)
      ∧ Paper.desc <$> PyDict.get u (ScholarScraper.papers (run evs2))
        = first_text u (observed ScholarScraper.init evs2).
Proof.
  intros P.
  assert (∀ u, u ∈ PyDict.keys (ScholarScraper.papers (run evs1))
             ↔ u ∈ PyDict.keys (ScholarScraper.papers (run evs2))) as K.
  { intros u. rewrite !run_papers, !fold_note_keys. by rewrite P. }
  split; [apply NoDup_Permutation; auto using run_NoDup|].
  intros u. split_and!.
  - intros c. rewrite !run_papers, !fold_note_names. cbn.
    rewrite (names_Permutation c u _ _ P).
    rewrite (bool_decide_ext (u ∈ o_url <$> observed ScholarScraper.init evs1)
               (u ∈ o_url <$> observed ScholarScraper.init evs2)); [done|].
    by rewrite P.
  - destruct (PyDict.get u (ScholarScraper.papers (run evs1))) as [p1|] eqn:G1,
             (PyDict.get u (ScholarScraper.papers (run evs2))) as [p2|] eqn:G2; cbn.
    + apply get_elem_of in G1, G2; auto using run_NoDup.
      apply run_url in G1, G2. congruence.
    + apply get_Some_keys, K in G1. by apply get_None_keys in G2.
    + apply get_Some_keys, K in G2. by apply get_None_keys in G1.
    + done.
  - rewrite run_papers. apply fold_note_desc.
  - rewrite run_papers. apply fold_note_desc.
Qed.

End harvest_claims.

Section dump_claims.

Context `{Platform}.

Lemma existsb_Exists {A} (f : A → bool) (l : list A) :
  existsb f l = true ↔ Exists (λ x, f x = true) l.
Proof.
  induction l as [|x l IH]; cbn.
  - split; [done|by intros ?%Exists_nil].
  - rewrite Exists_cons, orb_true_iff, IH. done.
Qed.

Lemma dump_body_filter (nonfree topic : list string) (d : list (string * Paper.t)) :
  (∀ u p, (u, p) ∈ d → Paper.url p = u) →
  flat_map
    (λ '(url, paper),
       if negb (existsb (λ b, str_in b url) nonfree) then
         let ld := lower (Paper.desc paper) in
         if negb (existsb (λ t, str_in t ld) topic) then Paper.dump paper else []
       else [])
    d
  = mjoin (Paper.dump <$> filter (λ p, ¬ excluded nonfree topic p) d.*2).
Proof.
  match goal with |- _ → flat_map ?f _ = _ => set (F := f) end.
  induction d as [|[u p] d IH]; intros Hd; [done|].
  change (flat_map F ((u, p) :: d)) with (F (u, p) ++ flat_map F d).
  cbn [fmap list_fmap snd]. rewrite filter_cons, IH.
  2:{ intros u' p' Hin. apply Hd. by right. }
  assert (Paper.url p = u) as <- by (apply Hd; by left).
  unfold F at 1. clear F IH.
  destruct (decide (¬ excluded nonfree topic p)) as [E|E].
  - destruct (existsb _ nonfree) eqn:E1.
    { destruct E. left. by apply existsb_Exists. }
    destruct (existsb _ topic) eqn:E2.
    { destruct E. right. by apply existsb_Exists. }
    done.
  - apply dec_stable in E. destruct E as [E|E].
    + apply existsb_Exists in E. cbn in E. by rewrite E.
    + apply existsb_Exists in E. cbn in E. rewrite E. cbn.
      by destruct (existsb _ nonfree).
Qed.

End dump_claims.

Lemma C2_one_record_first_description_witness :
  Paper.desc <$> PyDict.get "http://x.org/p1"
                   (ScholarScraper.papers (@run demo_platform demo_run))
  = Some "Paper One".
Proof.
  rewrite (proj1 (proj2 (proj2 (proj2
             (@C2_one_record_first_description demo_platform demo_run))))).
  reflexivity.
Defined.

Lemma C8_order_independent_witness :
  observed (H := demo_platform) ScholarScraper.init (demo_mail_1 ++ demo_mail_2)
    ≡ₚ observed (H := demo_platform) ScholarScraper.init (demo_mail_2 ++ demo_mail_1)
  ∧ names_of CitationWatch <$> PyDict.get "http://x.org/p1"
      (ScholarScraper.papers (@run demo_platform (demo_mail_1 ++ demo_mail_2)))
    = names_of CitationWatch <$> PyDict.get "http://x.org/p1"
      (ScholarScraper.papers (@run demo_platform (demo_mail_2 ++ demo_mail_1))).
Proof.
  assert (observed (H := demo_platform) ScholarScraper.init (demo_mail_1 ++ demo_mail_2)
    ≡ₚ observed (H := demo_platform) ScholarScraper.init (demo_mail_2 ++ demo_mail_1)) as P.
  { vm_compute. apply (Permutation_app_comm [_] [_; _]). }
  split; [exact P|].
  exact (proj1 (proj2 (@C8_order_independent demo_platform _ _ P) "http://x.org/p1")
           CitationWatch).
Defined.

(** * Proofs: [edit.py] *)

(** ** The two loops against the block format *)

Lemma groups_nonempty P ls : ∃ g gs, groups P ls = g :: gs.
Proof.
  induction ls as [|l ls (g & gs & E)]; cbn; [by eauto|].
  destruct (P l); [by eauto|]. rewrite E. eauto.
Qed.

Lemma serialize_cons b bs : serialize (b :: bs) = block_text b +:+ serialize bs.
Proof. reflexivity. Qed.

Lemma serialize_nil : serialize [] = "".
Proof. reflexivity. Qed.

Lemma has_match_nil pat : ¬ has_match pat [].
Proof. unfold has_match. rewrite Exists_nil. tauto. Qed.

Lemma has_match_snoc pat lines l :
  bool_decide (has_match pat (lines ++ [l]))
  = if pat l then true else bool_decide (has_match pat lines).
Proof.
  unfold has_match. destruct (pat l) eqn:E.
  - apply bool_decide_eq_true. apply Exists_app. right. by constructor.
  - apply bool_decide_ext. rewrite Exists_app, Exists_cons, Exists_nil.
    split; [|by left]. intros [?|[?|[]]]; [done|congruence].
Qed.

(** [show]: the blocks with a match, each behind a separator line. *)
Lemma show_scan_spec pat input lines :
  ∀ g gs, groups (String.prefix Edit.SEP) (rstrip_nl <$> input) = g :: gs →
  last_flush (show_scan pat input lines (bool_decide (has_match pat lines)))
  = serialize (filter (has_match pat) (filter (λ g, g ≠ []) ((lines ++ g) :: gs))).
Proof.
  revert lines. induction input as [|line input IH]; intros lines g gs.
  - intros [= <- <-]. unfold last_flush. cbn [show_scan fst snd].
    rewrite (right_id_L [] (++)), str_app_nil_l.
    destruct lines as [|l lines].
    + rewrite bool_decide_false by (cbn; lia). done.
    + rewrite bool_decide_true by (cbn; lia).
      rewrite filter_cons, decide_True by done. rewrite filter_nil, filter_cons, filter_nil.
      unfold block_out. destruct (decide (has_match pat (l :: lines))) as [M|M].
      * rewrite bool_decide_true by done.
        by rewrite serialize_cons, serialize_nil, str_app_nil_r.
      * by rewrite bool_decide_false.
  - cbn [show_scan fmap list_fmap groups].
    destruct (groups_nonempty (String.prefix Edit.SEP)
                (rstrip_nl <$> input)) as (g' & gs' & E).
    destruct (String.prefix Edit.SEP (rstrip_nl line)) eqn:B.
    + intros [= <- <-].
      specialize (IH [] g' gs' E).
      rewrite (bool_decide_false (has_match pat [])) in IH by apply has_match_nil.
      change ([] ++ g') with g' in IH.
      unfold last_flush in *. cbn [fst snd] in *. rewrite <- str_app_assoc, IH.
      rewrite E, (right_id_L [] (++)). rewrite (filter_cons _ lines).
      destruct lines as [|l lines].
      * rewrite decide_False by (by intros []).
        rewrite (bool_decide_false (has_match pat [])) by apply has_match_nil. reflexivity.
      * rewrite decide_True by done. rewrite (filter_cons _ (l :: lines)).
        unfold block_out. destruct (decide (has_match pat (l :: lines))) as [M|M].
        -- rewrite bool_decide_true by done. reflexivity.
        -- rewrite bool_decide_false by done. reflexivity.
    + rewrite E. intros [= <- <-]. rewrite <- has_match_snoc.
      rewrite (IH (lines ++ [rstrip_nl line]) g' gs' E).
      by rewrite <- (assoc_L (++)).
Qed.

(** [delete]: the runs without a match, each behind a separator line. *)
Lemma drop_scan_spec pat input lines :
  ∀ g gs, groups (String.prefix Edit.SEP) (rstrip_nl <$> input) = g :: gs →
  last_flush (drop_scan pat input lines (negb (bool_decide (has_match pat lines))))
  = serialize (filter (λ b, ¬ has_match pat b) (drop_trailing_empty ((lines ++ g) :: gs))).
Proof.
  revert lines. induction input as [|line input IH]; intros lines g gs.
  - intros [= <- <-]. unfold last_flush. cbn [drop_scan fst snd drop_trailing_empty].
    rewrite (right_id_L [] (++)), str_app_nil_l.
    destruct lines as [|l lines].
    + rewrite bool_decide_false by (cbn; lia). by rewrite bool_decide_true.
    + rewrite bool_decide_true by (cbn; lia). rewrite (bool_decide_false (_ = [])) by done.
      rewrite filter_cons, filter_nil.
      unfold block_out. destruct (decide (has_match pat (l :: lines))) as [M|M].
      * rewrite bool_decide_true by done. rewrite decide_False by tauto. done.
      * rewrite bool_decide_false by done. rewrite decide_True by done.
        cbn [negb]. by rewrite serialize_cons, serialize_nil, str_app_nil_r.
  - cbn [drop_scan fmap list_fmap groups].
    destruct (groups_nonempty (String.prefix Edit.SEP)
                (rstrip_nl <$> input)) as (g' & gs' & E).
    destruct (String.prefix Edit.SEP (rstrip_nl line)) eqn:B.
    + intros [= <- <-].
      specialize (IH [] g' gs' E).
      rewrite (bool_decide_false (has_match pat [])) in IH by apply has_match_nil.
      change ([] ++ g') with g' in IH. cbn [negb] in IH.
      unfold last_flush in *. cbn [fst snd] in *. rewrite <- str_app_assoc, IH.
      rewrite E, (right_id_L [] (++)).
      change (drop_trailing_empty (lines :: g' :: gs'))
        with (lines :: drop_trailing_empty (g' :: gs')).
      rewrite (filter_cons _ lines).
      unfold block_out. destruct (decide (has_match pat lines)) as [M|M].
      * rewrite bool_decide_true by done. rewrite decide_False by tauto. reflexivity.
      * rewrite bool_decide_false by done. rewrite decide_True by done. reflexivity.
    + rewrite E. intros [= <- <-].
      replace (if pat (rstrip_nl line) then false
               else negb (bool_decide (has_match pat lines)))
        with (negb (bool_decide (has_match pat (lines ++ [rstrip_nl line]))))
        by (rewrite has_match_snoc; by destruct (pat (rstrip_nl line))).
      rewrite (IH (lines ++ [rstrip_nl line]) g' gs' E).
      by rewrite <- (assoc_L (++)).
Qed.

Lemma show_text_spec pat text :
  show_text pat text = serialize (filter (has_match pat) (blocks text)).
Proof.
  unfold show_text, blocks, segment, chomped.
  destruct (groups_nonempty (String.prefix Edit.SEP)
              (rstrip_nl <$> readlines text)) as (g & gs & E).
  pose proof (show_scan_spec pat (readlines text) [] g gs E) as S.
  rewrite (bool_decide_false (has_match pat [])) in S by apply has_match_nil.
  rewrite S, E. done.
Qed.

Lemma drop_text_spec pat text :
  drop_text pat text
  = serialize (filter (λ b, ¬ has_match pat b)
                 (flushed (String.prefix Edit.SEP) (chomped text))).
Proof.
  unfold drop_text, flushed, chomped.
  destruct (groups_nonempty (String.prefix Edit.SEP)
              (rstrip_nl <$> readlines text)) as (g & gs & E).
  pose proof (drop_scan_spec pat (readlines text) [] g gs E) as S.
  rewrite (bool_decide_false (has_match pat [])) in S by apply has_match_nil.
  cbn [negb] in S. rewrite S, E. done.
Qed.

(** *** Reading a serialized text back *)

Lemma readlines_line (b rest : string) :
  newline_free b = true → readlines (b +:+ NL +:+ rest) = (b +:+ NL) :: readlines rest.
Proof.
  induction b as [|c b IH]; intros Hb; [done|].
  cbn in Hb. apply andb_true_iff in Hb as [Hc Hb]. apply negb_true_iff in Hc.
  rewrite !str_app_cons. cbn [readlines]. rewrite Hc, (IH Hb). done.
Qed.

Lemma rstrip_nl_free (b : string) : newline_free b = true → rstrip_nl b = b.
Proof.
  induction b as [|c b IH]; [done|]. cbn. intros [Hc Hb]%andb_true_iff.
  apply negb_true_iff in Hc. rewrite Hc, andb_false_r. by rewrite IH.
Qed.

Lemma rstrip_nl_line (b : string) : newline_free b = true → rstrip_nl (b +:+ NL) = b.
Proof.
  induction b as [|c b IH]; [done|]. cbn [newline_free]. intros [Hc Hb]%andb_true_iff.
  apply negb_true_iff in Hc. rewrite str_app_cons. cbn [rstrip_nl].
  rewrite Hc, andb_false_r. by rewrite IH.
Qed.

(** Every line of a text is free of newlines once its end is stripped. *)
Lemma readlines_shape (s : string) :
  Forall (λ l, ∃ b, newline_free b = true ∧ (l = b +:+ NL ∨ (l = b ∧ b ≠ ""))) (readlines s).
Proof.
  induction s as [|c s IH]; cbn; [constructor|].
  case_bool_decide as Hc.
  - constructor; [|done]. exists "". split; [done|]. by left.
  - destruct (readlines s) as [|l ls].
    + constructor; [|done]. exists (String c ""). cbn.
      rewrite bool_decide_false by done. split; [done|]. by right.
    + apply Forall_cons in IH as [(b & Hb & Hl) IH]. constructor; [|done].
      exists (String c b). cbn. rewrite bool_decide_false by done.
      split; [done|]. destruct Hl as [-> | [-> _]]; [by left|by right].
Qed.

Lemma chomped_newline_free (text : string) :
  Forall (λ l, newline_free l = true) (chomped text).
Proof.
  unfold chomped. apply Forall_fmap. eapply Forall_impl; [apply readlines_shape|].
  intros l (b & Hb & [-> | [-> _]]); cbn.
  - by rewrite rstrip_nl_line.
  - by rewrite rstrip_nl_free.
Qed.

(** The lines of the runs are the lines that are no boundary. *)
Lemma groups_lines P ls :
  mjoin (groups P ls) = filter (λ l, P l = false) ls.
Proof.
  induction ls as [|l ls IH]; [done|]. cbn [groups]. rewrite filter_cons.
  destruct (P l) eqn:E.
  - rewrite decide_False by done. done.
  - rewrite decide_True by done.
    destruct (groups_nonempty P ls) as (g & gs & G). rewrite G in *.
    cbn in *. by rewrite IH.
Qed.

Lemma groups_Forall (Q : string → Prop) P ls :
  Forall Q ls → Forall (Forall (λ l, Q l ∧ P l = false)) (groups P ls).
Proof.
  induction 1 as [|l ls Hl Hls IH]; cbn [groups].
  - by repeat constructor.
  - destruct (P l) eqn:E; [by constructor|].
    destruct (groups_nonempty P ls) as (g & gs & G). rewrite G in *.
    apply Forall_cons in IH as [Hg Hgs]. constructor; [|done]. by constructor.
Qed.

Lemma join_lines_cons l ls : join_lines (l :: ls) = l +:+ NL +:+ join_lines ls.
Proof. reflexivity. Qed.

Lemma chomped_line (b rest : string) :
  newline_free b = true → chomped (b +:+ NL +:+ rest) = b :: chomped rest.
Proof.
  intros Hb. unfold chomped. rewrite readlines_line by done.
  cbn [fmap list_fmap]. by rewrite rstrip_nl_line.
Qed.

Lemma chomped_join_lines (b : list string) (rest : string) :
  Forall (λ l, newline_free l = true) b →
  chomped (join_lines b +:+ rest) = b ++ chomped rest.
Proof.
  induction 1 as [|l ls Hl Hls IH]; [done|].
  rewrite join_lines_cons, <- !str_app_assoc, chomped_line by done.
  cbn. by rewrite IH.
Qed.

Lemma chomped_serialize (bs : list (list string)) :
  Forall (Forall (λ l, newline_free l = true)) bs →
  chomped (serialize bs) = mjoin ((λ b, Edit.SEP :: b) <$> bs).
Proof.
  induction 1 as [|b bs Hb Hbs IH]; [done|].
  rewrite serialize_cons. unfold block_text.
  rewrite <- !str_app_assoc, chomped_line by done.
  rewrite chomped_join_lines by done. cbn. by rewrite IH.
Qed.

Lemma groups_app_data P (b ls : list string) :
  Forall (λ l, P l = false) b →
  ∀ g gs, groups P ls = g :: gs → groups P (b ++ ls) = (b ++ g) :: gs.
Proof.
  induction 1 as [|l b Hl Hb IH]; intros g gs G; [done|].
  cbn [app groups]. rewrite Hl, (IH g gs G). done.
Qed.

Lemma groups_blocks P (bs : list (list string)) :
  P Edit.SEP = true →
  Forall (Forall (λ l, P l = false)) bs →
  groups P (mjoin ((λ b, Edit.SEP :: b) <$> bs)) = [] :: bs.
Proof.
  intros HP. induction 1 as [|b bs Hb Hbs IH]; [done|].
  rewrite fmap_cons.
  change (groups P (Edit.SEP :: (b ++ mjoin ((λ b, Edit.SEP :: b) <$> bs))) = [] :: b :: bs).
  cbn [groups]. rewrite HP. f_equal.
  rewrite (groups_app_data P b _ Hb [] bs IH). by rewrite (right_id_L [] (++)).
Qed.

Lemma filter_drop_trailing_empty (gs : list (list string)) :
  filter (λ g, g ≠ []) (drop_trailing_empty gs) = filter (λ g, g ≠ []) gs.
Proof.
  induction gs as [|g gs IH]; [done|]. cbn [drop_trailing_empty].
  destruct gs as [|g' gs].
  - case_bool_decide as E; [|done]. subst. by rewrite filter_cons, decide_False by tauto.
  - by rewrite !(filter_cons _ g), IH.
Qed.

(** The blocks of a serialized list of runs are its non-empty runs. *)
Lemma blocks_serialize (bs : list (list string)) :
  Forall (Forall (λ l, newline_free l = true ∧ String.prefix Edit.SEP l = false)) bs →
  blocks (serialize bs) = filter (λ g, g ≠ []) bs.
Proof.
  intros Hbs. unfold blocks, segment.
  rewrite chomped_serialize.
  2:{ eapply Forall_impl; [exact Hbs|]. intros b Hb.
      eapply Forall_impl; [exact Hb|]. by intros l [? ?]. }
  rewrite groups_blocks; [|done|].
  2:{ eapply Forall_impl; [exact Hbs|]. intros b Hb.
      eapply Forall_impl; [exact Hb|]. by intros l [? ?]. }
  by rewrite filter_cons, decide_False by tauto.
Qed.

Lemma groups_chomped_ok (text : string) :
  Forall (Forall (λ l, newline_free l = true ∧ String.prefix Edit.SEP l = false))
    (groups (String.prefix Edit.SEP) (chomped text)).
Proof. apply groups_Forall, chomped_newline_free. Qed.

Lemma Forall_drop_trailing_empty (Q : list string → Prop) gs :
  Forall Q gs → Forall Q (drop_trailing_empty gs).
Proof.
  induction 1 as [|g gs Hg Hgs IH]; [constructor|]. cbn [drop_trailing_empty].
  destruct gs as [|g' gs].
  - case_bool_decide; by repeat constructor.
  - by constructor.
Qed.

Lemma Forall_filter_keep {A} (Q P : A → Prop) `{∀ x, Decision (P x)} (l : list A) :
  Forall Q l → Forall Q (filter P l).
Proof.
  induction 1 as [|x l Hx Hl IH]; [constructor|]. rewrite filter_cons.
  destruct (decide (P x)); [by constructor|done].
Qed.

Lemma blocks_show_text pat text :
  blocks (show_text pat text) = filter (has_match pat) (blocks text).
Proof.
  rewrite show_text_spec, blocks_serialize.
  - unfold blocks, segment. rewrite !list_filter_filter. apply list_filter_iff.
    intros b. tauto.
  - apply Forall_filter_keep, Forall_filter_keep, groups_chomped_ok.
Qed.

Lemma blocks_drop_text pat text :
  blocks (drop_text pat text) = filter (λ b, ¬ has_match pat b) (blocks text).
Proof.
  rewrite drop_text_spec, blocks_serialize.
  - unfold blocks, segment, flushed.
    rewrite <- (filter_drop_trailing_empty (groups _ _)).
    rewrite !list_filter_filter. apply list_filter_iff. intros b. tauto.
  - apply Forall_filter_keep, Forall_drop_trailing_empty, groups_chomped_ok.
Qed.

(** ** Running the monad *)

Lemma run_bind {A B} (m : M A) (f : A → M B) (w w' : world) (a : A) :
  m w = (Ret a, w') → (m ≫= f) w = f a w'.
Proof. intros E. unfold mbind, M_bind, bind. by rewrite E. Qed.

Lemma run_bind_raise {A B} (m : M A) (f : A → M B) (w w' : world) (e : exn) :
  m w = (Raise e, w') → (m ≫= f) w = (Raise e, w').
Proof. intros E. unfold mbind, M_bind, bind. by rewrite E. Qed.

Lemma run_ret {A} (a : A) (w : world) : (mret a : M A) w = (Ret a, w).
Proof. reflexivity. Qed.

Lemma fault_point_quiet (w : world) : w_fault w = None → fault_point w = (Ret tt, w).
Proof. intros E. unfold fault_point. by rewrite E. Qed.

Lemma sys_fault_point_quiet (w : world) :
  w_fault w = None → sys_fault_point w = (Ret tt, w).
Proof. intros E. unfold sys_fault_point. by rewrite E. Qed.

Lemma open_r_quiet (p : string) (i : nat) (w : world) :
  w_dir w !! p = Some i → w_fault w = None → open_r p w = (Ret i, w).
Proof.
  intros E Q. unfold open_r. rewrite E.
  by erewrite run_bind by by apply sys_fault_point_quiet.
Qed.

Lemma view_lookup (w : world) (p : string) :
  view w !! p = w_dir w !! p ≫= λ i, w_ino w !! i.
Proof. unfold view. apply lookup_omap. Qed.

Lemma view_Some (w : world) (p text : string) :
  view w !! p = Some text ↔ ∃ i, w_dir w !! p = Some i ∧ w_ino w !! i = Some text.
Proof.
  rewrite view_lookup. destruct (w_dir w !! p) as [i|]; cbn.
  - split; [by exists i|]. by intros (j & [= <-] & ?).
  - split; [done|]. by intros (j & ? & ?).
Qed.

Lemma read_lines_run (i : nat) (text : string) (w : world) :
  w_ino w !! i = Some text → read_lines i w = (Ret (readlines text), w).
Proof. intros E. unfold read_lines. by rewrite E. Qed.

Lemma add_stdout_nil (w : world) : add_stdout "" w = w.
Proof. destruct w. unfold add_stdout. cbn. by rewrite str_app_nil_r. Qed.

Lemma add_stdout_add (a b : string) (w : world) :
  add_stdout b (add_stdout a w) = add_stdout (a +:+ b) w.
Proof. unfold add_stdout. cbn. by rewrite str_app_assoc. Qed.

Section show_run.

Context `{EditEnv}.

Lemma write_stdout (s : string) (w : world) :
  write Stdout s w = (Ret tt, add_stdout s w).
Proof. reflexivity. Qed.

Lemma for_each_stdout (lines : list string) (w : world) :
  for_each lines (λ k, write Stdout k;; write Stdout NL) w
  = (Ret tt, add_stdout (join_lines lines) w).
Proof.
  revert w. induction lines as [|k lines IH]; intros w.
  - cbn. by rewrite add_stdout_nil.
  - cbn [for_each].
    erewrite run_bind by (erewrite run_bind by apply write_stdout; apply write_stdout).
    rewrite IH. by rewrite !add_stdout_add, join_lines_cons, !str_app_assoc.
Qed.

Lemma flush_block_stdout (keep : bool) (lines : list string) (w : world) :
  flush_block Stdout keep lines w = (Ret tt, add_stdout (block_out keep lines) w).
Proof.
  unfold flush_block, block_out. destruct keep.
  - erewrite run_bind by apply write_stdout.
    erewrite run_bind by apply write_stdout. rewrite for_each_stdout.
    by rewrite !add_stdout_add, !str_app_assoc.
  - by rewrite run_ret, add_stdout_nil.
Qed.

Lemma show_loop_run pat input lines keep (w : world) :
  w_fault w = None →
  show_loop pat input lines keep w
  = (Ret (show_scan pat input lines keep).2,
     add_stdout (show_scan pat input lines keep).1 w).
Proof.
  revert lines keep w. induction input as [|line input IH]; intros lines keep w Q.
  - cbn [show_loop show_scan]. erewrite run_bind by by apply fault_point_quiet.
    by rewrite run_ret, add_stdout_nil.
  - cbn [show_loop show_scan]. erewrite run_bind by by apply fault_point_quiet.
    destruct (String.prefix SEP (rstrip_nl line)).
    + erewrite run_bind by apply flush_block_stdout.
      rewrite IH by done. cbn [fst snd]. by rewrite add_stdout_add.
    + by apply IH.
Qed.

Lemma show_blocks_run (fname text : string) pat (w : world) :
  view w !! fname = Some text → w_fault w = None →
  show_blocks fname pat w = (Ret tt, add_stdout (show_text pat text) w).
Proof.
  intros (i & Hd & Hi)%view_Some Q. unfold show_blocks.
  erewrite run_bind by by apply open_r_quiet.
  erewrite run_bind by by apply read_lines_run.
  erewrite run_bind by by apply show_loop_run.
  unfold show_text, last_flush.
  destruct (show_scan pat (readlines text) [] false) as [out [lines keep]].
  cbn [fst snd]. cbv beta iota.
  case_bool_decide.
  - by rewrite flush_block_stdout, add_stdout_add.
  - by rewrite run_ret, str_app_nil_r.
Qed.

End show_run.

Lemma stream_Some (i : nat) (w : world) (t : string) :
  stream i w = Some t
  ↔ ∃ d p, w_ino w !! i = Some d ∧ w_pending w !! i = Some p ∧ t = d +:+ p.
Proof.
  unfold stream. destruct (w_ino w !! i) as [d|], (w_pending w !! i) as [p|].
  - split; [intros [= <-]; by exists d, p|]. by intros (d' & p' & [= <-] & [= <-] & ->).
  - split; [done|]. by intros (d' & p' & _ & ? & _).
  - split; [done|]. by intros (d' & p' & ? & _).
  - split; [done|]. by intros (d' & p' & ? & _).
Qed.

Lemma appended_refl i w : is_Some (stream i w) → appended i "" w w.
Proof. intros [t E]. repeat split; try done. exists t. by rewrite str_app_nil_r. Qed.

Lemma appended_trans i s1 s2 w w1 w2 :
  appended i s1 w w1 → appended i s2 w1 w2 → appended i (s1 +:+ s2) w w2.
Proof.
  intros (D1 & O1 & F1 & I1 & t1 & S1 & S1') (D2 & O2 & F2 & I2 & t2 & S2 & S2').
  repeat split; try congruence.
  - intros j Hj. by rewrite I2, I1.
  - exists t1. split; [done|]. rewrite S1' in S2. injection S2 as <-.
    by rewrite S2', str_app_assoc.
Qed.

Section file_run.

Context `{EditEnv}.

Lemma writes_ret {A} i (a : A) : writes i (mret a) a "".
Proof. intros w Q S. exists w. split; [done|]. by apply appended_refl. Qed.

Lemma writes_bind {A B} i (m : M A) (f : A → M B) a b s1 s2 :
  writes i m a s1 → writes i (f a) b s2 → writes i (m ≫= f) b (s1 +:+ s2).
Proof.
  intros Hm Hf w Q S. destruct (Hm w Q S) as (w1 & E1 & A1).
  destruct (Hf w1) as (w2 & E2 & A2).
  - destruct A1 as (_ & _ & F & _). congruence.
  - destruct A1 as (_ & _ & _ & _ & t & _ & ->). by eexists.
  - exists w2. split; [by erewrite run_bind|]. by eapply appended_trans.
Qed.

Lemma writes_fault_point i : writes i fault_point tt "".
Proof.
  intros w Q S. exists w. split; [by apply fault_point_quiet|]. by apply appended_refl.
Qed.

Lemma writes_buffer i s : writes i (buffer i s) tt s.
Proof.
  intros w Q [t S]. apply stream_Some in S as (d & p & Hd & Hp & ->).
  unfold buffer. rewrite Hp. case_bool_decide.
  - unfold flush. cbn [w_pending]. rewrite lookup_insert_eq.
    erewrite run_bind by by apply sys_fault_point_quiet.
    eexists. split; [reflexivity|].
    unfold appended, stream, set_fs. cbn. rewrite Hd, Hp, !lookup_insert_eq. cbn.
    split_and!; try done.
    + intros j Hj. by rewrite lookup_insert_ne.
    + eexists. split; [done|]. by rewrite str_app_nil_r, str_app_assoc.
  - eexists. split; [done|].
    unfold appended, stream. cbn. rewrite Hd, Hp, !lookup_insert_eq. split_and!; try done.
    eexists. split; [done|]. by rewrite str_app_assoc.
Qed.

Lemma writes_write i s : writes i (write (File i) s) tt s.
Proof.
  change s with ("" +:+ s) at 2. cbn [write].
  eapply writes_bind; [apply writes_fault_point|apply writes_buffer].
Qed.

Lemma writes_for_each i lines :
  writes i (for_each lines (λ k, write (File i) k;; write (File i) NL)) tt (join_lines lines).
Proof.
  induction lines as [|k lines IH]; [apply writes_ret|].
  cbn [for_each]. rewrite join_lines_cons, (str_app_assoc k).
  eapply writes_bind; [|exact IH].
  eapply writes_bind; apply writes_write.
Qed.

Lemma writes_flush_block i keep lines :
  writes i (flush_block (File i) keep lines) tt (block_out keep lines).
Proof.
  unfold flush_block, block_out, block_text. destruct keep; [|apply writes_ret].
  eapply writes_bind; [apply writes_write|].
  eapply writes_bind; [apply writes_write|apply writes_for_each].
Qed.

Lemma writes_drop_loop i pat input lines keep :
  writes i (drop_loop pat (File i) input lines keep)
    (drop_scan pat input lines keep).2 (drop_scan pat input lines keep).1.
Proof.
  revert lines keep. induction input as [|line input IH]; intros lines keep.
  - cbn [drop_loop drop_scan fst snd]. change "" with ("" +:+ "").
    eapply writes_bind; [apply writes_fault_point|apply writes_ret].
  - cbn [drop_loop drop_scan].
    destruct (String.prefix SEP (rstrip_nl line)).
    + cbn [fst snd].
      change (block_out keep lines +:+ (drop_scan pat input [] true).1)
        with ("" +:+ block_out keep lines +:+ (drop_scan pat input [] true).1).
      eapply writes_bind; [apply writes_fault_point|].
      eapply writes_bind; [apply writes_flush_block|apply IH].
    + match goal with |- writes _ _ ?a ?s => change s with ("" +:+ s) end.
      eapply writes_bind; [apply writes_fault_point|apply IH].
Qed.

End file_run.

Lemma fault_exn_None (w : world) : fault_exn w = None ↔ w_fault w = None.
Proof. unfold fault_exn. by destruct (w_fault w). Qed.

Lemma fault_exn_quiet (w w' : world) :
  fault_exn w' = fault_exn w → w_fault w = None → w_fault w' = None.
Proof. intros E Q. apply fault_exn_None. rewrite E. by apply fault_exn_None. Qed.

Lemma fault_exn_Some (w : world) (e : exn) :
  fault_exn w = Some e ↔ ∃ k, w_fault w = Some (k, e).
Proof.
  unfold fault_exn. destruct (w_fault w) as [[k e']|]; cbn.
  - split; [intros [= ->]; by exists k|]. by intros (k' & [= _ ->]).
  - split; [done|]. by intros (k & ?).
Qed.

(** A fault point leaves all but the oracle; when it raises, it raises what
    the oracle held, and the oracle is spent. *)
Lemma fault_point_cases (w : world) :
  ticked w (fault_point w).2
  ∧ match (fault_point w).1 with
    | Ret _ => fault_exn (fault_point w).2 = fault_exn w
    | Raise e => w_fault w = Some (0, e) ∧ w_fault (fault_point w).2 = None
    end.
Proof.
  unfold fault_point, fault_exn.
  destruct (w_fault w) as [[[|n] e]|] eqn:F; cbn; rewrite ?F; by repeat split.
Qed.

Lemma sys_fault_point_cases (w : world) :
  ticked w (sys_fault_point w).2
  ∧ match (sys_fault_point w).1 with
    | Ret _ => fault_exn (sys_fault_point w).2 = fault_exn w
    | Raise e => e = OSError ∧ w_fault w = Some (0, OSError)
                 ∧ w_fault (sys_fault_point w).2 = None
    end.
Proof.
  unfold sys_fault_point.
  destruct (w_fault w) as [[k e]|] eqn:F; [|by repeat split].
  destruct e; try by repeat split.
  pose proof (fault_point_cases w) as [T R]. split; [done|].
  destruct (fault_point w) as [[[]|e] w']; cbn in *; [done|].
  destruct R as [R1 R2]. rewrite F in R1. injection R1 as -> <-. done.
Qed.

Lemma try_unlink_run (p : string) (w : world) :
  ∃ w', try_unlink p w = (Ret tt, w')
        ∧ core w' = (delete p (w_dir w), w_ino w, w_pending w, w_stdout w, w_fault w).
Proof.
  unfold try_unlink, try_except, os_unlink.
  destruct (w_dir w !! p) as [i|] eqn:E.
  - eexists. split; [done|]. done.
  - exists w. split; [done|]. unfold core. by rewrite delete_id.
Qed.

Lemma os_rename_run (src dst : string) (i : nat) (w : world) :
  w_dir w !! src = Some i →
  ∃ w', os_rename src dst w = (Ret tt, w')
        ∧ core w' = (<[dst := i]> (delete src (w_dir w)), w_ino w, w_pending w,
                     w_stdout w, w_fault w).
Proof. intros E. unfold os_rename. rewrite E. by eexists. Qed.

(** Opening a file that is there: the handle is its inode, unless the
    system call fails. *)
Lemma open_r_cases (p : string) (i : nat) (w : world) :
  w_dir w !! p = Some i →
  ticked w (open_r p w).2
  ∧ match (open_r p w).1 with
    | Ret j => j = i ∧ fault_exn (open_r p w).2 = fault_exn w
    | Raise e => e = OSError ∧ w_fault w = Some (0, OSError)
                 ∧ w_fault (open_r p w).2 = None
    end.
Proof.
  intros E. unfold open_r. rewrite E. unfold mbind, M_bind, bind.
  pose proof (sys_fault_point_cases w) as [T R].
  destruct (sys_fault_point w) as [[[]|e] w']; cbn in *; done.
Qed.

(** Creating a file at a path that is free. *)
Lemma open_w_cases (p : string) (w : world) :
  w_dir w !! p = None →
  let i := fresh (dom (w_ino w) ∪ map_img (w_dir w)) in
  match open_w p w with
  | (Ret j, w') =>
      j = i ∧ w_dir w' = <[p := i]> (w_dir w) ∧ w_ino w' = <[i := ""]> (w_ino w)
      ∧ w_pending w' = <[i := ""]> (w_pending w) ∧ w_stdout w' = w_stdout w
      ∧ fault_exn w' = fault_exn w
  | (Raise e, w') =>
      e = OSError ∧ ticked w w' ∧ w_fault w = Some (0, OSError) ∧ w_fault w' = None
  end.
Proof.
  intros E. unfold open_w, mbind, M_bind, bind.
  pose proof (sys_fault_point_cases w) as [T R].
  destruct (sys_fault_point w) as [[[]|e] w'] eqn:S; cbn in *.
  - destruct T as (D & I & P & O & _).
    rewrite D, I, P, O, E. unfold fault_exn in R. done.
  - destruct R as (-> & ? & ?). by split_and!.
Qed.

(** Closing a writer: its text is on disk, or the flush has failed and
    nothing has changed but that the writer is closed. *)
Lemma close_w_cases (i : nat) (w : world) :
  match close_w i w with
  | (Ret _, w') =>
      w_dir w' = w_dir w ∧ w_stdout w' = w_stdout w ∧ fault_exn w' = fault_exn w
      ∧ (∀ j, j ≠ i → w_ino w' !! j = w_ino w !! j)
      ∧ (∀ t, stream i w = Some t → w_ino w' !! i = Some t)
  | (Raise e, w') =>
      e = OSError ∧ w_dir w' = w_dir w ∧ w_ino w' = w_ino w ∧ w_stdout w' = w_stdout w
      ∧ w_fault w = Some (0, OSError) ∧ w_fault w' = None
      ∧ is_Some (w_pending w !! i)
  end.
Proof.
  unfold close_w, stream, flush. destruct (w_pending w !! i) as [p|] eqn:P.
  2:{ split_and!; try done. intros t. by destruct (w_ino w !! i). }
  unfold mbind, M_bind, bind.
  pose proof (sys_fault_point_cases w) as [(D & I & P' & O & _) R].
  destruct (sys_fault_point w) as [[[]|e] w'] eqn:S; cbn in *.
  - rewrite D, I, O. split_and!; try done.
    + intros j Hj. by rewrite lookup_insert_ne.
    + intros t. rewrite lookup_insert_eq. destruct (w_ino w !! i); [|done].
      by intros [= <-].
  - destruct R as (-> & ? & ?). by split_and!.
Qed.

Lemma bak_ne (fname : string) : fname ≠ fname +:+ ".bak".
Proof.
  intros E. apply (f_equal String.length) in E. rewrite str_length_app in E.
  cbn in E. lia.
Qed.

Lemma inplace_split {A} (fname : string) (body : nat → nat → M A) (w : world) :
  inplace fname body w
  = match enter fname w with
    | (Ret (readable, writable), w1) => guarded fname body readable writable w1
    | (Raise e, w1) => (Raise e, w1)
    end.
Proof.
  unfold inplace, enter, guarded, rollback, cleanup, mbind, M_bind, bind.
  destruct (try_except (os_unlink (fname +:+ ".bak")) is_OSError (λ _, mret tt) w)
    as [[[]|e] wa]; [|done].
  destruct (os_rename fname (fname +:+ ".bak") wa) as [[[]|e] wb]; [|done].
  destruct (open_r (fname +:+ ".bak") wb) as [[i0|e] wc]; [|done].
  destruct (open_w fname wc) as [[i1|e] wd]; done.
Qed.

(** [enter] on a file that is there: the file is under the backup path, and
    either both files are open, the new one on a fresh inode under the
    path, or one of the two could not be opened and the path is free. *)
Lemma enter_cases (fname : string) (w : world) (i0 : nat) :
  w_dir w !! fname = Some i0 →
  match enter fname w with
  | (Ret (readable, i1), w1) =>
      readable = i0 ∧ i1 ≠ i0
      ∧ (∀ p j, p ≠ fname → p ≠ fname +:+ ".bak" → w_dir w !! p = Some j → j ≠ i1)
      ∧ w_dir w1 = <[fname := i1]> (<[fname +:+ ".bak" := i0]>
                     (delete fname (delete (fname +:+ ".bak") (w_dir w))))
      ∧ w_ino w1 = <[i1 := ""]> (w_ino w)
      ∧ w_pending w1 = <[i1 := ""]> (w_pending w)
      ∧ w_stdout w1 = w_stdout w
      ∧ fault_exn w1 = fault_exn w
  | (Raise e, w1) =>
      e = OSError
      ∧ w_dir w1 = <[fname +:+ ".bak" := i0]>
                     (delete fname (delete (fname +:+ ".bak") (w_dir w)))
      ∧ w_ino w1 = w_ino w ∧ w_pending w1 = w_pending w ∧ w_stdout w1 = w_stdout w
      ∧ fault_exn w = Some OSError ∧ w_fault w1 = None
  end.
Proof.
  intros Hd. pose proof (bak_ne fname) as Hne.
  destruct (try_unlink_run (fname +:+ ".bak") w) as (wa & Ea & Ca).
  injection Ca as Da Ia Pa Oa Fa.
  destruct (os_rename_run fname (fname +:+ ".bak") i0 wa) as (wb & Eb & Cb).
  { rewrite Da, lookup_delete_ne by done. done. }
  injection Cb as Db Ib Pb Ob Fb.
  assert (fault_exn wb = fault_exn w) as Fwb by (unfold fault_exn; congruence).
  unfold enter. fold (try_unlink (fname +:+ ".bak")).
  erewrite run_bind by exact Ea. erewrite run_bind by exact Eb.
  unfold mbind, M_bind, bind.
  pose proof (open_r_cases (fname +:+ ".bak") i0 wb) as [(Dc & Ic & Pc & Oc & _) Rc].
  { by rewrite Db, lookup_insert_eq. }
  destruct (open_r (fname +:+ ".bak") wb) as [[j|e] wc]; cbn [fst snd] in *.
  2:{ destruct Rc as (-> & Fc & Fc'). split_and!; try congruence.
      rewrite <- Fwb. apply fault_exn_Some. by exists 0. }
  destruct Rc as [-> Fc].
  assert (w_dir wc !! fname = None) as Hfree
    by (by rewrite Dc, Db, lookup_insert_ne, lookup_delete_eq).
  pose proof (open_w_cases fname wc Hfree) as Rd. cbn zeta in Rd.
  set (i1 := fresh (dom (w_ino wc) ∪ map_img (w_dir wc))) in *.
  assert (i1 ∉ dom (w_ino wc) ∪ map_img (w_dir wc)) as Hfresh by apply is_fresh.
  destruct (open_w fname wc) as [[j|e] wd].
  2:{ destruct Rd as (-> & (Dd & Id & Pd & Od & _) & Fd & Fd').
      split_and!; try congruence.
      rewrite <- Fwb, <- Fc. apply fault_exn_Some. by exists 0. }
  destruct Rd as (-> & Dd & Id & Pd & Od & Fd).
  cbn. split_and!.
  - done.
  - intros ->. apply Hfresh, elem_of_union_r, elem_of_map_img.
    exists (fname +:+ ".bak"). by rewrite Dc, Db, lookup_insert_eq.
  - intros p j Hp Hp' Hj ->. apply Hfresh, elem_of_union_r, elem_of_map_img.
    exists p. by rewrite Dc, Db, Da, lookup_insert_ne, !lookup_delete_ne.
  - by rewrite Dd, Dc, Db, Da.
  - by rewrite Id, Ic, Ib, Ia.
  - by rewrite Pd, Pc, Pb, Pa.
  - congruence.
  - congruence.
Qed.

(** The [finally] clause: the writer is closed and the backup removed, or
    the flush of the writer fails and the backup stays. *)
Lemma cleanup_cases (fname : string) (i1 : nat) (w : world) :
  match cleanup fname i1 w with
  | (Ret _, w') =>
      w_dir w' = delete (fname +:+ ".bak") (w_dir w)
      ∧ w_stdout w' = w_stdout w ∧ fault_exn w' = fault_exn w
      ∧ (∀ j, j ≠ i1 → w_ino w' !! j = w_ino w !! j)
      ∧ (∀ t, stream i1 w = Some t → w_ino w' !! i1 = Some t)
  | (Raise e, w') =>
      e = OSError ∧ w_dir w' = w_dir w ∧ w_ino w' = w_ino w ∧ w_stdout w' = w_stdout w
      ∧ w_fault w = Some (0, OSError) ∧ w_fault w' = None
      ∧ is_Some (w_pending w !! i1)
  end.
Proof.
  unfold cleanup, mbind, M_bind, bind.
  pose proof (close_w_cases i1 w) as C.
  destruct (close_w i1 w) as [[[]|e] wa]; [|done].
  destruct C as (Da & Oa & Fa & Ia & Sa).
  destruct (try_unlink_run (fname +:+ ".bak") wa) as (wb & Eb & Cb).
  injection Cb as Db Ib Pb Ob Fb.
  unfold try_unlink in Eb. rewrite Eb. split_and!.
  - by rewrite Db, Da.
  - congruence.
  - unfold fault_exn in *. by rewrite Fb.
  - intros j Hj. by rewrite Ib, Ia.
  - intros t Ht. rewrite Ib. by apply Sa.
Qed.

Lemma cleanup_run (fname : string) (i1 : nat) (w : world) :
  w_fault w = None →
  ∃ w', cleanup fname i1 w = (Ret tt, w')
        ∧ w_dir w' = delete (fname +:+ ".bak") (w_dir w)
        ∧ w_stdout w' = w_stdout w ∧ w_fault w' = None
        ∧ (∀ j, j ≠ i1 → w_ino w' !! j = w_ino w !! j)
        ∧ (∀ t, stream i1 w = Some t → w_ino w' !! i1 = Some t).
Proof.
  intros Q. pose proof (cleanup_cases fname i1 w) as C.
  destruct (cleanup fname i1 w) as [[[]|e] w'].
  - destruct C as (D & O & F & I & S). exists w'. split_and!; try done.
    by eapply fault_exn_quiet.
  - destruct C as (_ & _ & _ & _ & F & _). congruence.
Qed.

Lemma cleanup_fails (fname : string) (i1 : nat) (w : world) :
  w_fault w = Some (0, OSError) → is_Some (w_pending w !! i1) →
  ∃ w', cleanup fname i1 w = (Raise OSError, w')
        ∧ w_dir w' = w_dir w ∧ w_ino w' = w_ino w ∧ w_stdout w' = w_stdout w
        ∧ w_fault w' = None.
Proof.
  intros Q [p Hp]. unfold cleanup, close_w, flush, mbind, M_bind, bind. rewrite Hp.
  unfold sys_fault_point, fault_point. rewrite Q. cbn. by eexists.
Qed.

(** The body returns: the [finally] clause alone runs. *)
Lemma guarded_return {A} (fname : string) (body : nat → nat → M A)
    (i0 i1 : nat) (w1 w2 : world) (a : A) :
  body i0 i1 w1 = (Ret a, w2) →
  match guarded fname body i0 i1 w1 with
  | (Ret a', w3) =>
      a' = a ∧ w_dir w3 = delete (fname +:+ ".bak") (w_dir w2)
      ∧ w_stdout w3 = w_stdout w2 ∧ fault_exn w3 = fault_exn w2
      ∧ (∀ j, j ≠ i1 → w_ino w3 !! j = w_ino w2 !! j)
      ∧ (∀ t, stream i1 w2 = Some t → w_ino w3 !! i1 = Some t)
  | (Raise e, w3) =>
      e = OSError ∧ w_dir w3 = w_dir w2 ∧ w_ino w3 = w_ino w2 ∧ w_stdout w3 = w_stdout w2
      ∧ w_fault w2 = Some (0, OSError) ∧ w_fault w3 = None
      ∧ is_Some (w_pending w2 !! i1)
  end.
Proof.
  intros Eb. unfold guarded, try_finally, try_except. rewrite Eb.
  pose proof (cleanup_cases fname i1 w2) as C.
  destruct (cleanup fname i1 w2) as [[[]|e] w3]; [|done]. by split.
Qed.

(** The body returns and no fault is to come: the new file stays, the
    backup goes. *)
Lemma guarded_commit {A} (fname : string) (body : nat → nat → M A)
    (i0 i1 : nat) (w1 w2 : world) (a : A) :
  body i0 i1 w1 = (Ret a, w2) → w_fault w2 = None →
  ∃ w3, guarded fname body i0 i1 w1 = (Ret a, w3)
        ∧ w_dir w3 = delete (fname +:+ ".bak") (w_dir w2)
        ∧ w_stdout w3 = w_stdout w2 ∧ w_fault w3 = None
        ∧ (∀ j, j ≠ i1 → w_ino w3 !! j = w_ino w2 !! j)
        ∧ (∀ t, stream i1 w2 = Some t → w_ino w3 !! i1 = Some t).
Proof.
  intros Eb Q. destruct (cleanup_run fname i1 w2 Q) as (w3 & Ec & Hc).
  exists w3. split; [|exact Hc].
  unfold guarded, try_finally, try_except. by rewrite Eb, Ec.
Qed.

(** The body raises an [Exception]: the new file goes, the backup is moved
    back, the exception goes on. *)
Lemma guarded_rollback {A} (fname : string) (body : nat → nat → M A)
    (i0 i1 : nat) (w1 w2 : world) (e : exn) :
  body i0 i1 w1 = (Raise e, w2) → is_Exception e = true → w_fault w2 = None →
  w_dir w2 !! (fname +:+ ".bak") = Some i0 →
  ∃ w3, guarded fname body i0 i1 w1 = (Raise e, w3)
        ∧ w_dir w3 = <[fname := i0]> (delete (fname +:+ ".bak") (delete fname (w_dir w2)))
        ∧ w_stdout w3 = w_stdout w2 ∧ w_fault w3 = None
        ∧ (∀ j, j ≠ i1 → w_ino w3 !! j = w_ino w2 !! j).
Proof.
  intros Eb He Q Hbak. pose proof (bak_ne fname) as Hne.
  destruct (try_unlink_run fname w2) as (wa & Ea & Ca). injection Ca as Da Ia Pa Oa Fa.
  destruct (os_rename_run (fname +:+ ".bak") fname i0 wa) as (wb & Eb' & Cb).
  { by rewrite Da, lookup_delete_ne. }
  injection Cb as Db Ib Pb Ob Fb.
  destruct (cleanup_run fname i1 wb) as (w3 & Ec & Dc & Oc & Fc & Ic & _); [congruence|].
  exists w3. split_and!.
  - unfold guarded, try_finally, try_except at 1. rewrite Eb, He.
    unfold rollback. fold (try_unlink fname).
    erewrite run_bind by exact Ea. erewrite run_bind by exact Eb'.
    unfold raise. by rewrite Ec.
  - rewrite Dc, Db, Da. apply map_eq. intros p.
    destruct (decide (p = fname +:+ ".bak")) as [->|Hp].
    + by rewrite lookup_delete_eq, lookup_insert_ne, lookup_delete_eq.
    + rewrite lookup_delete_ne by done. done.
  - congruence.
  - done.
  - intros j Hj. by rewrite Ic, Ib, Ia.
Qed.

(** The body raises something that is no [Exception]: only the [finally]
    clause runs. *)
Lemma guarded_interrupt {A} (fname : string) (body : nat → nat → M A)
    (i0 i1 : nat) (w1 w2 : world) (e : exn) :
  body i0 i1 w1 = (Raise e, w2) → is_Exception e = false → w_fault w2 = None →
  ∃ w3, guarded fname body i0 i1 w1 = (Raise e, w3)
        ∧ w_dir w3 = delete (fname +:+ ".bak") (w_dir w2)
        ∧ w_stdout w3 = w_stdout w2
        ∧ (∀ j, j ≠ i1 → w_ino w3 !! j = w_ino w2 !! j).
Proof.
  intros Eb He Q.
  destruct (cleanup_run fname i1 w2 Q) as (w3 & Ec & Dc & Oc & _ & Ic & _).
  exists w3. split; [|done].
  unfold guarded, try_finally, try_except. by rewrite Eb, He, Ec.
Qed.

Lemma touched_refl i w : touched i w w.
Proof. by repeat split. Qed.

Lemma touched_trans i w w1 w2 : touched i w w1 → touched i w1 w2 → touched i w w2.
Proof.
  intros (D1 & O1 & I1) (D2 & O2 & I2). split_and!; try congruence.
  intros j Hj. by rewrite I2, I1.
Qed.

Lemma initial_refl s : initial s s.
Proof. exists "". by rewrite str_app_nil_r. Qed.

Lemma initial_nil s : initial "" s.
Proof. by exists s. Qed.

Lemma initial_app_r s t u : initial s t → initial s (t +:+ u).
Proof. intros [rest ->]. exists (rest +:+ u). by rewrite str_app_assoc. Qed.

Lemma initial_app_l s t u : initial s t → initial (u +:+ s) (u +:+ t).
Proof. intros [rest ->]. exists rest. by rewrite str_app_assoc. Qed.

Lemma initial_trans s t u : initial s t → initial t u → initial s u.
Proof. intros [r1 ->] [r2 ->]. exists (r1 +:+ r2). by rewrite str_app_assoc. Qed.

Lemma snap_touched i d w w' :
  touched i w w' → snap (w_dir w') (w_ino w') i d = snap (w_dir w) (w_ino w) i d.
Proof.
  intros (D & _ & I). unfold snap. rewrite D. apply map_eq. intros p.
  rewrite !lookup_omap. destruct (w_dir w !! p) as [j|]; [|done]. cbn.
  destruct (decide (j = i)) as [->|Hj].
  - by rewrite !lookup_insert_eq.
  - rewrite !lookup_insert_ne by done. by apply I.
Qed.

Lemma snap_lookup dir ino i d p :
  snap dir ino i d !! p = dir !! p ≫= λ j, <[i := d]> ino !! j.
Proof. unfold snap. apply lookup_omap. Qed.

Section confined.

Context `{EditEnv}.

Lemma confined_ret {A} i (a : A) : confined i (mret a) a "".
Proof.
  intros w t S. split_and!.
  - apply touched_refl.
  - exists "". cbn. by rewrite str_app_nil_r.
  - exists []. cbn. by rewrite (right_id_L [] (++)).
Qed.

Lemma confined_bind {A B} i (m : M A) (f : A → M B) a b s1 s2 :
  confined i m a s1 → confined i (f a) b s2 → confined i (m ≫= f) b (s1 +:+ s2).
Proof.
  intros Hm Hf w t S. destruct (Hm w t S) as (T1 & (s1' & S1 & R1) & tr1 & E1 & F1).
  unfold confined_at, mbind, M_bind, bind.
  destruct (m w) as [[a'|e] w1]; cbn [fst snd] in *.
  - destruct R1 as (-> & -> & Q1).
    destruct (Hf w1 _ S1) as (T2 & (s2' & S2 & R2) & tr2 & E2 & F2).
    split_and!.
    + by eapply touched_trans.
    + exists (s1 +:+ s2'). rewrite str_app_assoc. split; [done|].
      destruct (f a w1) as [[b'|e] w2]; cbn [fst snd] in *.
      * destruct R2 as (-> & -> & Q2). split_and!; congruence.
      * destruct R2 as (I2 & Q2 & Q2'). split_and!; [|congruence|done].
        by apply initial_app_l.
    + exists (tr1 ++ tr2). split; [by rewrite E2, E1, (assoc_L (++))|].
      apply Forall_app. split.
      * eapply Forall_impl; [exact F1|]. intros v (d & I & ->). exists d.
        split; [|done]. rewrite str_app_assoc. by apply initial_app_r.
      * eapply Forall_impl; [exact F2|]. intros v (d & I & ->). exists d.
        split; [by rewrite str_app_assoc|]. by apply snap_touched.
  - destruct R1 as (I1 & Q1 & Q1'). split_and!.
    + done.
    + exists s1'. split; [done|]. split_and!; [|done|done]. by apply initial_app_r.
    + exists tr1. split; [done|].
      eapply Forall_impl; [exact F1|]. intros v (d & I & ->). exists d.
      split; [|done]. rewrite str_app_assoc. by apply initial_app_r.
Qed.

Lemma confined_fault_point i : confined i fault_point tt "".
Proof.
  intros w t S. pose proof (fault_point_cases w) as [(D & I & P & O & Tr) R].
  unfold confined_at. split_and!.
  - split_and!; [done|done|]. intros j _. by rewrite I.
  - exists "". rewrite str_app_nil_r. split; [unfold stream; by rewrite I, P|].
    destruct (fault_point w) as [[[]|e] w']; cbn [fst snd] in *; [done|].
    destruct R as [R1 R2]. split_and!; [apply initial_refl| |done].
    apply fault_exn_Some. by exists 0.
  - exists []. by rewrite (right_id_L [] (++)).
Qed.

Lemma confined_buffer i s : confined i (buffer i s) tt s.
Proof.
  intros w t (d & p & Hd & Hp & ->)%stream_Some. unfold confined_at, buffer.
  rewrite Hp. case_bool_decide as B.
  2:{ cbn. split_and!.
      - split_and!; done.
      - exists s. unfold stream. cbn. rewrite Hd, lookup_insert_eq.
        split; [by rewrite str_app_assoc|done].
      - exists []. by rewrite (right_id_L [] (++)). }
  set (w' := World _ _ _ _ _ _).
  unfold flush. change (w_pending w') with (<[i := p +:+ s]> (w_pending w)).
  rewrite lookup_insert_eq. unfold mbind, M_bind, bind.
  pose proof (sys_fault_point_cases w') as [(D & I & P & O & Tr) R].
  destruct (sys_fault_point w') as [[[]|e] w''] eqn:E; cbn [fst snd] in *.
  - unfold write_out, set_fs. cbn [fst snd w_dir w_ino w_pending w_stdout w_fault w_trace].
    rewrite D, I, P, O, Tr. cbn [w_dir w_ino w_pending w_stdout w_trace w'].
    rewrite Hd. cbn [default from_option id]. split_and!.
    + split_and!; [done|done|]. intros j Hj. cbn. by rewrite lookup_insert_ne.
    + exists s. unfold stream. cbn. rewrite !lookup_insert_eq.
      split; [by rewrite str_app_nil_r, str_app_assoc|]. split_and!; [done|done|].
      unfold fault_exn in *. done.
    + eexists [_]. split; [done|]. constructor; [|done].
      exists (d +:+ p +:+ s). split; [|done]. rewrite <- str_app_assoc. apply initial_refl.
  - destruct R as (-> & F & F'). split_and!.
    + unfold touched. rewrite D, O, I. split_and!; done.
    + exists s. unfold stream. rewrite I, P. cbn. rewrite Hd, lookup_insert_eq.
      split; [by rewrite str_app_assoc|]. split_and!; [apply initial_refl| |done].
      apply fault_exn_Some. by exists 0.
    + exists []. rewrite Tr. by rewrite (right_id_L [] (++)).
Qed.

Lemma confined_write i s : confined i (write (File i) s) tt s.
Proof.
  change s with ("" +:+ s) at 2. cbn [write].
  eapply confined_bind; [apply confined_fault_point|apply confined_buffer].
Qed.

Lemma confined_for_each i lines :
  confined i (for_each lines (λ k, write (File i) k;; write (File i) NL)) tt
    (join_lines lines).
Proof.
  induction lines as [|k lines IH]; [apply confined_ret|].
  cbn [for_each]. rewrite join_lines_cons, (str_app_assoc k).
  eapply confined_bind; [|exact IH].
  eapply confined_bind; apply confined_write.
Qed.

Lemma confined_flush_block i keep lines :
  confined i (flush_block (File i) keep lines) tt (block_out keep lines).
Proof.
  unfold flush_block, block_out, block_text. destruct keep; [|apply confined_ret].
  eapply confined_bind; [apply confined_write|].
  eapply confined_bind; [apply confined_write|apply confined_for_each].
Qed.

Lemma confined_drop_loop i pat input lines keep :
  confined i (drop_loop pat (File i) input lines keep)
    (drop_scan pat input lines keep).2 (drop_scan pat input lines keep).1.
Proof.
  revert lines keep. induction input as [|line input IH]; intros lines keep.
  - cbn [drop_loop drop_scan fst snd]. change "" with ("" +:+ "").
    eapply confined_bind; [apply confined_fault_point|apply confined_ret].
  - cbn [drop_loop drop_scan].
    destruct (String.prefix SEP (rstrip_nl line)).
    + cbn [fst snd].
      change (block_out keep lines +:+ (drop_scan pat input [] true).1)
        with ("" +:+ block_out keep lines +:+ (drop_scan pat input [] true).1).
      eapply confined_bind; [apply confined_fault_point|].
      eapply confined_bind; [apply confined_flush_block|apply IH].
    + match goal with |- confined _ _ ?a ?s => change s with ("" +:+ s) end.
      eapply confined_bind; [apply confined_fault_point|apply IH].
Qed.

(** The loop and the last flush, on the lines read. *)
Lemma confined_drop_rest i pat input :
  confined i
    ('(lines, keep) ← drop_loop pat (File i) input [] true;
     if bool_decide (0 < length lines) then flush_block (File i) keep lines
     else mret tt)
    tt (last_flush (drop_scan pat input [] true)).
Proof.
  unfold last_flush. eapply confined_bind; [apply confined_drop_loop|].
  destruct (drop_scan pat input [] true) as [out [lines keep]].
  cbn [fst snd]. cbv beta iota.
  case_bool_decide; [apply confined_flush_block|apply confined_ret].
Qed.

Lemma drop_blocks_unfold fname pat : drop_blocks fname pat = inplace fname (drop_body pat).
Proof. reflexivity. Qed.

Lemma confined_drop_body pat i0 i1 (w : world) (t : string) :
  stream i1 w = Some t →
  confined_at i1 (drop_body pat i0 i1) tt
    (drop_text pat (default "" (w_ino w !! i0))) w t.
Proof. intros S. by apply (confined_drop_rest i1 pat (readlines _) w t). Qed.

Lemma writes_drop_body pat i0 i1 text (w : world) :
  w_ino w !! i0 = Some text → w_fault w = None → is_Some (stream i1 w) →
  ∃ w', drop_body pat i0 i1 w = (Ret tt, w') ∧ appended i1 (drop_text pat text) w w'.
Proof.
  intros Hi Q S. unfold drop_body.
  erewrite run_bind by by apply read_lines_run.
  assert (writes i1
    ('(lines, keep) ← drop_loop pat (File i1) (readlines text) [] true;
     if bool_decide (0 < length lines) then flush_block (File i1) keep lines
     else mret tt) tt (drop_text pat text)) as W; [|by apply W].
  unfold drop_text, last_flush. eapply writes_bind; [apply writes_drop_loop|].
  destruct (drop_scan pat (readlines text) [] true) as [out [lines keep]].
  cbn [fst snd]. cbv beta iota.
  case_bool_decide; [apply writes_flush_block|apply writes_ret].
Qed.

(** The state after a fault-free [drop_blocks], inode by inode. *)
Lemma drop_blocks_commit (fname text : string) pat (w : world) :
  view w !! fname = Some text → w_fault w = None →
  ∃ w' i1, drop_blocks fname pat w = (Ret tt, w')
        ∧ w_dir w' = <[fname := i1]> (delete (fname +:+ ".bak") (w_dir w))
        ∧ w_ino w' !! i1 = Some (drop_text pat text)
        ∧ (∀ j, j ≠ i1 → w_ino w' !! j = w_ino w !! j)
        ∧ (∀ p j, p ≠ fname +:+ ".bak" → w_dir w !! p = Some j → j ≠ i1)
        ∧ w_stdout w' = w_stdout w ∧ w_fault w' = None.
Proof.
  intros (i0 & Hd & Hi)%view_Some Q. pose proof (bak_ne fname) as Hne.
  pose proof (enter_cases fname w i0 Hd) as C1.
  rewrite drop_blocks_unfold, inplace_split.
  destruct (enter fname w) as [[[r i1]|e] w1].
  2:{ destruct C1 as (_ & _ & _ & _ & _ & F & _).
      apply fault_exn_Some in F as [k F]. congruence. }
  destruct C1 as (-> & Hi1 & Hfr & D1 & I1 & P1 & O1 & F1).
  pose proof (fault_exn_quiet _ _ F1 Q) as Q1.
  destruct (writes_drop_body pat i0 i1 text w1) as (w2 & E2 & A2).
  { by rewrite I1, lookup_insert_ne. }
  { done. }
  { unfold stream. rewrite P1, I1, !lookup_insert_eq. by eexists. }
  destruct A2 as (D2 & O2 & F2 & I2 & t & S1 & S2).
  assert (t = "") as ->.
  { unfold stream in S1. rewrite P1, I1, !lookup_insert_eq in S1. by injection S1. }
  destruct (guarded_commit fname (drop_body pat) i0 i1 w1 w2 tt E2)
    as (w3 & E3 & D3 & O3 & F3 & I3 & S3); [congruence|].
  exists w3, i1. split_and!.
  - done.
  - rewrite D3, D2, D1. apply map_eq. intros p.
    destruct (decide (p = fname +:+ ".bak")) as [->|Hp].
    + by rewrite lookup_delete_eq, lookup_insert_ne, lookup_delete_eq.
    + rewrite lookup_delete_ne by done.
      destruct (decide (p = fname)) as [->|Hp'].
      * by rewrite !lookup_insert_eq.
      * by rewrite !lookup_insert_ne, !lookup_delete_ne.
  - by apply S3.
  - intros j Hj. by rewrite I3, I2, I1, lookup_insert_ne.
  - intros p j Hp Hj. destruct (decide (p = fname)) as [->|Hp']; [congruence|eauto].
  - congruence.
  - done.
Qed.

Lemma commit_view (fname : string) (w w' : world) (i1 : nat) (new : string) :
  w_dir w' = <[fname := i1]> (delete (fname +:+ ".bak") (w_dir w)) →
  w_ino w' !! i1 = Some new →
  (∀ j, j ≠ i1 → w_ino w' !! j = w_ino w !! j) →
  (∀ p j, p ≠ fname +:+ ".bak" → w_dir w !! p = Some j → j ≠ i1) →
  view w' !! fname = Some new
  ∧ view w' !! (fname +:+ ".bak") = None
  ∧ ∀ p, p ≠ fname → p ≠ fname +:+ ".bak" → view w' !! p = view w !! p.
Proof.
  intros D I1 I Hfr. pose proof (bak_ne fname) as Hne. split_and!.
  - apply view_Some. exists i1. by rewrite D, lookup_insert_eq.
  - by rewrite view_lookup, D, lookup_insert_ne, lookup_delete_eq.
  - intros p Hp Hp'. rewrite !view_lookup, D, lookup_insert_ne, lookup_delete_ne by done.
    destruct (w_dir w !! p) as [j|] eqn:Hj; [|done]. cbn. apply I. eauto.
Qed.

(** [drop_blocks] without faults: the file holds the text the loop wrote,
    the backup is gone, the other files are as they were. *)
Lemma drop_blocks_run (fname text : string) pat (w : world) :
  view w !! fname = Some text → w_fault w = None →
  ∃ w', drop_blocks fname pat w = (Ret tt, w')
        ∧ view w' !! fname = Some (drop_text pat text)
        ∧ view w' !! (fname +:+ ".bak") = None
        ∧ (∀ p, p ≠ fname → p ≠ fname +:+ ".bak" → view w' !! p = view w !! p)
        ∧ w_stdout w' = w_stdout w ∧ w_fault w' = None.
Proof.
  intros Hv Q.
  destruct (drop_blocks_commit fname text pat w Hv Q)
    as (w' & i1 & E & D & I1 & I & Hfr & O & F).
  destruct (commit_view fname w w' i1 _ D I1 I Hfr) as (Vf & Vb & Vo).
  exists w'. by split_and!.
Qed.

End confined.

Lemma prefix_spec (s1 s2 : string) :
  String.prefix s1 s2 = true ↔ ∃ rest, s2 = s1 +:+ rest.
Proof.
  revert s1. induction s2 as [|c' s2 IH]; intros [|c s1]; cbn.
  - split; [|done]. intros _. exists "". reflexivity.
  - split; [done|]. intros [rest E]. rewrite str_app_cons in E. discriminate E.
  - split; [|done]. intros _. exists (String c' s2). reflexivity.
  - destruct (Ascii.ascii_dec c c') as [->|N].
    + rewrite IH. split; intros [rest E]; exists rest.
      * by rewrite str_app_cons, <- E.
      * rewrite str_app_cons in E. by injection E.
    + split; [done|]. intros [rest E]. rewrite str_app_cons in E.
      injection E as E1 E2. by destruct N.
Qed.

Section edit_claims.

Context `{EditEnv}.

(** The file under the path while the body of [drop_blocks] runs, started
    on the empty new file: the directory stays as [enter] left it, and the
    new file holds an initial part of the text of the rewrite. *)
Lemma drop_body_views (fname text : string) (pat : string → bool)
    (w w1 : world) (i0 i1 : nat) :
  view w !! fname = Some text →
  enter fname w = (Ret (i0, i1), w1) →
  let w2 := (drop_body pat i0 i1 w1).2 in
  w_dir w !! fname = Some i0 ∧ i1 ≠ i0
  ∧ w_dir w1 !! fname = Some i1 ∧ w_dir w1 !! (fname +:+ ".bak") = Some i0
  ∧ w_dir w2 = w_dir w1
  ∧ view w1 !! fname = Some "" ∧ view w1 !! (fname +:+ ".bak") = Some text
  ∧ (∃ tr, w_trace w2 = w_trace w1 ++ tr
           ∧ Forall (λ v, v !! (fname +:+ ".bak") = Some text
                          ∧ ∃ partial, v !! fname = Some partial
                                       ∧ initial partial (drop_text pat text)) tr)
  ∧ view w2 !! (fname +:+ ".bak") = Some text
  ∧ ∃ partial, view w2 !! fname = Some partial ∧ initial partial (drop_text pat text).
Proof.
  intros (i & Hd & Hi)%view_Some Hent. pose proof (bak_ne fname) as Hne.
  pose proof (enter_cases fname w i Hd) as C. rewrite Hent in C.
  destruct C as (-> & Hi1 & Hfr & D1 & I1 & P1 & O1 & F1).
  assert (stream i1 w1 = Some "") as S1
    by (unfold stream; by rewrite I1, P1, !lookup_insert_eq).
  assert (w_ino w1 !! i = Some text) as Hi' by (by rewrite I1, lookup_insert_ne).
  destruct (confined_drop_body pat i i1 w1 "" S1)
    as ((D2 & O2 & I2) & (s' & S2 & R2) & tr & Etr & Ftr).
  rewrite Hi' in R2, Ftr. cbn [default from_option id] in *.
  assert (w_dir w1 !! fname = Some i1) as Df by (by rewrite D1, lookup_insert_eq).
  assert (w_dir w1 !! (fname +:+ ".bak") = Some i) as Db
    by (by rewrite D1, lookup_insert_ne, lookup_insert_eq).
  cbn zeta. split_and!; try done.
  - apply view_Some. exists i1. split; [done|]. by rewrite I1, lookup_insert_eq.
  - apply view_Some. by exists i.
  - exists tr. split; [done|]. eapply Forall_impl; [exact Ftr|].
    intros v (d & Id & ->). rewrite !snap_lookup, Df, Db. cbn.
    rewrite lookup_insert_eq, lookup_insert_ne by done. split; [done|].
    exists d. split; [done|]. by rewrite str_app_nil_l in Id.
  - apply view_Some. exists i. split; [by rewrite D2|]. by rewrite I2.
  - apply stream_Some in S2 as (d & p & Hd2 & Hp2 & E2).
    exists d. split; [apply view_Some; exists i1; by rewrite D2|].
    apply (initial_trans _ (d +:+ p)); [by exists p|].
    rewrite <- E2, str_app_nil_l.
    destruct (drop_body pat i i1 w1).1; [by destruct R2 as (_ & -> & _); apply initial_refl|].
    by destruct R2 as (? & _).
Qed.

(** C1 (as amended). When the two files of [inplace] are open and the body
    of the [with] statement in [drop_blocks] raises an exception of class
    [Exception], then [drop_blocks] ends with that exception, which is the
    one the environment raised, and afterwards the directory is the one
    before the call less a backup entry: the original path names the
    original inode with the original text, no backup file is left, the
    partially written file is linked nowhere, and no other file and nothing
    on the standard output has changed.  While the body ran, the original
    path named the new file, created empty on an inode of its own: in the
    state in which the body started, in every view of the file system the
    body left in the trace, and in the state in which it raised, the path
    holds an initial part of the text of the rewrite and the backup path
    holds the original text. *)
Theorem C1_rollback_restores_original (fname text : string) (pat : string → bool)
    (w w1 w2 : world) (readable writable : nat) (e : exn) :
  view w !! fname = Some text →
  enter fname w = (Ret (readable, writable), w1) →
  drop_body pat readable writable w1 = (Raise e, w2) →
  is_Exception e = true →
  (∃ w', drop_blocks fname pat w = (Raise e, w')
         ∧ (∃ k, w_fault w = Some (k, e))
         ∧ w_dir w' = delete (fname +:+ ".bak") (w_dir w)
         ∧ (∀ p i, w_dir w' !! p = Some i → w_ino w' !! i = w_ino w !! i)
         ∧ view w' !! fname = Some text
         ∧ view w' !! (fname +:+ ".bak") = None
         ∧ (∀ p, p ≠ fname +:+ ".bak" → view w' !! p = view w !! p)
         ∧ w_stdout w' = w_stdout w)
  ∧ w_dir w !! fname = Some readable ∧ writable ≠ readable
  ∧ w_dir w1 !! fname = Some writable ∧ w_dir w1 !! (fname +:+ ".bak") = Some readable
  ∧ w_dir w2 = w_dir w1
  ∧ view w1 !! fname = Some "" ∧ view w1 !! (fname +:+ ".bak") = Some text
  ∧ (∃ tr, w_trace w2 = w_trace w1 ++ tr
           ∧ Forall (λ v, v !! (fname +:+ ".bak") = Some text
                          ∧ ∃ partial, v !! fname = Some partial
                                       ∧ initial partial (drop_text pat text)) tr)
  ∧ view w2 !! (fname +:+ ".bak") = Some text
  ∧ ∃ partial, view w2 !! fname = Some partial ∧ initial partial (drop_text pat text).
Proof.
  intros Hv Hent Hbody He.
  pose proof (drop_body_views fname text pat w w1 readable writable Hv Hent) as V.
  cbn zeta in V. rewrite Hbody in V. cbn [snd] in V. split; [|exact V]. clear V.
  apply view_Some in Hv as (i0 & Hd & Hi). pose proof (bak_ne fname) as Hne.
  pose proof (enter_cases fname w i0 Hd) as C. rewrite Hent in C.
  destruct C as (-> & Hi1 & Hfr & D1 & I1 & P1 & O1 & F1).
  rename writable into i1.
  assert (stream i1 w1 = Some "") as S1
    by (unfold stream; by rewrite I1, P1, !lookup_insert_eq).
  destruct (confined_drop_body pat i0 i1 w1 "" S1) as ((D2 & O2 & I2) & (s' & S2 & R2) & _).
  rewrite Hbody in D2, O2, I2, S2, R2. cbn [fst snd] in *.
  destruct R2 as (_ & Q2 & Q2').
  destruct (guarded_rollback fname (drop_body pat) i0 i1 w1 w2 e Hbody He Q2')
    as (w' & E3 & D3 & O3 & F3 & I3).
  { by rewrite D2, D1, lookup_insert_ne, lookup_insert_eq. }
  assert (w_dir w' = delete (fname +:+ ".bak") (w_dir w)) as Hdir.
  { rewrite D3, D2, D1. apply map_eq. intros p.
    destruct (decide (p = fname)) as [->|Hp].
    - by rewrite lookup_insert_eq, lookup_delete_ne.
    - rewrite lookup_insert_ne by done.
      destruct (decide (p = fname +:+ ".bak")) as [->|Hp'].
      + by rewrite !lookup_delete_eq.
      + rewrite !lookup_delete_ne, !lookup_insert_ne, !lookup_delete_ne by done. done. }
  assert (∀ p i, w_dir w' !! p = Some i → w_ino w' !! i = w_ino w !! i) as Hino.
  { intros p i. rewrite Hdir. intros Hp.
    assert (p ≠ fname +:+ ".bak") as Hp' by (intros ->; by rewrite lookup_delete_eq in Hp).
    rewrite lookup_delete_ne in Hp by done.
    assert (i ≠ i1) as Hii.
    { destruct (decide (p = fname)) as [->|Hpf]; [congruence|eauto]. }
    by rewrite I3, I2, I1, lookup_insert_ne. }
  exists w'. split_and!.
  - by rewrite drop_blocks_unfold, inplace_split, Hent.
  - apply fault_exn_Some. congruence.
  - done.
  - done.
  - apply view_Some. exists i0. split.
    + by rewrite Hdir, lookup_delete_ne.
    + rewrite (Hino fname i0); [done|]. by rewrite Hdir, lookup_delete_ne.
  - by rewrite view_lookup, Hdir, lookup_delete_eq.
  - intros p Hp. rewrite !view_lookup, Hdir, lookup_delete_ne by done.
    destruct (w_dir w !! p) as [j|] eqn:Hj; [|done]. cbn.
    apply (Hino p). by rewrite Hdir, lookup_delete_ne.
  - congruence.
Qed.

(** What the [try] statement of [inplace] does not cover, after the rename.
    When the backup cannot be opened or the new file cannot be created,
    [drop_blocks] ends with the [OSError], the path is free and the
    original is under the backup path. *)
Lemma open_failure_is_not_rolled_back (fname text : string) (pat : string → bool)
    (w w1 : world) (e : exn) :
  view w !! fname = Some text →
  enter fname w = (Raise e, w1) →
  e = OSError
  ∧ drop_blocks fname pat w = (Raise OSError, w1)
  ∧ view w1 !! fname = None
  ∧ view w1 !! (fname +:+ ".bak") = Some text.
Proof.
  intros (i0 & Hd & Hi)%view_Some Hent. pose proof (bak_ne fname) as Hne.
  pose proof (enter_cases fname w i0 Hd) as C. rewrite Hent in C.
  destruct C as (-> & D1 & I1 & _). split_and!.
  - done.
  - by rewrite drop_blocks_unfold, inplace_split, Hent.
  - by rewrite view_lookup, D1, lookup_insert_ne, lookup_delete_eq.
  - apply view_Some. exists i0. by rewrite D1, I1, lookup_insert_eq.
Qed.

(** When the body returns and the flush of [writable.close()] fails,
    [drop_blocks] ends with the [OSError]: the path keeps the new file with
    the initial part of the text that had reached it, and the original
    stays under the backup path. *)
Lemma close_failure_is_not_rolled_back (fname text : string) (pat : string → bool)
    (w w1 w2 : world) (readable writable : nat) :
  view w !! fname = Some text →
  enter fname w = (Ret (readable, writable), w1) →
  drop_body pat readable writable w1 = (Ret tt, w2) →
  w_fault w2 = Some (0, OSError) →
  ∃ w', drop_blocks fname pat w = (Raise OSError, w')
        ∧ view w' = view w2
        ∧ view w' !! (fname +:+ ".bak") = Some text
        ∧ ∃ partial, view w' !! fname = Some partial
                     ∧ initial partial (drop_text pat text).
Proof.
  intros Hv Hent Hbody Q.
  pose proof (drop_body_views fname text pat w w1 readable writable Hv Hent) as V.
  cbn zeta in V. rewrite Hbody in V. cbn [snd] in V.
  destruct V as (Hd & Hi1 & Df & Db & D2 & _ & _ & _ & Vb & Vf).
  pose proof (enter_cases fname w readable Hd) as C. rewrite Hent in C.
  destruct C as (_ & _ & _ & _ & I1 & P1 & _).
  assert (stream writable w1 = Some "") as S1
    by (unfold stream; by rewrite I1, P1, !lookup_insert_eq).
  destruct (confined_drop_body pat readable writable w1 "" S1) as (_ & (s' & S2 & _) & _).
  rewrite Hbody in S2. cbn [snd] in S2.
  apply stream_Some in S2 as (d & p & _ & Hp & _).
  destruct (cleanup_fails fname writable w2 Q) as (w' & Ec & D3 & I3 & _); [by eexists|].
  exists w'.
  assert (view w' = view w2) as Ev by (unfold view; by rewrite D3, I3).
  split_and!; [|done|by rewrite Ev|by rewrite Ev].
  rewrite drop_blocks_unfold, inplace_split, Hent.
  unfold guarded, try_finally, try_except. by rewrite Hbody, Ec.
Qed.

(** C3 (as amended). In both modes a line is a block boundary exactly when
    the line, without its trailing newlines, begins with the separator
    token: on a fault-free run [show_blocks] prints the blocks that have a
    match and [drop_blocks] leaves the closed runs that have none, where
    blocks and runs are cut at the lines that the separator is a prefix of;
    whatever follows the token on such a line is dropped. *)
Theorem C3_boundary_is_prefix (fname text : string) (pat : string → bool) (w : world) :
  view w !! fname = Some text → w_fault w = None →
  (show_blocks fname pat w).1 = Ret tt
  ∧ w_stdout (show_blocks fname pat w).2
    = w_stdout w +:+
      serialize (filter (has_match pat) (segment (String.prefix SEP) (chomped text)))
  ∧ (drop_blocks fname pat w).1 = Ret tt
  ∧ view (drop_blocks fname pat w).2 !! fname
    = Some (serialize (filter (λ b, ¬ has_match pat b)
                         (flushed (String.prefix SEP) (chomped text))))
  ∧ ∀ line, String.prefix SEP line = true ↔ ∃ rest, line = SEP +:+ rest.
Proof.
  intros Hv Q.
  rewrite (show_blocks_run fname text pat w Hv Q).
  destruct (drop_blocks_run fname text pat w Hv Q) as (w' & -> & Hf & _).
  cbn [fst snd]. split_and!; try done.
  - unfold add_stdout. cbn. by rewrite show_text_spec.
  - by rewrite Hf, drop_text_spec.
  - intros line. apply prefix_spec.
Qed.

(** C5 (as amended). With the blocks of a text cut at the lines that begin
    with the separator token, as both loops cut them ([blocks]): on a
    fault-free run over the same file, the blocks [show_blocks] prints are
    the blocks of the file in which some line matches, the blocks of the
    file [drop_blocks] leaves are those in which no line matches, and
    together they are the blocks of the file, none twice and none missing. *)
Theorem C5_show_delete_partition (fname text : string) (pat : string → bool) (w : world) :
  view w !! fname = Some text → w_fault w = None →
  ∃ shown kept,
    w_stdout (show_blocks fname pat w).2 = w_stdout w +:+ shown
    ∧ view (drop_blocks fname pat w).2 !! fname = Some kept
    ∧ blocks shown = filter (has_match pat) (blocks text)
    ∧ blocks kept = filter (λ b, ¬ has_match pat b) (blocks text)
    ∧ blocks shown ++ blocks kept ≡ₚ blocks text
    ∧ ∀ b, (b ∈ blocks shown ↔ b ∈ blocks text ∧ has_match pat b)
           ∧ (b ∈ blocks kept ↔ b ∈ blocks text ∧ ¬ has_match pat b)
           ∧ ¬ (b ∈ blocks shown ∧ b ∈ blocks kept).
Proof.
  intros Hv Q. exists (show_text pat text), (drop_text pat text).
  rewrite (show_blocks_run fname text pat w Hv Q).
  destruct (drop_blocks_run fname text pat w Hv Q) as (w' & -> & Hf & _).
  cbn [fst snd]. rewrite blocks_show_text, blocks_drop_text.
  split_and!; try done.
  - apply filter_app_complement.
  - intros b. rewrite !list_elem_of_filter. tauto.
Qed.

(** C10 (as amended). With no [--file] argument, and exactly one of
    [--show] and [--delete] given a pattern that is not empty and that
    [re.compile] accepts, [main] prints nothing, touches no file and ends
    with an uncaught [TypeError]. *)
Theorem C10_no_file_list_TypeError (args : Args.t) (w : world) :
  Args.file args = None →
  xorb (truthy (Args.show args)) (truthy (Args.delete args)) = true →
  (truthy (Args.show args) = true → is_Some (re_compile (default "" (Args.show args)))) →
  (truthy (Args.delete args) = true → is_Some (re_compile (default "" (Args.delete args)))) →
  main args w = (Raise TypeError, w).
Proof.
  intros Hf Hx Hs Hdel. unfold main. rewrite Hf.
  destruct (truthy (Args.show args)) eqn:Ts, (truthy (Args.delete args)) eqn:Td;
    try discriminate Hx; cbn [andb negb].
  - destruct (Hs eq_refl) as [p Hp]. unfold compile. rewrite Hp. reflexivity.
  - destruct (Hdel eq_refl) as [p Hp]. unfold compile. rewrite Hp. reflexivity.
Qed.

End edit_claims.

Lemma C1_rollback_restores_original_witness :
  view failing_world !! "f" = Some two_blocks
  ∧ (enter "f" failing_world).1 = Ret (0, 1)
  ∧ (@drop_body (demo_env 100) no_match 0 1 (enter "f" failing_world).2).1 = Raise OSError
  ∧ is_Exception OSError = true
  ∧ ∃ w', failing_run = (Raise OSError, w')
          ∧ view w' !! "f" = Some two_blocks
          ∧ view w' !! "f.bak" = None.
Proof.
  assert (view failing_world !! "f" = Some two_blocks) as Hv by (vm_compute; reflexivity).
  assert (enter "f" failing_world = (Ret (0, 1), (enter "f" failing_world).2)) as Hent
    by (vm_compute; reflexivity).
  assert (@drop_body (demo_env 100) no_match 0 1 (enter "f" failing_world).2
          = (Raise OSError,
             (@drop_body (demo_env 100) no_match 0 1 (enter "f" failing_world).2).2))
    as Hbody by (vm_compute; reflexivity).
  split_and!; [exact Hv|by rewrite Hent|by rewrite Hbody|reflexivity|].
  destruct (@C1_rollback_restores_original (demo_env 100) "f" two_blocks no_match
              _ _ _ 0 1 OSError Hv Hent Hbody eq_refl)
    as [(w' & E & _ & _ & _ & Vf & Vb & _) _].
  exists w'. split_and!; [exact E|exact Vf|exact Vb].
Defined.

(** Where the claim of the specification fails.  An [OSError] raised after
    the rename, when the new file is to be created, is not rolled back: the
    path is left free and the original stays under the backup path.  An
    [OSError] of the flush in [writable.close()], here with a buffer of four
    characters, is not rolled back either: the path keeps what had reached
    the new file.  And while a rewrite is under way the path holds the new
    file: empty once it is created, and later an initial part of the text. *)
Lemma C1_counterexample_partial_file_at_original_path :
  (let r := @drop_blocks (demo_env 100) "f" no_match
              (demo_world "f" two_blocks (Some (1, OSError))) in
   r.1 = Raise OSError
   ∧ view r.2 !! "f" = None ∧ view r.2 !! "f.bak" = Some two_blocks)
  ∧ (let r := @drop_blocks (demo_env 4) "f" no_match
                (demo_world "f" one_block (Some (12, OSError))) in
     r.1 = Raise OSError
     ∧ view r.2 !! "f" = Some ("---" +:+ NL +:+ "---")
     ∧ view r.2 !! "f.bak" = Some one_block)
  ∧ (∃ v, v ∈ w_trace failing_run.2
          ∧ v !! "f" = Some "" ∧ v !! "f.bak" = Some two_blocks)
  ∧ (∃ v, v ∈ w_trace (@drop_blocks (demo_env 4) "f" no_match
                          (demo_world "f" one_block (Some (9, OSError)))).2
          ∧ v !! "f" = Some ("---" +:+ NL +:+ "---")
          ∧ v !! "f.bak" = Some one_block)
  ∧ drop_text no_match one_block = "---" +:+ NL +:+ one_block.
Proof.
  split_and!.
  - vm_compute. done.
  - vm_compute. done.
  - eexists. split; [|split].
    + apply list_elem_of_lookup. exists 1. vm_compute. reflexivity.
    + vm_compute. reflexivity.
    + vm_compute. reflexivity.
  - eexists. split; [|split].
    + apply list_elem_of_lookup. exists 2. vm_compute. reflexivity.
    + vm_compute. reflexivity.
    + vm_compute. reflexivity.
  - vm_compute. reflexivity.
Qed.

(** A [KeyboardInterrupt] is no [Exception]: only the [finally] clause runs,
    and it removes the backup. *)
Example keyboard_interrupt_loses_original :
  let r := @drop_blocks (demo_env 0) "f" no_match
             (demo_world "f" two_blocks (Some (5, KeyboardInterrupt))) in
  r.1 = Raise KeyboardInterrupt
  ∧ view r.2 !! "f" = Some ("---" +:+ NL)
  ∧ view r.2 !! "f.bak" = None.
Proof. vm_compute. done. Qed.

Lemma C3_boundary_is_prefix_witness :
  view (demo_world "f" two_blocks None) !! "f" = Some two_blocks
  ∧ w_fault (demo_world "f" two_blocks None) = None
  ∧ (@show_blocks (demo_env 100) "f" no_match (demo_world "f" two_blocks None)).1 = Ret tt.
Proof.
  assert (view (demo_world "f" two_blocks None) !! "f" = Some two_blocks)
    as Hv by (vm_compute; reflexivity).
  split_and!; [exact Hv|reflexivity|].
  exact (proj1 (@C3_boundary_is_prefix (demo_env 100) "f" two_blocks no_match
                  _ Hv eq_refl)).
Defined.

(** A line that begins with the separator and goes on is a boundary for the
    code: [show] prints the block of [B] alone and [delete] cuts the block
    of [A] out, where a segmenter that cuts at lines equal to the separator
    would see one block of three lines. *)
Lemma C3_counterexample_longer_line_is_boundary :
  w_stdout (@show_blocks (demo_env 100) "f" (str_in "B")
              (demo_world "f" dashed_text None)).2
  = "---" +:+ NL +:+ "B" +:+ NL
  ∧ serialize (filter (has_match (str_in "B"))
                 (segment (λ l, bool_decide (l = SEP)) (chomped dashed_text)))
    = "---" +:+ NL +:+ dashed_text
  ∧ view (@drop_blocks (demo_env 100) "f" (str_in "A")
            (demo_world "f" dashed_text None)).2 !! "f"
    = Some ("---" +:+ NL +:+ "B" +:+ NL)
  ∧ serialize (filter (λ b, ¬ has_match (str_in "A") b)
                 (segment (λ l, bool_decide (l = SEP)) (chomped dashed_text)))
    = "".
Proof. split_and!; vm_compute; reflexivity. Qed.

(** C4. [--delete] with a pattern that matches nothing, on a file of one
    block: the rewritten file starts with a separator line that no content
    line follows. *)
Theorem C4_delete_writes_empty_block :
  let r := @main (demo_env 100) (Args.mk None (Some "zzz") (Some ["f"]))
             (demo_world "f" one_block None) in
  r.1 = Ret tt
  ∧ view r.2 !! "f" = Some ("---" +:+ NL +:+ "---" +:+ NL +:+ "A" +:+ NL)
  ∧ (chomped <$> view r.2 !! "f") = Some ["---"; "---"; "A"].
Proof. vm_compute. done. Qed.

Lemma C5_show_delete_partition_witness :
  view (demo_world "f" two_blocks None) !! "f" = Some two_blocks
  ∧ w_fault (demo_world "f" two_blocks None) = None
  ∧ ∃ shown kept,
      w_stdout (@show_blocks (demo_env 100) "f" (str_in "A")
                  (demo_world "f" two_blocks None)).2 = "" +:+ shown
      ∧ view (@drop_blocks (demo_env 100) "f" (str_in "A")
                (demo_world "f" two_blocks None)).2 !! "f" = Some kept
      ∧ blocks shown ++ blocks kept ≡ₚ blocks two_blocks.
Proof.
  assert (view (demo_world "f" two_blocks None) !! "f" = Some two_blocks)
    as Hv by (vm_compute; reflexivity).
  split_and!; [exact Hv|reflexivity|].
  destruct (@C5_show_delete_partition (demo_env 100) "f" two_blocks (str_in "A")
              _ Hv eq_refl) as (shown & kept & Hs & Hk & _ & _ & Hp & _).
  exists shown, kept. split_and!; [exact Hs|exact Hk|exact Hp].
Defined.

(** With the blocks cut at the lines equal to the separator the partition
    fails.  The text [dashed_text] is then one block of three lines, in
    which a line matches [B]; yet [show] prints the line [B] alone, which is
    no block of the file, and [delete] keeps the line [A] of the block that
    matched. *)
Lemma C5_counterexample_line_beginning_with_separator :
  let w := demo_world "f" dashed_text None in
  let shown := w_stdout (@show_blocks (demo_env 100) "f" (str_in "B") w).2 in
  let kept := view (@drop_blocks (demo_env 100) "f" (str_in "B") w).2 !! "f" in
  spec_blocks dashed_text = [["A"; "--- x"; "B"]]
  ∧ has_match (str_in "B") ["A"; "--- x"; "B"]
  ∧ shown = "---" +:+ NL +:+ "B" +:+ NL
  ∧ spec_blocks shown = [["B"]]
  ∧ kept = Some ("---" +:+ NL +:+ "A" +:+ NL)
  ∧ spec_blocks (default "" kept) = [["A"]]
  ∧ spec_blocks shown ≠ filter (has_match (str_in "B")) (spec_blocks dashed_text)
  ∧ spec_blocks (default "" kept)
    ≠ filter (λ b, ¬ has_match (str_in "B") b) (spec_blocks dashed_text)
  ∧ ¬ (spec_blocks shown ++ spec_blocks (default "" kept) ≡ₚ spec_blocks dashed_text).
Proof.
  cbn zeta.
  assert (spec_blocks dashed_text = [["A"; "--- x"; "B"]]) as E0
    by (vm_compute; reflexivity).
  assert (w_stdout (@show_blocks (demo_env 100) "f" (str_in "B")
                      (demo_world "f" dashed_text None)).2
          = "---" +:+ NL +:+ "B" +:+ NL) as E1 by (vm_compute; reflexivity).
  assert (view (@drop_blocks (demo_env 100) "f" (str_in "B")
                  (demo_world "f" dashed_text None)).2 !! "f"
          = Some ("---" +:+ NL +:+ "A" +:+ NL)) as E2 by (vm_compute; reflexivity).
  assert (has_match (str_in "B") ["A"; "--- x"; "B"]) as M
    by (unfold has_match; do 2 apply Exists_cons_tl; by apply Exists_cons_hd).
  rewrite E0, E1, E2. cbn [default from_option id].
  assert (spec_blocks ("---" +:+ NL +:+ "B" +:+ NL) = [["B"]]) as E3
    by (vm_compute; reflexivity).
  assert (spec_blocks ("---" +:+ NL +:+ "A" +:+ NL) = [["A"]]) as E4
    by (vm_compute; reflexivity).
  rewrite E3, E4.
  split_and!; [reflexivity|exact M|reflexivity|reflexivity|reflexivity|reflexivity| | |].
  - rewrite filter_cons, decide_True by exact M. discriminate.
  - rewrite filter_cons, decide_False by (intros N; exact (N M)). discriminate.
  - intros P%Permutation_length. discriminate P.
Qed.

(** A delete that matches nothing puts one more separator line in front of
    a file of well-formed blocks. *)
Lemma drop_trailing_empty_id (bs : list (list string)) :
  Forall (λ b, b ≠ []) bs → drop_trailing_empty bs = bs.
Proof.
  induction 1 as [|b bs Hb Hbs IH]; [done|]. cbn [drop_trailing_empty].
  destruct bs as [|b' bs]; [by rewrite bool_decide_false|]. by rewrite IH.
Qed.

Lemma filter_no_match (pat : string → bool) (bs : list (list string)) :
  Forall (Forall (λ l, pat l = false)) bs →
  filter (λ b, ¬ has_match pat b) bs = bs.
Proof.
  induction 1 as [|b bs Hb Hbs IH]; [done|]. rewrite filter_cons, decide_True, IH; [done|].
  unfold has_match. rewrite Exists_exists. intros (l & Hl & Hm).
  rewrite Forall_forall in Hb. specialize (Hb l Hl). congruence.
Qed.

Lemma delete_prepends_separator (pat : string → bool) (bs : list (list string)) :
  bs ≠ [] →
  Forall (λ b, b ≠ []) bs →
  Forall (Forall (λ l, newline_free l = true ∧ String.prefix SEP l = false)) bs →
  Forall (Forall (λ l, pat l = false)) bs →
  drop_text pat (serialize bs) = SEP +:+ NL +:+ serialize bs.
Proof.
  intros Hne Hfull Hok Hpat. rewrite drop_text_spec. unfold flushed.
  rewrite chomped_serialize.
  2:{ eapply Forall_impl; [exact Hok|]. intros b Hb.
      eapply Forall_impl; [exact Hb|]. by intros l [? ?]. }
  rewrite groups_blocks; [|done|].
  2:{ eapply Forall_impl; [exact Hok|]. intros b Hb.
      eapply Forall_impl; [exact Hb|]. by intros l [? ?]. }
  destruct bs as [|b bs]; [done|].
  change (drop_trailing_empty ([] :: b :: bs)) with ([] :: drop_trailing_empty (b :: bs)).
  rewrite drop_trailing_empty_id by done.
  rewrite filter_no_match by (constructor; [constructor|done]).
  reflexivity.
Qed.

(** C6. [--delete] with a pattern that matches nothing, on the file of two
    blocks of the specification: the file is not left as it was, it has one
    more separator line at its start. *)
Theorem C6_delete_without_match_changes_file :
  let r := @main (demo_env 100) (Args.mk None (Some "Z") (Some ["f"]))
             (demo_world "f" two_blocks None) in
  r.1 = Ret tt
  ∧ view r.2 !! "f" = Some ("---" +:+ NL +:+ two_blocks)
  ∧ view r.2 !! "f" ≠ Some two_blocks.
Proof. vm_compute. split_and!; [done|done|discriminate]. Qed.

Lemma C10_no_file_list_TypeError_witness :
  @main (demo_env 100) (Args.mk None (Some "A") None) (demo_world "f" two_blocks None)
  = (Raise TypeError, demo_world "f" two_blocks None).
Proof.
  apply (@C10_no_file_list_TypeError (demo_env 100)); [reflexivity|reflexivity| |].
  - discriminate.
  - intros _. vm_compute. by eexists.
Defined.

(** An empty pattern counts as no pattern and gets the usage message and
    exit status 1; a pattern [re.compile] rejects ends in [re.error] before
    the file list is looked at. *)
Lemma C10_counterexample_empty_or_invalid_pattern :
  @main (demo_env 100) (Args.mk (Some "") None None) (demo_world "f" two_blocks None)
  = (Raise (SystemExit 1),
     add_stdout ("must pass one of --show or --delete" +:+ NL)
       (demo_world "f" two_blocks None))
  ∧ (@main (demo_env 100) (Args.mk None (Some "(") None)
       (demo_world "f" two_blocks None)).1
    = Raise re_error.
Proof. split; vm_compute; reflexivity. Qed.

(** * Proofs: the records [harvest.py] prints *)

Section printed_records.

Context `{Platform}.

(** The lines printed for a record: the separator line, then lines that
    begin with a tab, the description and the URL first. *)
Lemma dump_shape (p : Paper.t) :
  ∃ names, Paper.dump p = "---" :: (TAB +:+ Paper.desc p) :: (TAB +:+ Paper.url p) :: names
           ∧ Forall (λ l, ∃ x, l = TAB +:+ x) names.
Proof.
  eexists. split; [reflexivity|].
  repeat apply Forall_app_2; (case_bool_decide; [|constructor]);
    (constructor; [by eexists|constructor]).
Qed.

Lemma tab_line_ne_sep (x : string) : TAB +:+ x ≠ "---".
Proof. done. Qed.

Lemma tab_line_not_sep (x : string) : bool_decide (TAB +:+ x = "---") = false.
Proof. apply bool_decide_eq_false, tab_line_ne_sep. Qed.

Lemma segment_printed (kept : list Paper.t) :
  segment (λ l, bool_decide (l = "---")) (mjoin (Paper.dump <$> kept))
  = (λ p, tail (Paper.dump p)) <$> kept.
Proof.
  assert (mjoin (Paper.dump <$> kept)
          = mjoin ((λ b, Edit.SEP :: b) <$> ((λ p, tail (Paper.dump p)) <$> kept))) as ->.
  { induction kept as [|p kept IH]; [done|]. rewrite !fmap_cons.
    change (mjoin (?a :: ?l)) with (a ++ mjoin l). by rewrite IH. }
  unfold segment. rewrite groups_blocks; [|done|].
  - rewrite filter_cons, decide_False by tauto.
    induction kept as [|p kept IH]; [done|]. rewrite fmap_cons, filter_cons, IH.
    destruct (dump_shape p) as (names & -> & _). by rewrite decide_True.
  - apply Forall_fmap, Forall_forall. intros p _.
    change (Forall (λ l, bool_decide (l = "---") = false) (tail (Paper.dump p))).
    destruct (dump_shape p) as (names & -> & Hn). cbn [tail].
    repeat (constructor; [apply tab_line_not_sep|]).
    eapply Forall_impl; [exact Hn|]. intros l [x ->]. apply tab_line_not_sep.
Qed.

(** C7. With both blacklist files readable, [dump] prints the records that
    are not excluded, in the iteration order of the dictionary, and nothing
    else; a record is excluded exactly when some entry of the publisher
    blacklist occurs in its URL or some entry of the topic blacklist occurs
    in its lower-cased description.  In terms of the lines printed: cut at
    the separator lines, they are one group of lines for each record that is
    not excluded, in the order of the dictionary, and the group of a record
    begins with its description and its URL behind a tab; a record of the
    dictionary has its URL line in the second place of a group exactly when
    it is not excluded. *)
Theorem C7_dump_filters (evs : list event) (nonfree_text topic_text : string) :
  read_file "nonfree-blacklist.txt" = Some nonfree_text →
  read_file "topic-blacklist.txt" = Some topic_text →
  let records := (ScholarScraper.papers (run evs)).*2 in
  let nonfree := ScholarScraper.load_blacklist nonfree_text in
  let topic := ScholarScraper.load_blacklist topic_text in
  let kept := filter (λ p, ¬ excluded nonfree topic p) records in
  ScholarScraper.dump (run evs) = Ret (mjoin (Paper.dump <$> kept))
  ∧ kept `sublist_of` records
  ∧ (∀ p, p ∈ records →
      (p ∉ kept ↔
         (∃ b, b ∈ nonfree ∧ str_in b (Paper.url p) = true)
         ∨ (∃ t, t ∈ topic ∧ str_in t (lower (Paper.desc p)) = true)))
  ∧ ∃ printed,
      ScholarScraper.dump (run evs) = Ret printed
      ∧ segment (λ l, bool_decide (l = "---")) printed
        = (λ p, tail (Paper.dump p)) <$> kept
      ∧ (λ g, take 2 g) <$> segment (λ l, bool_decide (l = "---")) printed
        = (λ p, [TAB +:+ Paper.desc p; TAB +:+ Paper.url p]) <$> kept
      ∧ length (filter (λ l, l = "---") printed) = length kept
      ∧ (∀ p, ∃ names,
           Paper.dump p
           = "---" :: (TAB +:+ Paper.desc p) :: (TAB +:+ Paper.url p) :: names)
      ∧ ∀ p, p ∈ records →
          ((∃ g, g ∈ segment (λ l, bool_decide (l = "---")) printed
                 ∧ g !! 1 = Some (TAB +:+ Paper.url p))
           ↔ ¬ ((∃ b, b ∈ nonfree ∧ str_in b (Paper.url p) = true)
                ∨ (∃ t, t ∈ topic ∧ str_in t (lower (Paper.desc p)) = true))).
Proof.
  intros Hn Ht. cbn zeta.
  set (nonfree := ScholarScraper.load_blacklist nonfree_text).
  set (topic := ScholarScraper.load_blacklist topic_text).
  set (kept := filter (λ p, ¬ excluded nonfree topic p)
                 (ScholarScraper.papers (run evs)).*2).
  assert (ScholarScraper.dump (run evs) = Ret (mjoin (Paper.dump <$> kept))) as Hdump.
  { unfold ScholarScraper.dump. rewrite Hn, Ht. f_equal.
    apply dump_body_filter. intros u p. apply run_url. }
  assert (∀ p, excluded nonfree topic p
               ↔ (∃ b, b ∈ nonfree ∧ str_in b (Paper.url p) = true)
                 ∨ (∃ t, t ∈ topic ∧ str_in t (lower (Paper.desc p)) = true)) as Hex.
  { intros p. unfold excluded. by rewrite !Exists_exists. }
  split_and!.
  - exact Hdump.
  - apply sublist_filter.
  - intros p Hp. rewrite <- Hex. unfold kept. rewrite list_elem_of_filter. split.
    + intros N. destruct (decide (excluded nonfree topic p)) as [E|E]; [done|].
      destruct N. by split.
    + intros E [N _]. by apply N.
  - exists (mjoin (Paper.dump <$> kept)). split_and!.
    + exact Hdump.
    + apply segment_printed.
    + rewrite segment_printed, <- list_fmap_compose. apply list_fmap_ext.
      intros _ p _. reflexivity.
    + clear Hdump. induction kept as [|p kept IH]; [done|]. rewrite fmap_cons.
      change (mjoin (?a :: ?l)) with (a ++ mjoin l).
      rewrite filter_app, length_app, IH. cbn [length]. f_equal.
      destruct (dump_shape p) as (names & -> & Hnames).
      rewrite filter_cons, decide_True by done.
      rewrite filter_cons, decide_False by apply tab_line_ne_sep.
      rewrite filter_cons, decide_False by apply tab_line_ne_sep.
      assert (filter (λ l, l = "---") names = []) as ->; [|done].
      induction Hnames as [|l names [x ->] _ IHn]; [done|].
      by rewrite filter_cons, decide_False by apply tab_line_ne_sep.
    + intros p. destruct (dump_shape p) as (names & E & _). by exists names.
    + intros p Hp. rewrite <- Hex, segment_printed. split.
      * intros (g & (q & -> & Hq)%list_elem_of_fmap & Hg).
        destruct (dump_shape q) as (names & Eq & _). rewrite Eq in Hg. cbn in Hg.
        injection Hg as Hu. change (Paper.url q = Paper.url p) in Hu.
        apply list_elem_of_filter in Hq as [Hq Hq'].
        apply list_elem_of_fmap in Hp as ([u p'] & -> & Hin).
        apply list_elem_of_fmap in Hq' as ([u' q'] & -> & Hin'). cbn in *.
        pose proof (run_url evs u p' Hin) as U.
        pose proof (run_url evs u' q' Hin') as U'.
        apply get_elem_of in Hin, Hin'; try apply run_NoDup.
        assert (u' = u) as -> by congruence.
        assert (q' = p') as -> by congruence. done.
      * intros N. exists (tail (Paper.dump p)). split.
        -- apply list_elem_of_fmap. exists p. split; [done|].
           unfold kept. by apply list_elem_of_filter.
        -- by destruct (dump_shape p) as (names & -> & _).
Qed.

End printed_records.

Lemma C7_dump_filters_witness :
  @ScholarScraper.dump demo_platform (@run demo_platform demo_run)
  = Ret ["---"; TAB +:+ "Paper One"; TAB +:+ "http://x.org/p1";
         TAB +:+ "author: Ada"; TAB +:+ "citing: Bob"].
Proof.
  rewrite (proj1 (@C7_dump_filters demo_platform demo_run
                    ("springer" +:+ NL +:+ NL +:+ "  elsevier " +:+ NL)
                    ("blockchain" +:+ NL) eq_refl eq_refl)).
  vm_compute. reflexivity.
Defined.

(** * Further properties *)

Section harvest_extras.

Context `{Platform}.

Lemma elem_of_names c u g obs :
  g ∈ names c u obs ↔ ∃ o, o ∈ obs ∧ o_url o = u ∧ g ∈ contrib c o.
Proof.
  induction obs as [|o obs IH]; cbn [names].
  - split; [by intros ?%not_elem_of_empty|]. by intros (o & ?%elem_of_nil & _).
  - rewrite elem_of_union, IH. split.
    + intros [Hg|(o' & Ho & Hu & Hg)].
      * case_bool_decide; [|by apply not_elem_of_empty in Hg].
        exists o. split_and!; [by left|done|done].
      * exists o'. split_and!; [by right|done|done].
    + intros (o' & [->|Ho]%elem_of_cons & Hu & Hg).
      * left. by rewrite bool_decide_true.
      * right. by exists o'.
Qed.

Lemma elem_of_contrib c g o :
  g ∈ contrib c o ↔
  ∃ s, o_subject o = Some s
       ∧ match c with
         | AuthorWatch => author_rx s = Some g
         | CitationWatch => citing_rx s = Some g
         | RelatedWatch => related_rx s = Some g
         end.
Proof.
  unfold contrib. destruct (o_subject o) as [s|].
  2:{ split; [by intros ?%not_elem_of_empty|]. by intros (s & ? & _). }
  transitivity (match c with
                | AuthorWatch => author_rx s = Some g
                | CitationWatch => citing_rx s = Some g
                | RelatedWatch => related_rx s = Some g
                end).
  2:{ split; [by exists s|]. by intros (s' & [= <-] & ?). }
  destruct (note_subject_cases s (Paper.init "" ""))
    as [(g' & Ea & Ec & Er & ->)|[(g' & Ea & Ec & Er & ->)|[(g' & Ea & Ec & Er & ->)
       |(Ea & Ec & Er & ->)]]];
    destruct c; cbn; rewrite ?Ea, ?Ec, ?Er;
    rewrite ?elem_of_union, ?elem_of_singleton, ?elem_of_empty;
    split; try (intros [= ->]); try tauto; try (intros [->|[]]); try done; auto.
Qed.

(** X1. The three name sets of a record hold exactly the names captured from
    the subjects under which its URL was observed: a name is in the author
    set when some observation of the URL came with a subject that the
    author pattern matches with that name, and likewise for the two other
    sets. *)
Theorem names_are_the_matching_subjects (evs : list event) (u g : string) (p : Paper.t) :
  PyDict.get u (ScholarScraper.papers (run evs)) = Some p →
  (g ∈ Paper.author p ↔
     ∃ s text, Obs (Some s) u text ∈ observed ScholarScraper.init evs
               ∧ author_rx s = Some g)
  ∧ (g ∈ Paper.citing p ↔
     ∃ s text, Obs (Some s) u text ∈ observed ScholarScraper.init evs
               ∧ citing_rx s = Some g)
  ∧ (g ∈ Paper.related p ↔
     ∃ s text, Obs (Some s) u text ∈ observed ScholarScraper.init evs
               ∧ related_rx s = Some g).
Proof.
  intros G.
  assert (∀ c, names_of c p = names c u (observed ScholarScraper.init evs)) as N.
  { intros c. pose proof (fold_note_names c (observed ScholarScraper.init evs) [] u) as F.
    rewrite <- run_papers, G in F. cbn in F. case_bool_decide; congruence. }
  assert (∀ c, g ∈ names_of c p ↔
            ∃ s text, Obs (Some s) u text ∈ observed ScholarScraper.init evs
                      ∧ match c with
                        | AuthorWatch => author_rx s = Some g
                        | CitationWatch => citing_rx s = Some g
                        | RelatedWatch => related_rx s = Some g
                        end) as M.
  { intros c. rewrite N, elem_of_names. split.
    - intros ([s' u' text] & Ho & Hu & (s & Hs & Hm)%elem_of_contrib).
      cbn in *. subst. by exists s, text.
    - intros (s & text & Ho & Hm). exists (Obs (Some s) u text).
      split_and!; [done|done|]. apply elem_of_contrib. by exists s. }
  split_and!; [apply (M AuthorWatch)|apply (M CitationWatch)|apply (M RelatedWatch)].
Qed.

Lemma fold_note_keeps obs d u p :
  PyDict.get u d = Some p →
  ∃ p', PyDict.get u (fold_left note obs d) = Some p'
        ∧ Paper.url p' = Paper.url p ∧ Paper.desc p' = Paper.desc p
        ∧ ∀ c, names_of c p ⊆ names_of c p'.
Proof.
  revert d p. induction obs as [|o obs IH]; intros d p G; cbn [fold_left].
  - exists p. by split_and!.
  - destruct (IH (note d o) (if bool_decide (o_url o = u)
                             then maybe_note (o_subject o) p else p))
      as (p' & G' & U & D & N).
    { rewrite get_note, G. by case_bool_decide. }
    exists p'. split; [done|]. case_bool_decide.
    + unfold maybe_note in *. destruct (o_subject o) as [s|]; [|by split_and!].
      rewrite note_subject_url in U. rewrite note_subject_desc in D.
      split_and!; [done|done|]. intros c. etrans; [|apply N].
      rewrite note_subject_names. set_solver.
    + by split_and!.
Qed.

Lemma fold_note_keys_app obs d :
  ∃ new, PyDict.keys (fold_left note obs d) = PyDict.keys d ++ new.
Proof.
  revert d. induction obs as [|o obs IH]; intros d; cbn [fold_left].
  - exists []. by rewrite (right_id_L [] (++)).
  - destruct (IH (note d o)) as [new E]. rewrite E, keys_note.
    destruct (PyDict.contains (o_url o) d).
    + by exists new.
    + exists (o_url o :: new). by rewrite <- (assoc_L (++)).
Qed.

(** X2. Records are only ever added and extended: whatever events follow,
    the URLs already in the dictionary stay where they are in its order with
    new ones after them, and a record that exists keeps its URL and its
    description and loses no name from any of its three sets. *)
Theorem records_only_grow (self : ScholarScraper.t) (evs : list event) :
  (∃ new, PyDict.keys (ScholarScraper.papers (run_from self evs))
          = PyDict.keys (ScholarScraper.papers self) ++ new)
  ∧ ∀ u p, PyDict.get u (ScholarScraper.papers self) = Some p →
      ∃ p', PyDict.get u (ScholarScraper.papers (run_from self evs)) = Some p'
            ∧ Paper.url p' = Paper.url p ∧ Paper.desc p' = Paper.desc p
            ∧ Paper.author p ⊆ Paper.author p'
            ∧ Paper.citing p ⊆ Paper.citing p'
            ∧ Paper.related p ⊆ Paper.related p'.
Proof.
  rewrite run_from_papers. split; [apply fold_note_keys_app|].
  intros u p G.
  destruct (fold_note_keeps (observed self evs) _ u p G) as (p' & G' & U & D & N).
  exists p'. split_and!; try done.
  - apply (N AuthorWatch).
  - apply (N CitationWatch).
  - apply (N RelatedWatch).
Qed.

Lemma observed_none (self : ScholarScraper.t) (evs : list event) :
  ScholarScraper.pending_url self = None →
  Forall (λ ev, title_anchor ev = false) evs →
  observed self evs = [] ∧ ScholarScraper.pending_url (run_from self evs) = None.
Proof.
  unfold run_from. revert self. induction evs as [|ev evs IH]; intros self P F; [done|].
  apply Forall_cons in F as [Hev F]. cbn [observed fold_left].
  assert (ScholarScraper.pending_url (step self ev) = None) as P'.
  { destruct ev as [s|tag attrs|tag|data]; cbn.
    - done.
    - unfold ScholarScraper.handle_starttag. cbn in Hev.
      destruct (bool_decide (tag = "a")); [|done].
      destruct (bool_decide (ScholarScraper.attr_get "class" attrs = _)); [|done].
      cbn in *. apply bool_decide_eq_false in Hev.
      destruct (_ ≫= _) as [u'|]; [|done]. destruct Hev. by eexists.
    - unfold ScholarScraper.handle_endtag. by rewrite P.
    - unfold ScholarScraper.handle_data. by rewrite P. }
  destruct (IH _ P' F) as [-> ?]. split; [|done].
  rewrite P. by destruct ev.
Qed.

(** X3. Text is recorded between a title anchor and the next end tag only:
    from a state with no URL pending, events among which no start tag is a
    title anchor with a [url] parameter leave the dictionary as it is; and
    any end tag brings the scraper into such a state, whatever its tag. *)
Theorem no_record_without_title_anchor (self : ScholarScraper.t) (evs : list event) :
  Forall (λ ev, title_anchor ev = false) evs →
  (ScholarScraper.pending_url self = None →
     ScholarScraper.papers (run_from self evs) = ScholarScraper.papers self)
  ∧ (∀ tag, ScholarScraper.papers
              (run_from (ScholarScraper.handle_endtag tag self) evs)
            = ScholarScraper.papers self).
Proof.
  intros F. split.
  - intros P. rewrite run_from_papers.
    destruct (observed_none self evs P F) as [-> _]. reflexivity.
  - intros tag. rewrite run_from_papers.
    assert (ScholarScraper.pending_url (ScholarScraper.handle_endtag tag self) = None) as P.
    { unfold ScholarScraper.handle_endtag.
      by destruct (ScholarScraper.pending_url self) eqn:E. }
    destruct (observed_none _ evs P F) as [-> _]. cbn [fold_left].
    clear P. unfold ScholarScraper.handle_endtag.
    by destruct (ScholarScraper.pending_url self).
Qed.

End harvest_extras.

Lemma names_are_the_matching_subjects_witness :
  PyDict.get "http://x.org/p1" (ScholarScraper.papers (@run demo_platform demo_run))
  = Some (Paper.mk "http://x.org/p1" "Paper One" {["Ada"]} {["Bob"]} ∅)
  ∧ ("Bob" ∈ ({["Bob"]} : gset string) ↔
     ∃ s text, Obs (Some s) "http://x.org/p1" text
                 ∈ observed (H := demo_platform) ScholarScraper.init demo_run
               ∧ citing_rx s = Some "Bob").
Proof.
  assert (PyDict.get "http://x.org/p1" (ScholarScraper.papers (@run demo_platform demo_run))
          = Some (Paper.mk "http://x.org/p1" "Paper One" {["Ada"]} {["Bob"]} ∅)) as G
    by (vm_compute; reflexivity).
  split; [exact G|].
  exact (proj1 (proj2 (@names_are_the_matching_subjects demo_platform demo_run
                         "http://x.org/p1" "Bob" _ G))).
Defined.

Lemma no_record_without_title_anchor_witness :
  Forall (λ ev, @title_anchor demo_platform ev = false)
    [StartTag "b" []; Data "not a title"; EndTag "b"]
  ∧ ScholarScraper.papers
      (@run_from demo_platform (ScholarScraper.handle_endtag "a" (@run demo_platform demo_mail_1))
         [StartTag "b" []; Data "not a title"; EndTag "b"])
    = ScholarScraper.papers (@run demo_platform demo_mail_1).
Proof.
  assert (Forall (λ ev, @title_anchor demo_platform ev = false)
            [StartTag "b" []; Data "not a title"; EndTag "b"]) as F
    by (repeat constructor).
  split; [exact F|].
  exact (proj2 (@no_record_without_title_anchor demo_platform _ _ F) "a").
Defined.

Lemma lstrip_head (s : string) (c : ascii) (rest : string) :
  lstrip s = String c rest → isspace c = false.
Proof.
  induction s as [|c' s IH]; [done|]. cbn [lstrip].
  destruct (isspace c') eqn:E; [done|]. by intros [= <- _].
Qed.

Lemma lstrip_suffix (s : string) : ∃ pre, s = pre +:+ lstrip s.
Proof.
  induction s as [|c s [pre IH]]; [by exists ""|]. cbn [lstrip].
  destruct (isspace c).
  - exists (String c pre). by rewrite str_app_cons, <- IH.
  - by exists "".
Qed.

Lemma rstrip_last (s : string) (c : ascii) :
  last_char (rstrip s) = Some c → isspace c = false.
Proof.
  unfold last_char. induction s as [|c' s IH]; [done|]. cbn [rstrip].
  destruct (decide (rstrip s = "")) as [E|E].
  - rewrite E, bool_decide_true by done. cbn [andb].
    destruct (isspace c') eqn:S; [done|]. cbn. by intros [= <-].
  - rewrite bool_decide_false by done. cbn [andb list_ascii_of_string].
    destruct (rstrip s) as [|c'' r]; [done|]. cbn [list_ascii_of_string] in *.
    by rewrite last_cons_cons.
Qed.

Lemma strip_last (s : string) (c : ascii) :
  last_char (strip s) = Some c → isspace c = false.
Proof.
  unfold strip. destruct (lstrip_suffix (rstrip s)) as [pre E]. intros L.
  apply (rstrip_last s). rewrite E, last_char_app; [done|].
  intros Z. by rewrite Z in L.
Qed.

(** X4. The entries of a blacklist are the lines of its file with the white
    space at both ends removed, blank lines left out: no entry is the empty
    string (which every URL and every description contains), and no entry
    begins or ends with a white-space character. *)
Theorem blacklist_entries_are_stripped (text : string) :
  Forall (λ b, b ≠ ""
               ∧ (∀ c rest, b = String c rest → isspace c = false)
               ∧ (∀ c, last_char b = Some c → isspace c = false))
    (ScholarScraper.load_blacklist text)
  ∧ ∀ hay, str_in "" hay = true.
Proof.
  split.
  - unfold ScholarScraper.load_blacklist. apply Forall_fmap, Forall_forall.
    intros line [Hne _]%list_elem_of_filter. cbn. split_and!.
    + done.
    + intros c rest E. by apply (lstrip_head (rstrip line) c rest).
    + apply strip_last.
  - intros [|c hay]; reflexivity.
Qed.

Lemma universal_newlines_cr_free (s : string) :
  cr_free s = true → universal_newlines s = s.
Proof.
  induction s as [|c s IH]; [done|]. cbn [cr_free universal_newlines].
  intros [Hc Hs]%andb_true_iff. apply negb_true_iff in Hc. rewrite Hc.
  by rewrite IH.
Qed.

Lemma cr_free_app (a b : string) : cr_free (a +:+ b) = cr_free a && cr_free b.
Proof.
  induction a as [|c a IH]; [done|]. rewrite str_app_cons. cbn [cr_free].
  by rewrite IH, andb_assoc.
Qed.

Lemma cr_free_concat (sep : string) (l : list string) :
  cr_free sep = true → Forall (λ x, cr_free x = true) l →
  cr_free (String.concat sep l) = true.
Proof.
  intros Hs. induction 1 as [|x l Hx Hl IH]; [done|]. cbn [String.concat].
  destruct l as [|y l]; [done|].
  change (cr_free (x +:+ sep +:+ String.concat sep (y :: l)) = true).
  by rewrite !cr_free_app, Hx, Hs, IH.
Qed.

Lemma cr_free_join_lines (ls : list string) :
  Forall (λ l, cr_free l = true) ls → cr_free (join_lines ls) = true.
Proof.
  induction 1 as [|l ls Hl Hls IH]; [done|].
  rewrite join_lines_cons, !cr_free_app, Hl, IH. done.
Qed.

Lemma newline_free_app (a b : string) :
  newline_free (a +:+ b) = newline_free a && newline_free b.
Proof.
  induction a as [|c a IH]; [done|]. rewrite str_app_cons. cbn [newline_free].
  by rewrite IH, andb_assoc.
Qed.

Lemma newline_free_concat (sep : string) (l : list string) :
  newline_free sep = true → Forall (λ x, newline_free x = true) l →
  newline_free (String.concat sep l) = true.
Proof.
  intros Hs. induction 1 as [|x l Hx Hl IH]; [done|]. cbn [String.concat].
  destruct l as [|y l]; [done|].
  change (newline_free (x +:+ sep +:+ String.concat sep (y :: l)) = true).
  by rewrite !newline_free_app, Hx, Hs, IH.
Qed.

Lemma join_lines_app (a b : list string) :
  join_lines (a ++ b) = join_lines a +:+ join_lines b.
Proof.
  induction a as [|l a IH]; [done|]. cbn [app]. rewrite !join_lines_cons, IH.
  by rewrite !str_app_assoc.
Qed.

Section round_trip.

Context `{Platform}.

Lemma run_names (evs : list event) (u : string) (p : Paper.t) (c : category) :
  PyDict.get u (ScholarScraper.papers (run evs)) = Some p →
  names_of c p = names c u (observed ScholarScraper.init evs).
Proof.
  intros G. pose proof (fold_note_names c (observed ScholarScraper.init evs) [] u) as F.
  rewrite <- run_papers, G in F. cbn in F. case_bool_decide; congruence.
Qed.

Lemma names_newline_free (c : category) (u : string) (obs : list observation) (g : string) :
  g ∈ names c u obs → newline_free g = true.
Proof.
  induction obs as [|o obs IH]; cbn [names]; [by intros ?%not_elem_of_empty|].
  intros [Hg|Hg]%elem_of_union; [|by apply IH].
  case_bool_decide; [|by apply not_elem_of_empty in Hg].
  unfold contrib in Hg. destruct (o_subject o) as [s|]; [|by apply not_elem_of_empty in Hg].
  unfold Paper.note_subject in Hg.
  destruct (author_rx s) as [ga|] eqn:Ea, (citing_rx s) as [gc|] eqn:Ec,
    (related_rx s) as [gr|] eqn:Er;
    apply rx_match_sound in Ea || clear Ea;
    apply rx_match_sound in Ec || clear Ec;
    apply rx_match_sound in Er || clear Er;
    destruct c; cbn in Hg; set_solver.
Qed.

Lemma dump_lines_ok (p : Paper.t) :
  newline_free (Paper.url p) = true → newline_free (Paper.desc p) = true →
  (∀ c g, g ∈ names_of c p → newline_free g = true) →
  ∃ body, Paper.dump p = SEP :: body ∧ body ≠ []
          ∧ Forall (λ l, newline_free l = true ∧ String.prefix SEP l = false) body.
Proof.
  intros Hu Hd Hn. eexists. split; [reflexivity|]. split; [done|].
  assert (∀ x, newline_free x = true →
            newline_free (TAB +:+ x) = true ∧ String.prefix SEP (TAB +:+ x) = false) as T.
  { intros x Hx. split; [by rewrite newline_free_app, Hx|reflexivity]. }
  assert (∀ c, newline_free (String.concat ", " (elements (names_of c p))) = true) as J.
  { intros c. apply newline_free_concat; [done|]. apply Forall_forall.
    intros g Hg%elem_of_elements. by apply (Hn c). }
  pose proof (J AuthorWatch) as JA. pose proof (J CitationWatch) as JC.
  pose proof (J RelatedWatch) as JR. cbn [names_of] in JA, JC, JR.
  repeat apply Forall_cons_2; [by apply T|by apply T|].
  repeat apply Forall_app_2.
  - case_bool_decide; [|constructor]. constructor; [|constructor].
    apply T. rewrite newline_free_app. by rewrite JA.
  - case_bool_decide; [|constructor]. constructor; [|constructor].
    apply T. rewrite newline_free_app. by rewrite JC.
  - case_bool_decide; [|constructor]. constructor; [|constructor].
    apply T. rewrite newline_free_app. by rewrite JR.
Qed.

Lemma dump_lines_cr_free (p : Paper.t) :
  cr_free (Paper.url p) = true → cr_free (Paper.desc p) = true →
  (∀ c g, g ∈ names_of c p → cr_free g = true) →
  Forall (λ l, cr_free l = true) (Paper.dump p).
Proof.
  intros Hu Hd Hn.
  assert (∀ x, cr_free x = true → cr_free (TAB +:+ x) = true) as T.
  { intros x Hx. by rewrite cr_free_app, Hx. }
  assert (∀ c, cr_free (String.concat ", " (elements (names_of c p))) = true) as J.
  { intros c. apply cr_free_concat; [done|]. apply Forall_forall.
    intros g Hg%elem_of_elements. by apply (Hn c). }
  pose proof (J AuthorWatch) as JA. pose proof (J CitationWatch) as JC.
  pose proof (J RelatedWatch) as JR. cbn [names_of] in JA, JC, JR.
  unfold Paper.dump.
  repeat apply Forall_cons_2; [done|by apply T|by apply T|].
  repeat apply Forall_app_2.
  - case_bool_decide; [|constructor]. constructor; [|constructor].
    apply T. rewrite cr_free_app. by rewrite JA.
  - case_bool_decide; [|constructor]. constructor; [|constructor].
    apply T. rewrite cr_free_app. by rewrite JC.
  - case_bool_decide; [|constructor]. constructor; [|constructor].
    apply T. rewrite cr_free_app. by rewrite JR.
Qed.

(** X5. What [dump] prints is a block file of the editor, one block per
    record printed and in the same order: when no URL, no description and
    no name holds a newline or a carriage return, the text the editor reads
    is the text printed, and its blocks are, record by record, the lines
    printed for the record less its separator line, beginning with the
    description line and the URL line. *)
Theorem dump_prints_one_block_per_record (evs : list event)
    (nonfree_text topic_text : string) :
  read_file "nonfree-blacklist.txt" = Some nonfree_text →
  read_file "topic-blacklist.txt" = Some topic_text →
  (∀ u p, (u, p) ∈ ScholarScraper.papers (run evs) →
          line_free u = true ∧ line_free (Paper.desc p) = true
          ∧ ∀ c g, g ∈ names_of c p → line_free g = true) →
  ∃ lines,
    ScholarScraper.dump (run evs) = Ret lines
    ∧ universal_newlines (join_lines lines) = join_lines lines
    ∧ blocks (universal_newlines (join_lines lines))
      = (λ p, tail (Paper.dump p))
          <$> filter (λ p, ¬ excluded (ScholarScraper.load_blacklist nonfree_text)
                              (ScholarScraper.load_blacklist topic_text) p)
                (ScholarScraper.papers (run evs)).*2
    ∧ ∀ p, ∃ more, tail (Paper.dump p)
                   = (TAB +:+ Paper.desc p) :: (TAB +:+ Paper.url p) :: more.
Proof.
  intros Hn Ht Hfree.
  exists (mjoin (Paper.dump <$>
            filter (λ p, ¬ excluded (ScholarScraper.load_blacklist nonfree_text)
                            (ScholarScraper.load_blacklist topic_text) p)
              (ScholarScraper.papers (run evs)).*2)).
  set (kept := filter _ _).
  assert (Forall (λ p, line_free (Paper.url p) = true ∧ line_free (Paper.desc p) = true
                       ∧ ∀ c g, g ∈ names_of c p → line_free g = true) kept) as L.
  { apply Forall_filter_keep, Forall_forall. intros p Hp.
    apply list_elem_of_fmap in Hp as ([u p'] & -> & Hin). cbn.
    pose proof (run_url evs u p' Hin) as U.
    destruct (Hfree u p' Hin) as (Fu & Fd & Fn). by rewrite U. }
  assert (universal_newlines (join_lines (mjoin (Paper.dump <$> kept)))
          = join_lines (mjoin (Paper.dump <$> kept))) as Hun.
  { apply universal_newlines_cr_free, cr_free_join_lines.
    clear -L. induction L as [|p kept (Fu & Fd & Fn) L IH]; [constructor|].
    rewrite fmap_cons. change (mjoin (?a :: ?l)) with (a ++ mjoin l).
    apply Forall_app_2; [|exact IH].
    unfold line_free in *. apply andb_true_iff in Fu as [_ Fu], Fd as [_ Fd].
    apply dump_lines_cr_free; [done|done|].
    intros c g Hg. by destruct (andb_prop _ _ (Fn c g Hg)). }
  split; [|split; [exact Hun|split]].
  - unfold ScholarScraper.dump. rewrite Hn, Ht. f_equal.
    apply dump_body_filter. intros u p. apply run_url.
  - rewrite Hun.
    assert (Forall (λ p, ∃ body, Paper.dump p = SEP :: body ∧ body ≠ []
              ∧ Forall (λ l, newline_free l = true ∧ String.prefix SEP l = false) body)
              kept) as K.
    { eapply Forall_impl; [exact L|]. intros p (Fu & Fd & Fn).
      unfold line_free in *. apply andb_true_iff in Fu as [Fu _], Fd as [Fd _].
      apply dump_lines_ok; [done|done|].
      intros c g Hg. by destruct (andb_prop _ _ (Fn c g Hg)). }
    clearbody kept. clear L Hun.
    assert (join_lines (mjoin (Paper.dump <$> kept))
            = serialize ((λ p, tail (Paper.dump p)) <$> kept)) as ->.
    { induction K as [|p kept (body & E & _) K IH]; [done|].
      rewrite !fmap_cons.
      change (mjoin (Paper.dump p :: (Paper.dump <$> kept)))
        with (Paper.dump p ++ mjoin (Paper.dump <$> kept)).
      rewrite join_lines_app, IH, serialize_cons, E. reflexivity. }
    rewrite blocks_serialize.
    + induction K as [|p kept (body & E & Hne & _) K IH]; [done|].
      rewrite fmap_cons, filter_cons, IH, E. by rewrite decide_True.
    + apply Forall_fmap. eapply Forall_impl; [exact K|].
      intros p (body & E & _ & Hb). unfold compose. cbv beta. rewrite E. exact Hb.
  - intros p. eexists. reflexivity.
Qed.

End round_trip.

Lemma dump_prints_one_block_per_record_witness :
  ∃ lines,
    @ScholarScraper.dump demo_platform (@run demo_platform demo_run) = Ret lines
    ∧ blocks (universal_newlines (join_lines lines))
      = [[TAB +:+ "Paper One"; TAB +:+ "http://x.org/p1";
          TAB +:+ "author: Ada"; TAB +:+ "citing: Bob"]].
Proof.
  destruct (@dump_prints_one_block_per_record demo_platform demo_run
              ("springer" +:+ NL +:+ NL +:+ "  elsevier " +:+ NL)
              ("blockchain" +:+ NL) eq_refl eq_refl) as (lines & D & _ & B & _).
  - intros u p Hin.
    assert (Forall (λ up, line_free up.1 = true ∧ line_free (Paper.desc up.2) = true
                          ∧ Forall (λ g, line_free g = true)
                              (elements (Paper.author up.2) ++ elements (Paper.citing up.2)
                               ++ elements (Paper.related up.2)))
              (ScholarScraper.papers (@run demo_platform demo_run))) as F
      by (apply (bool_decide_unpack _); vm_compute; exact I).
    rewrite Forall_forall in F. destruct (F (u, p) Hin) as (Fu & Fd & Fn).
    split_and!; [exact Fu|exact Fd|].
    intros c g Hg. rewrite Forall_forall in Fn. apply Fn.
    rewrite !elem_of_app, !elem_of_elements. destruct c; cbn in Hg; auto.
  - exists lines. split; [exact D|]. rewrite B. vm_compute. reflexivity.
Defined.

(** A carriage return in a description is the end of a line for the
    editor: the record below is one block as printed and two as read. *)
Example carriage_return_splits_a_record :
  let printed := join_lines ["---"; TAB +:+ "Title" +:+ String cr "---x"; TAB +:+ "u"] in
  line_free ("Title" +:+ String cr "---x") = false
  ∧ length (blocks printed) = 1
  ∧ length (blocks (universal_newlines printed)) = 2.
Proof. vm_compute. done. Qed.

Section edit_extras.

Context `{EditEnv}.

Lemma same_files_refl w : same_files w w.
Proof. by repeat split. Qed.

Lemma same_files_trans w w1 w2 : same_files w w1 → same_files w1 w2 → same_files w w2.
Proof. intros (?&?&?&?) (?&?&?&?). split_and!; congruence. Qed.

Lemma readonly_ret {A} (a : A) : readonly (mret a).
Proof. intros w. apply same_files_refl. Qed.

Lemma readonly_bind {A B} (m : M A) (f : A → M B) :
  readonly m → (∀ a, readonly (f a)) → readonly (m ≫= f).
Proof.
  intros Hm Hf w. specialize (Hm w). unfold mbind, M_bind, bind.
  destruct (m w) as [[a|e] w1]; [|done].
  eapply same_files_trans; [exact Hm|apply Hf].
Qed.

Lemma readonly_fault_point : readonly fault_point.
Proof.
  intros w. unfold fault_point. destruct (w_fault w) as [[[|n] e]|]; by repeat split.
Qed.

Lemma readonly_write_stdout s : readonly (write Stdout s).
Proof. intros w. by repeat split. Qed.

Lemma readonly_flush_block_stdout keep lines : readonly (flush_block Stdout keep lines).
Proof.
  unfold flush_block. destruct keep; [|apply readonly_ret].
  apply readonly_bind; [apply readonly_write_stdout|]. intros _.
  apply readonly_bind; [apply readonly_write_stdout|]. intros _.
  induction lines as [|k lines IH]; [apply readonly_ret|]. cbn [for_each].
  apply readonly_bind; [|by intros _].
  apply readonly_bind; [apply readonly_write_stdout|]. intros _.
  apply readonly_write_stdout.
Qed.

Lemma readonly_show_loop pat input lines keep : readonly (show_loop pat input lines keep).
Proof.
  revert lines keep. induction input as [|line input IH]; intros lines keep;
    cbn [show_loop]; (apply readonly_bind; [apply readonly_fault_point|]); intros _.
  - apply readonly_ret.
  - destruct (String.prefix SEP (rstrip_nl line)); [|apply IH].
    apply readonly_bind; [apply readonly_flush_block_stdout|]. intros _. apply IH.
Qed.

Lemma readonly_sys_fault_point : readonly sys_fault_point.
Proof.
  intros w. destruct (sys_fault_point_cases w) as [(D & I & P & _ & T) _].
  by split_and!.
Qed.

Lemma readonly_open_r fname : readonly (open_r fname).
Proof.
  intros w. unfold open_r. destruct (w_dir w !! fname); [|apply same_files_refl].
  revert w. change (readonly (sys_fault_point;; mret n)).
  apply readonly_bind; [apply readonly_sys_fault_point|]. intros _. apply readonly_ret.
Qed.

(** X6. [show_blocks] reads only: whatever the file holds and wherever the
    environment raises, it leaves the directory, every file, the open
    writers and the trace of system calls as they were; on a missing file,
    when the name is not the ['-'] that stands for the standard input, it
    raises [OSError] and prints nothing. *)
Theorem show_blocks_is_read_only (fname : string) (pat : string → bool) (w : world) :
  same_files w (show_blocks fname pat w).2
  ∧ (fname ≠ "-" → w_dir w !! fname = None →
     show_blocks fname pat w = (Raise OSError, w)).
Proof.
  split.
  - revert w. change (readonly (show_blocks fname pat)). unfold show_blocks.
    apply readonly_bind; [apply readonly_open_r|].
    intros infh. apply readonly_bind; [intros w; apply same_files_refl|].
    intros input. apply readonly_bind; [apply readonly_show_loop|].
    intros [lines keep]. case_bool_decide;
      [apply readonly_flush_block_stdout|apply readonly_ret].
  - intros _ E. unfold show_blocks. apply run_bind_raise. unfold open_r. by rewrite E.
Qed.

Lemma drop_blocks_missing_file_aux (fname : string) (pat : string → bool) (w : world) :
  w_dir w !! fname = None →
  ∃ w', drop_blocks fname pat w = (Raise OSError, w')
        ∧ w_dir w' = delete (fname +:+ ".bak") (w_dir w)
        ∧ w_ino w' = w_ino w ∧ w_pending w' = w_pending w
        ∧ w_stdout w' = w_stdout w ∧ w_fault w' = w_fault w.
Proof.
  intros Hd. pose proof (bak_ne fname) as Hne.
  destruct (try_unlink_run (fname +:+ ".bak") w) as (wa & Ea & Ca).
  injection Ca as Da Ia Pa Oa Fa.
  exists wa. split_and!; try done.
  rewrite drop_blocks_unfold. unfold inplace. fold (try_unlink (fname +:+ ".bak")).
  erewrite run_bind by exact Ea. apply run_bind_raise.
  unfold os_rename. by rewrite Da, lookup_delete_ne, Hd.
Qed.

(** X7. [drop_blocks] on a path that does not exist raises [OSError] out of
    [os.rename]; by then it has removed a backup file of that name if there
    was one, and that is all it has done. *)
Theorem drop_blocks_missing_file (fname : string) (pat : string → bool) (w : world) :
  w_dir w !! fname = None →
  ∃ w', drop_blocks fname pat w = (Raise OSError, w')
        ∧ w_dir w' = delete (fname +:+ ".bak") (w_dir w)
        ∧ w_ino w' = w_ino w ∧ w_pending w' = w_pending w
        ∧ w_stdout w' = w_stdout w ∧ w_fault w' = w_fault w.
Proof. apply drop_blocks_missing_file_aux. Qed.

(** X8. A fault-free [drop_blocks] on an existing file returns with the
    rewritten text at the path and no backup file, also when a backup file
    was there before the call; it writes nothing to the standard output and
    leaves every other file as it was. *)
Theorem drop_blocks_leaves_no_backup (fname text : string) (pat : string → bool)
    (w : world) :
  view w !! fname = Some text → w_fault w = None →
  (drop_blocks fname pat w).1 = Ret tt
  ∧ view (drop_blocks fname pat w).2 !! (fname +:+ ".bak") = None
  ∧ (∀ p, p ≠ fname → p ≠ fname +:+ ".bak" →
          view (drop_blocks fname pat w).2 !! p = view w !! p)
  ∧ w_stdout (drop_blocks fname pat w).2 = w_stdout w
  ∧ w_fault (drop_blocks fname pat w).2 = None.
Proof.
  intros Hv Q.
  destruct (drop_blocks_commit fname text pat w Hv Q)
    as (w' & i1 & -> & D & I1 & I & Hfr & O & F).
  destruct (commit_view fname w w' i1 _ D I1 I Hfr) as (_ & Vb & Vo).
  cbn [fst snd]. by split_and!.
Qed.

Lemma filter_match_no_match pat (bs : list (list string)) :
  filter (has_match pat) (filter (λ b, ¬ has_match pat b) bs) = [].
Proof.
  induction bs as [|b bs IH]; [done|]. rewrite (filter_cons (λ b, ¬ has_match pat b)).
  destruct (decide (¬ has_match pat b)); [|done].
  by rewrite filter_cons, decide_False by tauto.
Qed.

Lemma show_after_drop_text pat text : show_text pat (drop_text pat text) = "".
Proof. by rewrite show_text_spec, blocks_drop_text, filter_match_no_match. Qed.

(** X9. After [--delete] nothing is left for [--show]: a fault-free
    [drop_blocks] followed by [show_blocks] with the same pattern on the
    same file prints nothing. *)
Theorem show_after_delete_prints_nothing (fname text : string) (pat : string → bool)
    (w : world) :
  view w !! fname = Some text → w_fault w = None →
  ((drop_blocks fname pat;; show_blocks fname pat) w).1 = Ret tt
  ∧ w_stdout ((drop_blocks fname pat;; show_blocks fname pat) w).2 = w_stdout w.
Proof.
  intros Hv Q.
  destruct (drop_blocks_commit fname text pat w Hv Q)
    as (w' & i1 & E & D & I1 & I & Hfr & O & F).
  destruct (commit_view fname w w' i1 _ D I1 I Hfr) as (Vf & _ & _).
  erewrite run_bind by exact E.
  rewrite (show_blocks_run fname _ pat w' Vf F), show_after_drop_text.
  rewrite add_stdout_nil. by split.
Qed.

(** X10. Deleting twice deletes nothing more: after two fault-free runs of
    [drop_blocks] with one pattern the blocks of the file are the blocks
    without a match of the file at the start, as after the first run. *)
Theorem delete_twice_same_blocks (fname text : string) (pat : string → bool) (w : world) :
  view w !! fname = Some text → w_fault w = None →
  ∃ once twice,
    view (drop_blocks fname pat w).2 !! fname = Some once
    ∧ ((drop_blocks fname pat;; drop_blocks fname pat) w).1 = Ret tt
    ∧ view ((drop_blocks fname pat;; drop_blocks fname pat) w).2 !! fname = Some twice
    ∧ blocks once = filter (λ b, ¬ has_match pat b) (blocks text)
    ∧ blocks twice = blocks once.
Proof.
  intros Hv Q.
  destruct (drop_blocks_commit fname text pat w Hv Q)
    as (w1 & i1 & E1 & D1 & I1 & J1 & Hfr1 & O1 & F1).
  destruct (commit_view fname w w1 i1 _ D1 I1 J1 Hfr1) as (V1 & _ & _).
  destruct (drop_blocks_commit fname _ pat w1 V1 F1)
    as (w2 & i2 & E2 & D2 & I2 & J2 & Hfr2 & O2 & F2).
  destruct (commit_view fname w1 w2 i2 _ D2 I2 J2 Hfr2) as (V2 & _ & _).
  exists (drop_text pat text), (drop_text pat (drop_text pat text)).
  erewrite run_bind by exact E1. rewrite E1, E2. cbn [fst snd].
  split_and!; try done.
  - apply blocks_drop_text.
  - rewrite !blocks_drop_text, list_filter_filter. apply list_filter_iff. tauto.
Qed.

Lemma print_run (s : string) (w : world) : print s w = (Ret tt, add_stdout (s +:+ NL) w).
Proof.
  unfold print. erewrite run_bind by apply write_stdout.
  by rewrite write_stdout, add_stdout_add.
Qed.

(** X11. The two usage errors of [main]: with both patterns given, and with
    none (an empty pattern counts as none), it prints its one-line message
    and exits with status 1, and no file has been opened by then. *)
Theorem main_usage_errors (args : Args.t) (w : world) :
  (truthy (Args.show args) = true → truthy (Args.delete args) = true →
     main args w = (Raise (SystemExit 1),
                    add_stdout ("can only pass one of --show or --delete" +:+ NL) w))
  ∧ (truthy (Args.show args) = false → truthy (Args.delete args) = false →
     main args w = (Raise (SystemExit 1),
                    add_stdout ("must pass one of --show or --delete" +:+ NL) w)).
Proof.
  split; intros Ts Td; unfold main; rewrite Ts, Td; cbn [andb negb].
  - apply run_bind_raise. erewrite run_bind by apply print_run. reflexivity.
  - erewrite run_bind by apply run_ret. apply run_bind_raise.
    erewrite run_bind by apply print_run. reflexivity.
Qed.

(** X12. A pattern that [re.compile] rejects ends [main] with [re.error]
    before any file is looked at: nothing is printed and nothing changes,
    whatever the file list. *)
Theorem main_rejected_pattern (args : Args.t) (w : world) :
  xorb (truthy (Args.show args)) (truthy (Args.delete args)) = true →
  (truthy (Args.show args) = true → re_compile (default "" (Args.show args)) = None) →
  (truthy (Args.delete args) = true → re_compile (default "" (Args.delete args)) = None) →
  main args w = (Raise re_error, w).
Proof.
  intros Hx Hs Hd. unfold main.
  destruct (truthy (Args.show args)) eqn:Ts, (truthy (Args.delete args)) eqn:Td;
    try discriminate Hx; cbn [andb negb].
  - unfold compile. rewrite (Hs eq_refl). reflexivity.
  - unfold compile. rewrite (Hd eq_refl). reflexivity.
Qed.

Lemma view_add_stdout s w : view (add_stdout s w) = view w.
Proof. reflexivity. Qed.

Lemma for_each_show (pat : string → bool) (fs : list string) (w : world) :
  w_fault w = None → Forall (λ f, is_Some (view w !! f)) fs →
  for_each fs (λ f, show_blocks f pat) w = (Ret tt, add_stdout (shown_files pat w fs) w).
Proof.
  intros Q. revert w Q. induction fs as [|f fs IH]; intros w Q F.
  - cbn. by rewrite add_stdout_nil.
  - apply Forall_cons in F as [[text Hf] F]. cbn [for_each shown_files foldr].
    erewrite run_bind by by apply (show_blocks_run f text).
    rewrite IH; [|done|done]. rewrite Hf, add_stdout_add. reflexivity.
Qed.

(** X13. [--show] over several files: on a fault-free run with every file
    present, [main] prints for each file in the order of the command line
    what [show_blocks] prints for it, one after the other, and returns;
    the file system is as before. *)
Theorem main_show_prints_files_in_order (args : Args.t) (fs : list string)
    (pat : string → bool) (w : world) :
  truthy (Args.show args) = true → truthy (Args.delete args) = false →
  re_compile (default "" (Args.show args)) = Some pat →
  Args.file args = Some fs →
  w_fault w = None → Forall (λ f, is_Some (view w !! f)) fs →
  main args w = (Ret tt, add_stdout (shown_files pat w fs) w).
Proof.
  intros Ts Td Hp Hf Q F. unfold main. rewrite Ts, Td, Hf. cbn [andb negb].
  unfold compile. rewrite Hp.
  erewrite run_bind by apply run_ret. erewrite run_bind by apply run_ret.
  erewrite run_bind; [reflexivity|].
  erewrite run_bind by apply run_ret. cbn [for_files]. by apply for_each_show.
Qed.

(** X14. [--delete] over several files is not all or nothing: when the
    first file is rewritten without a fault and the second does not exist,
    [main] ends with [OSError] and the first file stays rewritten. *)
Theorem main_delete_keeps_earlier_rewrites (args : Args.t) (f1 f2 text : string)
    (pat : string → bool) (w : world) :
  truthy (Args.show args) = false → truthy (Args.delete args) = true →
  re_compile (default "" (Args.delete args)) = Some pat →
  Args.file args = Some [f1; f2] →
  w_fault w = None → view w !! f1 = Some text →
  w_dir w !! f2 = None → f2 ≠ f1 → f2 +:+ ".bak" ≠ f1 →
  ∃ w', main args w = (Raise OSError, w')
        ∧ view w' !! f1 = Some (drop_text pat text)
        ∧ w_stdout w' = w_stdout w.
Proof.
  intros Ts Td Hp Hf Q V1 D2 N1 N2. unfold main. rewrite Ts, Td, Hf. cbn [andb negb].
  unfold compile. rewrite Hp.
  destruct (drop_blocks_commit f1 text pat w V1 Q)
    as (w1 & i1 & E1 & Dw1 & I1 & J1 & Hfr1 & O1 & F1).
  destruct (drop_blocks_missing_file_aux f2 pat w1) as (w2 & E2 & Dw2 & Iw2 & _ & O2 & _).
  { rewrite Dw1, lookup_insert_ne by done.
    destruct (decide (f2 = f1 +:+ ".bak")) as [->|N3];
      [by rewrite lookup_delete_eq|by rewrite lookup_delete_ne]. }
  exists w2. split_and!.
  - erewrite run_bind by apply run_ret. erewrite run_bind by apply run_ret.
    erewrite run_bind by apply run_ret. erewrite run_bind by apply run_ret.
    cbn [for_files for_each].
    erewrite run_bind by exact E1. by apply run_bind_raise.
  - apply view_Some. exists i1. split.
    + by rewrite Dw2, lookup_delete_ne, Dw1, lookup_insert_eq.
    + by rewrite Iw2.
  - congruence.
Qed.

(** X15. An exception that is no [Exception] (a [KeyboardInterrupt], say)
    inside the rewrite is not rolled back: it goes on to the caller, the
    path names the new, unfinished file and no longer the original one, and
    the backup has been removed. *)
Theorem interrupt_is_not_rolled_back (fname text : string) (pat : string → bool)
    (w w' : world) (e : exn) :
  view w !! fname = Some text →
  drop_blocks fname pat w = (Raise e, w') →
  is_Exception e = false →
  (∃ k, w_fault w = Some (k, e))
  ∧ (∃ i1, w_dir w' = <[fname := i1]> (delete (fname +:+ ".bak") (w_dir w))
           ∧ w_dir w !! fname ≠ Some i1)
  ∧ view w' !! (fname +:+ ".bak") = None.
Proof.
  intros (i0 & Hd & Hi)%view_Some Hrun He. pose proof (bak_ne fname) as Hne.
  pose proof (enter_cases fname w i0 Hd) as C1.
  rewrite drop_blocks_unfold, inplace_split in Hrun.
  destruct (enter fname w) as [[[r i1]|e1] w1].
  2:{ destruct C1 as (-> & _). by injection Hrun as <- _. }
  destruct C1 as (-> & Hi1 & Hfr & D1 & I1 & P1 & O1 & F1).
  assert (stream i1 w1 = Some "") as S1
    by (unfold stream; by rewrite I1, P1, !lookup_insert_eq).
  destruct (confined_drop_body pat i0 i1 w1 "" S1) as ((D2 & O2 & I2) & (s' & S2 & R2) & _).
  destruct (drop_body pat i0 i1 w1) as [[[]|e2] w2] eqn:E2; cbn [fst snd] in *.
  { pose proof (guarded_return fname (drop_body pat) i0 i1 w1 w2 tt E2) as G.
    rewrite Hrun in G. destruct G as (-> & _). done. }
  destruct R2 as (_ & Q2 & Q2').
  destruct (is_Exception e2) eqn:He2.
  { destruct (guarded_rollback fname (drop_body pat) i0 i1 w1 w2 e2 E2 He2 Q2')
      as (w3 & E3 & _); [by rewrite D2, D1, lookup_insert_ne, lookup_insert_eq|].
    congruence. }
  destruct (guarded_interrupt fname (drop_body pat) i0 i1 w1 w2 e2 E2 He2 Q2')
    as (w3 & E3 & D3 & _).
  rewrite E3 in Hrun. injection Hrun as -> ->.
  assert (w_dir w' = <[fname := i1]> (delete (fname +:+ ".bak") (w_dir w))) as Hdir.
  { rewrite D3, D2, D1. apply map_eq. intros p.
    destruct (decide (p = fname +:+ ".bak")) as [->|Hp].
    - by rewrite lookup_delete_eq, lookup_insert_ne, lookup_delete_eq.
    - rewrite lookup_delete_ne by done.
      destruct (decide (p = fname)) as [->|Hp'].
      + by rewrite !lookup_insert_eq.
      + by rewrite !lookup_insert_ne, !lookup_delete_ne. }
  split_and!.
  - apply fault_exn_Some. congruence.
  - exists i1. split; [done|]. rewrite Hd. by intros [= ->].
  - by rewrite view_lookup, Hdir, lookup_insert_ne, lookup_delete_eq.
Qed.

(** X16. [drop_blocks] keeps to its two paths: whether the file exists or
    not and wherever the environment raises, every file under a path other
    than the file and its backup is afterwards what it was before, and
    nothing has been written to the standard output. *)
Theorem drop_blocks_touches_two_paths_only (fname : string) (pat : string → bool)
    (w : world) :
  w_stdout (drop_blocks fname pat w).2 = w_stdout w
  ∧ ∀ p, p ≠ fname → p ≠ fname +:+ ".bak" →
         view (drop_blocks fname pat w).2 !! p = view w !! p.
Proof.
  pose proof (bak_ne fname) as Hne.
  destruct (w_dir w !! fname) as [i0|] eqn:Hd.
  2:{ destruct (drop_blocks_missing_file_aux fname pat w Hd)
        as (w' & -> & D & I & _ & O & _). cbn [snd]. split; [done|].
      intros p Hp Hp'. by rewrite !view_lookup, D, I, lookup_delete_ne. }
  pose proof (enter_cases fname w i0 Hd) as C1.
  rewrite drop_blocks_unfold, inplace_split.
  destruct (enter fname w) as [[[r i1]|e1] w1].
  2:{ destruct C1 as (_ & D1 & I1 & _ & O1 & _). cbn [snd]. split; [done|].
      intros p Hp Hp'.
      by rewrite !view_lookup, D1, I1, lookup_insert_ne, !lookup_delete_ne. }
  destruct C1 as (-> & Hi1 & Hfr & D1 & I1 & P1 & O1 & F1).
  assert (stream i1 w1 = Some "") as S1
    by (unfold stream; by rewrite I1, P1, !lookup_insert_eq).
  destruct (confined_drop_body pat i0 i1 w1 "" S1) as ((D2 & O2 & I2) & (s' & S2 & R2) & _).
  assert (∃ r w3, guarded fname (drop_body pat) i0 i1 w1 = (r, w3)
            ∧ w_stdout w3 = w_stdout (drop_body pat i0 i1 w1).2
            ∧ (∀ p, p ≠ fname → p ≠ fname +:+ ".bak" →
                    w_dir w3 !! p = w_dir (drop_body pat i0 i1 w1).2 !! p)
            ∧ (∀ j, j ≠ i1 → w_ino w3 !! j = w_ino (drop_body pat i0 i1 w1).2 !! j))
    as (r & w3 & -> & O3 & D3 & I3).
  { destruct (drop_body pat i0 i1 w1) as [[[]|e2] w2] eqn:E2; cbn [fst snd] in *.
    - pose proof (guarded_return fname (drop_body pat) i0 i1 w1 w2 tt E2) as G.
      destruct (guarded fname (drop_body pat) i0 i1 w1) as [[[]|e3] w3].
      + destruct G as (_ & D3 & O3 & _ & I3 & _).
        exists (Ret tt), w3. split_and!; try done.
        intros p Hp Hp'. by rewrite D3, lookup_delete_ne.
      + destruct G as (_ & D3 & I3 & O3 & _).
        exists (Raise e3), w3. split_and!; try done.
        * intros p _ _. by rewrite D3.
        * intros j _. by rewrite I3.
    - destruct R2 as (_ & Q2 & Q2').
      destruct (is_Exception e2) eqn:He2.
      + destruct (guarded_rollback fname (drop_body pat) i0 i1 w1 w2 e2 E2 He2 Q2')
          as (w3 & E3 & D3 & O3 & _ & I3);
          [by rewrite D2, D1, lookup_insert_ne, lookup_insert_eq|].
        exists (Raise e2), w3. split_and!; try done.
        intros p Hp Hp'. by rewrite D3, lookup_insert_ne, !lookup_delete_ne.
      + destruct (guarded_interrupt fname (drop_body pat) i0 i1 w1 w2 e2 E2 He2 Q2')
          as (w3 & E3 & D3 & O3 & I3).
        exists (Raise e2), w3. split_and!; try done.
        intros p Hp Hp'. by rewrite D3, lookup_delete_ne. }
  cbn [snd]. split; [congruence|].
  intros p Hp Hp'. rewrite !view_lookup, D3, D2, D1 by done.
  rewrite !lookup_insert_ne, !lookup_delete_ne by done.
  destruct (w_dir w !! p) as [j|] eqn:Hj; [|done]. cbn.
  assert (j ≠ i1) as Hji by eauto.
  by rewrite I3, I2, I1, lookup_insert_ne.
Qed.

End edit_extras.

Lemma show_blocks_is_read_only_witness :
  "h" ≠ "-" ∧ w_dir stale_world !! "h" = None
  ∧ @show_blocks (demo_env 100) "h" no_match stale_world = (Raise OSError, stale_world).
Proof.
  assert ("h" ≠ "-") as N by discriminate.
  assert (w_dir stale_world !! "h" = None) as E by reflexivity.
  split_and!; [exact N|exact E|].
  exact (proj2 (@show_blocks_is_read_only (demo_env 100) "h" no_match stale_world) N E).
Defined.

Lemma drop_blocks_missing_file_witness :
  w_dir stale_world !! "h" = None
  ∧ ∃ w', @drop_blocks (demo_env 100) "h" no_match stale_world = (Raise OSError, w').
Proof.
  split; [reflexivity|].
  destruct (@drop_blocks_missing_file (demo_env 100) "h" no_match stale_world eq_refl)
    as (w' & E & _).
  by exists w'.
Defined.

Lemma drop_blocks_leaves_no_backup_witness :
  view stale_world !! "f" = Some two_blocks
  ∧ w_fault stale_world = None
  ∧ view (@drop_blocks (demo_env 100) "f" no_match stale_world).2 !! "f.bak" = None.
Proof.
  assert (view stale_world !! "f" = Some two_blocks) as Hv by (vm_compute; reflexivity).
  split_and!; [exact Hv|reflexivity|].
  exact (proj1 (proj2 (@drop_blocks_leaves_no_backup (demo_env 100) "f" two_blocks
                         no_match stale_world Hv eq_refl))).
Defined.

Lemma show_after_delete_prints_nothing_witness :
  view stale_world !! "f" = Some two_blocks
  ∧ w_fault stale_world = None
  ∧ w_stdout ((@drop_blocks (demo_env 100) "f" (str_in "A");;
               @show_blocks (demo_env 100) "f" (str_in "A")) stale_world).2
    = w_stdout stale_world.
Proof.
  assert (view stale_world !! "f" = Some two_blocks) as Hv by (vm_compute; reflexivity).
  split_and!; [exact Hv|reflexivity|].
  exact (proj2 (@show_after_delete_prints_nothing (demo_env 100) "f" two_blocks
                  (str_in "A") stale_world Hv eq_refl)).
Defined.

Lemma delete_twice_same_blocks_witness :
  view stale_world !! "f" = Some two_blocks
  ∧ w_fault stale_world = None
  ∧ ∃ once twice,
      view (@drop_blocks (demo_env 100) "f" (str_in "A") stale_world).2 !! "f" = Some once
      ∧ view ((@drop_blocks (demo_env 100) "f" (str_in "A");;
               @drop_blocks (demo_env 100) "f" (str_in "A")) stale_world).2 !! "f"
        = Some twice
      ∧ blocks twice = blocks once.
Proof.
  assert (view stale_world !! "f" = Some two_blocks) as Hv by (vm_compute; reflexivity).
  split_and!; [exact Hv|reflexivity|].
  destruct (@delete_twice_same_blocks (demo_env 100) "f" two_blocks (str_in "A")
              stale_world Hv eq_refl) as (once & twice & H1 & _ & H2 & _ & H3).
  exists once, twice. by split_and!.
Defined.

Lemma main_usage_errors_witness :
  @main (demo_env 100) (Args.mk (Some "a") (Some "b") (Some ["f"])) stale_world
  = (Raise (SystemExit 1),
     add_stdout ("can only pass one of --show or --delete" +:+ NL) stale_world).
Proof.
  exact (proj1 (@main_usage_errors (demo_env 100)
                  (Args.mk (Some "a") (Some "b") (Some ["f"])) stale_world)
           eq_refl eq_refl).
Defined.

Lemma main_rejected_pattern_witness :
  @main (demo_env 100) (Args.mk None (Some "(") (Some ["f"])) stale_world
  = (Raise re_error, stale_world).
Proof.
  apply (@main_rejected_pattern (demo_env 100)); [reflexivity| |].
  - discriminate.
  - intros _. reflexivity.
Defined.

Lemma main_show_prints_files_in_order_witness :
  @main (demo_env 100) (Args.mk (Some "other") None (Some ["f"; "g"])) stale_world
  = (Ret tt, add_stdout ("---" +:+ NL +:+ "other" +:+ NL) stale_world).
Proof.
  rewrite (@main_show_prints_files_in_order (demo_env 100)
             (Args.mk (Some "other") None (Some ["f"; "g"])) ["f"; "g"]
             (λ line, str_in (ascii_lower "other") (ascii_lower line)) stale_world
             eq_refl eq_refl eq_refl eq_refl eq_refl).
  - vm_compute. reflexivity.
  - repeat constructor; vm_compute; by eexists.
Defined.

Lemma main_delete_keeps_earlier_rewrites_witness :
  ∃ w', @main (demo_env 100) (Args.mk None (Some "zzz") (Some ["f"; "h"])) stale_world
        = (Raise OSError, w')
        ∧ view w' !! "f" = Some ("---" +:+ NL +:+ two_blocks).
Proof.
  assert (view stale_world !! "f" = Some two_blocks) as Hv by (vm_compute; reflexivity).
  assert (w_dir stale_world !! "h" = None) as Hh by (vm_compute; reflexivity).
  assert ("h" ≠ "f") as N1 by discriminate.
  assert ("h" +:+ ".bak" ≠ "f") as N2 by discriminate.
  destruct (@main_delete_keeps_earlier_rewrites (demo_env 100)
              (Args.mk None (Some "zzz") (Some ["f"; "h"])) "f" "h" two_blocks
              (λ line, str_in (ascii_lower "zzz") (ascii_lower line)) stale_world
              eq_refl eq_refl eq_refl eq_refl eq_refl Hv Hh N1 N2)
    as (w' & E & V & _).
  exists w'. split; [exact E|]. rewrite V. vm_compute. reflexivity.
Defined.

Lemma interrupt_is_not_rolled_back_witness :
  let r := @drop_blocks (demo_env 100) "f" no_match
             (demo_world "f" two_blocks (Some (5, KeyboardInterrupt))) in
  view (demo_world "f" two_blocks (Some (5, KeyboardInterrupt))) !! "f" = Some two_blocks
  ∧ r = (Raise KeyboardInterrupt, r.2)
  ∧ view r.2 !! "f.bak" = None.
Proof.
  cbn zeta.
  assert (view (demo_world "f" two_blocks (Some (5, KeyboardInterrupt))) !! "f"
          = Some two_blocks) as Hv by (vm_compute; reflexivity).
  assert (@drop_blocks (demo_env 100) "f" no_match
            (demo_world "f" two_blocks (Some (5, KeyboardInterrupt)))
          = (Raise KeyboardInterrupt,
             (@drop_blocks (demo_env 100) "f" no_match
                (demo_world "f" two_blocks (Some (5, KeyboardInterrupt)))).2)) as Hr
    by (vm_compute; reflexivity).
  split_and!; [exact Hv|exact Hr|].
  exact (proj2 (proj2 (@interrupt_is_not_rolled_back (demo_env 100) "f" two_blocks
                         no_match _ _ KeyboardInterrupt Hv Hr eq_refl))).
Defined.
